(** * Tank.io game server (server.js): a shallow embedding and its properties

    The development follows [src/server.js]: the module-level stores
    ([players], [bullets], [spectators], [powerUps], [explosions],
    [leaderboard]), the connection handler with its three per-socket
    listeners, and the 60 Hz game loop.

    Modelling conventions.
    - A JS [Map] / [Set] keeps insertion order, and that order decides
      which player a bullet hits first and which spectator is promoted
      first, so both are association lists / lists in insertion order.
    - Coordinates, angles and [Math.random()] draws are JS numbers; they are
      rationals here (no rounding, no overflow).  Counters, health and
      timestamps are integers in the program and are [Z] here.
    - A property that an object literal does not set reads as [undefined];
      the numeric fields that one of the two player literals leaves out are
      of type [JsNum], which has [Undefined] and [NaN].
    - [Date.now()], [Math.random()], [Math.cos] and [Math.sin] belong to the
      host; they are the fields of [Env].  Every call of [Date.now()] and of
      [Math.random()] consumes the next reading of its oracle.
    - A handler is a computation in the monad [M]: it reads the host,
      updates the [World] and either completes or throws a [TypeError].
    - [console.log] calls are not modelled. *)

From Stdlib Require Import ZArith QArith Qround Qminmax List String Ascii Bool Lia Sorted.
From Stdlib Require Import DecimalString.
From Stdlib Require Import Lqa Permutation.
Import ListNotations.

Local Open Scope string_scope.
Local Open Scope list_scope.
Local Open Scope Z_scope.

(* ------------------------------------------------------------------ *)
(** ** JS numbers that may be missing *)

Inductive JsNum : Type :=
| Undefined
| NaN
| Num (z : Z).

Module Js.

(** [a + b] on numbers; [undefined] converts to [NaN]. *)
Definition add (a b : JsNum) : JsNum :=
  match a, b with
  | Num x, Num y => Num (x + y)
  | _, _ => NaN
  end.

(** [a - b]. *)
Definition sub (a b : JsNum) : JsNum :=
  match a, b with
  | Num x, Num y => Num (x - y)
  | _, _ => NaN
  end.

(** [a < b]: false as soon as one side is [NaN] or [undefined]. *)
Definition lt (a b : JsNum) : bool :=
  match a, b with
  | Num x, Num y => x <? y
  | _, _ => false
  end.

(** [a <= b]. *)
Definition le (a b : JsNum) : bool :=
  match a, b with
  | Num x, Num y => x <=? y
  | _, _ => false
  end.

(** [a > b]. *)
Definition gt (a b : JsNum) : bool := lt b a.

(** [Math.min(a, b)]. *)
Definition min (a b : JsNum) : JsNum :=
  match a, b with
  | Num x, Num y => Num (Z.min x y)
  | _, _ => NaN
  end.

End Js.

(* ------------------------------------------------------------------ *)
(** ** [Map] and [Set] in insertion order *)

Module JsMap.

Definition t (V : Type) : Type := list (string * V).

Definition keyIs {V} (k : string) (e : string * V) : bool :=
  String.eqb (fst e) k.

Fixpoint get {V} (k : string) (m : t V) : option V :=
  match m with
  | [] => None
  | (k', v) :: m' => if String.eqb k' k then Some v else get k m'
  end.

Definition has {V} (k : string) (m : t V) : bool :=
  match get k m with Some _ => true | None => false end.

(** [m.set(k, v)]: an existing key keeps its place, a new key goes last. *)
Fixpoint set {V} (k : string) (v : V) (m : t V) : t V :=
  match m with
  | [] => [(k, v)]
  | (k', v') :: m' =>
      if String.eqb k' k then (k', v) :: m' else (k', v') :: set k v m'
  end.

(** [m.delete(k)]. *)
Definition delete {V} (k : string) (m : t V) : t V :=
  filter (fun e => negb (keyIs k e)) m.

(** In-place mutation of the object stored under [k]. *)
Definition update {V} (k : string) (f : V -> V) (m : t V) : t V :=
  map (fun e => if keyIs k e then (fst e, f (snd e)) else e) m.

Definition size {V} (m : t V) : nat := List.length m.

(** [Array.from(m.values())]. *)
Definition values {V} (m : t V) : list V := map snd m.

Definition keys {V} (m : t V) : list string := map fst m.

End JsMap.

Module JsSet.

Definition t : Type := list string.

Definition has (k : string) (s : t) : bool := existsb (String.eqb k) s.

(** [s.add(k)]: no effect when [k] is already a member. *)
Definition add (k : string) (s : t) : t :=
  if has k s then s else s ++ [k].

(** [s.delete(k)]. *)
Definition delete (k : string) (s : t) : t :=
  filter (fun k' => negb (String.eqb k' k)) s.

Definition size (s : t) : nat := List.length s.

(** [s.values().next().value]: the oldest member. *)
Definition first (s : t) : option string := hd_error s.

End JsSet.

(* ------------------------------------------------------------------ *)
(** ** Constants *)

(** [socket.id] *)
Abbreviation SocketId := string (only parsing).

Definition MAX_PLAYERS : nat := 8.
Definition GAME_WIDTH : Q := 1200.
Definition GAME_HEIGHT : Q := 800.
Definition TANK_SIZE : Q := 40.
Definition BULLET_SIZE : Q := 6.
Definition BULLET_SPEED : Q := 12.
Definition TANK_SPEED : Q := 4.
Definition POWER_UP_SPAWN_RATE : Q := 2 # 100.
Definition EXPLOSION_DURATION : Z := 500.

(* ------------------------------------------------------------------ *)
(** ** Entities *)

(** The value of a player's [color]: the string [hsl(<hue>, 70%, 50%)],
    kept as the hue it is printed from. *)
Inductive Color : Type :=
| Hsl (hue : Q).

(** [player.powerUps]: expiry timestamp per timed effect. *)
Module Effects.
Record t : Type := mk {
  speed : Z;
  shield : Z;
  rapidFire : Z;
  damage : Z
}.
(** [{ speed: 0, shield: 0, rapidFire: 0, damage: 0 }] *)
Definition cleared : t := mk 0 0 0 0.
Definition with_speed (v : Z) (e : t) := mk v (shield e) (rapidFire e) (damage e).
Definition with_shield (v : Z) (e : t) := mk (speed e) v (rapidFire e) (damage e).
Definition with_rapidFire (v : Z) (e : t) := mk (speed e) (shield e) v (damage e).
Definition with_damage (v : Z) (e : t) := mk (speed e) (shield e) (rapidFire e) v.
End Effects.

Module Player.
Record t : Type := mk {
  id : SocketId;
  x : Q;
  y : Q;
  angle : Q;
  health : JsNum;
  maxHealth : JsNum;
  score : Z;
  kills : JsNum;
  deaths : JsNum;
  color : Color;
  powerUps : option Effects.t;
  lastShot : JsNum;
  team : JsNum
}.
Definition with_x (v : Q) (p : t) : t :=
  mk (id p) v (y p) (angle p) (health p) (maxHealth p) (score p) (kills p)
     (deaths p) (color p) (powerUps p) (lastShot p) (team p).
Definition with_y (v : Q) (p : t) : t :=
  mk (id p) (x p) v (angle p) (health p) (maxHealth p) (score p) (kills p)
     (deaths p) (color p) (powerUps p) (lastShot p) (team p).
Definition with_angle (v : Q) (p : t) : t :=
  mk (id p) (x p) (y p) v (health p) (maxHealth p) (score p) (kills p)
     (deaths p) (color p) (powerUps p) (lastShot p) (team p).
Definition with_health (v : JsNum) (p : t) : t :=
  mk (id p) (x p) (y p) (angle p) v (maxHealth p) (score p) (kills p)
     (deaths p) (color p) (powerUps p) (lastShot p) (team p).
Definition with_score (v : Z) (p : t) : t :=
  mk (id p) (x p) (y p) (angle p) (health p) (maxHealth p) v (kills p)
     (deaths p) (color p) (powerUps p) (lastShot p) (team p).
Definition with_kills (v : JsNum) (p : t) : t :=
  mk (id p) (x p) (y p) (angle p) (health p) (maxHealth p) (score p) v
     (deaths p) (color p) (powerUps p) (lastShot p) (team p).
Definition with_deaths (v : JsNum) (p : t) : t :=
  mk (id p) (x p) (y p) (angle p) (health p) (maxHealth p) (score p) (kills p)
     v (color p) (powerUps p) (lastShot p) (team p).
Definition with_powerUps (v : option Effects.t) (p : t) : t :=
  mk (id p) (x p) (y p) (angle p) (health p) (maxHealth p) (score p) (kills p)
     (deaths p) (color p) v (lastShot p) (team p).
Definition with_lastShot (v : JsNum) (p : t) : t :=
  mk (id p) (x p) (y p) (angle p) (health p) (maxHealth p) (score p) (kills p)
     (deaths p) (color p) (powerUps p) v (team p).
End Player.

Module Bullet.
Record t : Type := mk {
  id : string;
  playerId : SocketId;
  x : Q;
  y : Q;
  dx : Q;
  dy : Q;
  angle : Q;
  damage : Z;
  color : string
}.
Definition with_xy (vx vy : Q) (b : t) : t :=
  mk (id b) (playerId b) vx vy (dx b) (dy b) (angle b) (damage b) (color b).
End Bullet.

(** The entries of [POWER_UP_TYPES]. *)
Inductive PowerUpType : Type :=
| SPEED
| SHIELD
| RAPID_FIRE
| HEALTH
| DAMAGE.

Module PowerUpType.
Definition type (k : PowerUpType) : string :=
  match k with
  | SPEED => "speed" | SHIELD => "shield" | RAPID_FIRE => "rapidFire"
  | HEALTH => "health" | DAMAGE => "damage"
  end.
Definition color (k : PowerUpType) : string :=
  match k with
  | SPEED => "#3498db" | SHIELD => "#9b59b6" | RAPID_FIRE => "#e74c3c"
  | HEALTH => "#2ecc71" | DAMAGE => "#f39c12"
  end.
Definition duration (k : PowerUpType) : Z :=
  match k with
  | SPEED => 10000 | SHIELD => 8000 | RAPID_FIRE => 7000
  | HEALTH => 0 | DAMAGE => 12000
  end.
Definition effect (k : PowerUpType) : string :=
  match k with
  | SPEED => "Speed Boost" | SHIELD => "Shield" | RAPID_FIRE => "Rapid Fire"
  | HEALTH => "Health Pack" | DAMAGE => "Double Damage"
  end.
(** [Object.values(POWER_UP_TYPES)] *)
Definition values : list PowerUpType := [SPEED; SHIELD; RAPID_FIRE; HEALTH; DAMAGE].
End PowerUpType.

(** A spawned power-up: [{ id, x, y, ...powerUpType, spawnTime }]; the four
    spread fields are those of [kind]. *)
Module PowerUp.
Record t : Type := mk {
  id : string;
  x : Q;
  y : Q;
  kind : PowerUpType;
  spawnTime : Z
}.
End PowerUp.

Module Explosion.
Record t : Type := mk {
  id : string;
  x : Q;
  y : Q;
  size : Q;
  startTime : Z;
  duration : Z
}.
End Explosion.

(** The text of a leaderboard entry's [kd]: [q.toFixed(2)], kept as the
    number it is printed from, or the text ["NaN"]. *)
Inductive KdText : Type :=
| Fixed2 (q : Q)
| NaNText.

Module LeaderEntry.
Record t : Type := mk {
  id : SocketId;
  score : Z;
  kills : JsNum;
  deaths : JsNum;
  kd : KdText
}.
End LeaderEntry.

(** The argument of [checkCollision]. *)
Module Rect.
Record t : Type := mk { x : Q; y : Q; width : Q; height : Q }.
End Rect.

(* ------------------------------------------------------------------ *)
(** ** Messages to the clients *)

(** An emitted event with its payload.  [playerKilled] carries, for its
    [killer] and [victim] texts [`Player ${score}`], the two scores. *)
Inductive Message : Type :=
| gameFull (message : string) (isSpectator : bool)
| gameState (players : list Player.t) (bullets : list Bullet.t)
            (powerUps : option (list PowerUp.t))
            (explosions : option (list Explosion.t))
            (gameArea : Q * Q) (isSpectator : bool)
| playerJoined (playerCount : nat)
| powerUpCollected (type effect : string)
| promotedToPlayer (message : string) (isSpectator : bool)
| playerCountUpdate (playerCount spectatorCount : nat)
| playerHit (playerId shooterId : SocketId) (damage : Z) (x y : Q)
| playerKilled (killer victim : Z) (killerColor victimColor : Color)
| gameUpdate (players : list Player.t) (bullets : list Bullet.t)
             (powerUps : list PowerUp.t) (explosions : list Explosion.t)
             (leaderboard : list LeaderEntry.t).

Inductive Emit : Type :=
| SocketEmit (socketId : SocketId) (m : Message)  (* socket.emit(...)     *)
| IoEmit (m : Message)                            (* io.emit(...)         *)
| IoToEmit (room : SocketId) (m : Message).       (* io.to(room).emit(...) *)

(** Payloads of the two client requests. *)
Module MoveData.
Record t : Type := mk { dx : Q; dy : Q; angle : Q }.
End MoveData.

Module ShootData.
Record t : Type := mk { angle : Q }.
End ShootData.

(* ------------------------------------------------------------------ *)
(** ** Host, stores and the handler monad *)

(** What the JS host provides: the [n]-th reading of [Date.now()], the
    [n]-th draw of [Math.random()], and the two [Math] functions. *)
Record Env : Type := {
  Date_now : nat -> Z;
  Math_random : nat -> Q;
  Math_cos : Q -> Q;
  Math_sin : Q -> Q
}.

(** The module-level state of server.js. *)
Record Store : Type := mkStore {
  players : JsMap.t Player.t;
  bullets : JsMap.t Bullet.t;
  spectators : JsSet.t;
  powerUps : JsMap.t PowerUp.t;
  explosions : JsMap.t Explosion.t;
  leaderboard : list LeaderEntry.t
}.

Definition with_players (f : JsMap.t Player.t -> JsMap.t Player.t) (s : Store) : Store :=
  mkStore (f (players s)) (bullets s) (spectators s) (powerUps s) (explosions s) (leaderboard s).
Definition with_bullets (f : JsMap.t Bullet.t -> JsMap.t Bullet.t) (s : Store) : Store :=
  mkStore (players s) (f (bullets s)) (spectators s) (powerUps s) (explosions s) (leaderboard s).
Definition with_spectators (f : JsSet.t -> JsSet.t) (s : Store) : Store :=
  mkStore (players s) (bullets s) (f (spectators s)) (powerUps s) (explosions s) (leaderboard s).
Definition with_powerUps (f : JsMap.t PowerUp.t -> JsMap.t PowerUp.t) (s : Store) : Store :=
  mkStore (players s) (bullets s) (spectators s) (f (powerUps s)) (explosions s) (leaderboard s).
Definition with_explosions (f : JsMap.t Explosion.t -> JsMap.t Explosion.t) (s : Store) : Store :=
  mkStore (players s) (bullets s) (spectators s) (powerUps s) (f (explosions s)) (leaderboard s).
Definition with_leaderboard (f : list LeaderEntry.t -> list LeaderEntry.t) (s : Store) : Store :=
  mkStore (players s) (bullets s) (spectators s) (powerUps s) (explosions s) (f (leaderboard s)).

(** The server between two handler runs: the stores, the sockets that had
    their listeners registered, everything emitted so far (oldest first),
    and how many readings of each oracle have been consumed. *)
Record World : Type := mkWorld {
  store : Store;
  listeners : list SocketId;
  outbox : list Emit;
  clockReads : nat;
  randomDraws : nat
}.

Definition emptyStore : Store := mkStore [] [] [] [] [] [].
Definition initialWorld : World := mkWorld emptyStore [] [] 0 0.

Inductive Outcome (A : Type) : Type :=
| Done (a : A) (w : World)
| Threw (w : World).   (* an uncaught TypeError; [w] is the state it left *)
Arguments Done {A} a w.
Arguments Threw {A} w.

Definition M (A : Type) : Type := Env -> World -> Outcome A.

Definition ret {A} (a : A) : M A := fun _ w => Done a w.

Definition bind {A B} (m : M A) (k : A -> M B) : M B :=
  fun env w =>
    match m env w with
    | Done a w' => k a env w'
    | Threw w' => Threw w'
    end.

Notation "x <- m ;; k" := (bind m (fun x => k))
  (at level 61, m at next level, right associativity).
Notation "m ;; k" := (bind m (fun _ => k))
  (at level 61, right associativity).

Definition throwTypeError {A} : M A := fun _ w => Threw w.

(** The world an outcome leaves behind. *)
Definition final {A} (o : Outcome A) : World :=
  match o with Done _ w => w | Threw w => w end.

(** [Date.now()] *)
Definition dateNow : M Z :=
  fun env w =>
    Done (Date_now env (clockReads w))
         (mkWorld (store w) (listeners w) (outbox w) (S (clockReads w)) (randomDraws w)).

(** [Math.random()] *)
Definition mathRandom : M Q :=
  fun env w =>
    Done (Math_random env (randomDraws w))
         (mkWorld (store w) (listeners w) (outbox w) (clockReads w) (S (randomDraws w))).

Definition mathCos (a : Q) : M Q := fun env w => Done (Math_cos env a) w.
Definition mathSin (a : Q) : M Q := fun env w => Done (Math_sin env a) w.

Definition getStore : M Store := fun _ w => Done (store w) w.

Definition modifyStore (f : Store -> Store) : M unit :=
  fun _ w =>
    Done tt (mkWorld (f (store w)) (listeners w) (outbox w) (clockReads w) (randomDraws w)).

Definition emit (e : Emit) : M unit :=
  fun _ w =>
    Done tt (mkWorld (store w) (listeners w) (outbox w ++ [e]) (clockReads w) (randomDraws w)).

(** The three [socket.on(...)] registrations of a joining socket. *)
Definition registerListeners (socketId : SocketId) : M unit :=
  fun _ w =>
    Done tt (mkWorld (store w) (listeners w ++ [socketId]) (outbox w) (clockReads w) (randomDraws w)).

Definition getListeners : M (list SocketId) := fun _ w => Done (listeners w) w.

(** The end of a socket: socket.io delivers it no event after ['disconnect']. *)
Definition closeSocket (socketId : SocketId) : M unit :=
  fun _ w =>
    Done tt (mkWorld (store w)
                     (filter (fun s => negb (String.eqb s socketId)) (listeners w))
                     (outbox w) (clockReads w) (randomDraws w)).

(** [players.get(key)] *)
Definition getPlayer (key : SocketId) : M (option Player.t) :=
  st <- getStore ;; ret (JsMap.get key (players st)).

(** Assignment to properties of the player object stored under [key]. *)
Definition mutatePlayer (key : SocketId) (f : Player.t -> Player.t) : M unit :=
  modifyStore (with_players (JsMap.update key f)).

(** How an iteration of a [for ... of] body ends. *)
Inductive Flow : Type :=
| Next     (* falls through, or [continue] *)
| Break.   (* [break] *)

(** [for (const e of l) body]: the entries are those present when the loop
    starts; the loops of server.js only ever delete the entry they are at. *)
Fixpoint forOf {A} (l : list A) (body : A -> M Flow) : M unit :=
  match l with
  | [] => ret tt
  | a :: l' =>
      c <- body a ;;
      match c with
      | Break => ret tt
      | Next => forOf l' body
      end
  end.

(* ------------------------------------------------------------------ *)
(** ** Helpers of server.js *)

(** [a < b] on numbers. *)
Definition Qltb (a b : Q) : bool := negb (Qle_bool b a).

(** The digits and letters of radix 36. *)
Definition digit36 (d : Z) : ascii :=
  nth (Z.to_nat d) (list_ascii_of_string "0123456789abcdefghijklmnopqrstuvwxyz") "0"%char.

(** Up to [n] radix-36 digits of the fraction [r], none once it is used up. *)
Fixpoint fraction36 (n : nat) (r : Q) : string :=
  match n with
  | O => ""
  | S n' =>
      if Qeq_bool r 0 then ""
      else
        let d := Qfloor (r * 36) in
        String (digit36 d) (fraction36 n' (r * 36 - inject_Z d)%Q)
  end.

(** [generateId] (server.js line 38):
    [Math.random().toString(36).substr(2, 9)], what follows ["0."] in the
    radix-36 text of the draw, nine characters at most. *)
Definition generateId : M string :=
  r <- mathRandom ;; ret (fraction36 9 r).

(** [checkCollision] (line 43): whether two rectangles overlap. *)
Definition checkCollision (rect1 rect2 : Rect.t) : bool :=
  Qltb (Rect.x rect1) (Rect.x rect2 + Rect.width rect2) &&
  Qltb (Rect.x rect2) (Rect.x rect1 + Rect.width rect1) &&
  Qltb (Rect.y rect1) (Rect.y rect2 + Rect.height rect2) &&
  Qltb (Rect.y rect2) (Rect.y rect1 + Rect.height rect1).

(** [spawnPowerUp] (line 60).  The draw of [Math.random()] is below 1, so that
    [types[Math.floor(Math.random() * types.length)]] is one of the five
    entries. *)
Definition spawnPowerUp : M unit :=
  r <- mathRandom ;;
  st <- getStore ;;
  if Qltb r POWER_UP_SPAWN_RATE && (JsMap.size (powerUps st) <? 5)%nat then
    let types := PowerUpType.values in
    r' <- mathRandom ;;
    let powerUpType :=
      nth (Z.to_nat (Qfloor (r' * inject_Z (Z.of_nat (List.length types))))) types SPEED in
    id <- generateId ;;
    rx <- mathRandom ;;
    ry <- mathRandom ;;
    now <- dateNow ;;
    let powerUp :=
      PowerUp.mk id (rx * (GAME_WIDTH - 30))%Q (ry * (GAME_HEIGHT - 30))%Q powerUpType now in
    modifyStore (with_powerUps (JsMap.set (PowerUp.id powerUp) powerUp))
  else ret tt.

(** [createExplosion(x, y, size)] (line 78); every call site passes a size. *)
Definition createExplosion (x y size : Q) : M unit :=
  id <- generateId ;;
  now <- dateNow ;;
  let explosion := Explosion.mk id x y size now EXPLOSION_DURATION in
  modifyStore (with_explosions (JsMap.set (Explosion.id explosion) explosion)).

(** An assignment [player.powerUps.<effect> = v]: a TypeError when the
    object has no [powerUps]. *)
Definition setEffect (key : SocketId) (player : Player.t)
    (f : Effects.t -> Effects.t) : M unit :=
  match Player.powerUps player with
  | None => throwTypeError
  | Some eff => mutatePlayer key (Player.with_powerUps (Some (f eff)))
  end.

(** [applyPowerUp(player, powerUp)] (line 91), for the player object stored
    under [key]. *)
Definition applyPowerUp (key : SocketId) (player : Player.t) (powerUp : PowerUp.t) : M unit :=
  now <- dateNow ;;
  let duration := PowerUpType.duration (PowerUp.kind powerUp) in
  match PowerUp.kind powerUp with
  | SPEED => setEffect key player (Effects.with_speed (now + duration))
  | SHIELD => setEffect key player (Effects.with_shield (now + duration))
  | RAPID_FIRE => setEffect key player (Effects.with_rapidFire (now + duration))
  | HEALTH =>
      mutatePlayer key
        (Player.with_health
           (Js.min (Player.maxHealth player) (Js.add (Player.health player) (Num 50))))
  | DAMAGE => setEffect key player (Effects.with_damage (now + duration))
  end.

(** The [kd] text of a player; [None] is the TypeError of [p.kills.toFixed]
    on an object without [kills]. *)
Definition kdText (p : Player.t) : option KdText :=
  if Js.gt (Player.deaths p) (Num 0) then
    match Player.kills p, Player.deaths p with
    | Num k, Num d => Some (Fixed2 (inject_Z k / inject_Z d)%Q)
    | _, _ => Some NaNText
    end
  else
    match Player.kills p with
    | Undefined => None
    | NaN => Some NaNText
    | Num k => Some (Fixed2 (inject_Z k))
    end.

(** [Array.from(players.values()).map(p => ({ ... }))]; the first object
    the callback throws on ends it. *)
Fixpoint playerStats (ps : list Player.t) : option (list LeaderEntry.t) :=
  match ps with
  | [] => Some []
  | p :: ps' =>
      match kdText p with
      | None => None
      | Some kd =>
          match playerStats ps' with
          | None => None
          | Some es =>
              Some (LeaderEntry.mk (Player.id p) (Player.score p) (Player.kills p)
                                   (Player.deaths p) kd :: es)
          end
      end
  end.

(** Where [a] goes in a list already in order: after the entries with a
    larger score, before the first one that has no larger score. *)
Fixpoint insertByScore (a : LeaderEntry.t) (l : list LeaderEntry.t) : list LeaderEntry.t :=
  match l with
  | [] => [a]
  | b :: l' =>
      if LeaderEntry.score b >? LeaderEntry.score a
      then b :: insertByScore a l'
      else a :: b :: l'
  end.

(** [playerStats.sort((a, b) => b.score - a.score)]: the sort is stable, so
    its result is that of inserting the entries from last to first. *)
Definition sortByScore (l : list LeaderEntry.t) : list LeaderEntry.t :=
  fold_right insertByScore [] l.

(** [updateLeaderboard] (line 114);
    [leaderboard.splice(0, leaderboard.length, ...playerStats.slice(0, 10))]
    replaces the whole content of the array. *)
Definition updateLeaderboard : M unit :=
  st <- getStore ;;
  match playerStats (JsMap.values (players st)) with
  | None => throwTypeError
  | Some stats =>
      let sorted := sortByScore stats in
      modifyStore (with_leaderboard (fun _ => firstn 10 sorted))
  end.

(* ------------------------------------------------------------------ *)
(** ** The connection handler and the listeners it registers *)

(** The text of a count inside a template string. *)
Definition showNat (n : nat) : string := NilEmpty.string_of_uint (Nat.to_uint n).

(** The object literal [player] of the connection handler (lines 152-171),
    from its four draws in source order. *)
Definition newPlayerOnConnect (socketId : SocketId) (rx ry rc rt : Q) : Player.t :=
  Player.mk socketId
            (rx * (GAME_WIDTH - TANK_SIZE))%Q
            (ry * (GAME_HEIGHT - TANK_SIZE))%Q
            0%Q (Num 100) (Num 100) 0 (Num 0) (Num 0)
            (Hsl (rc * 360)%Q)
            (Some Effects.cleared)
            (Num 0)
            (Num (Qfloor (rt * 2)%Q)).

(** The object literal [newPlayer] of the disconnect handler (lines 270-278). *)
Definition newPlayerOnPromotion (nextPlayerId : SocketId) (rx ry rc : Q) : Player.t :=
  Player.mk nextPlayerId
            (rx * (GAME_WIDTH - TANK_SIZE))%Q
            (ry * (GAME_HEIGHT - TANK_SIZE))%Q
            0%Q (Num 100) Undefined 0 Undefined Undefined
            (Hsl (rc * 360)%Q)
            None
            Undefined
            Undefined.

Definition gameFullText (n : nat) : string :=
  ("Game is full! You are spectating. Queue position: " ++ showNat n)%string.

(** The callback of [io.on('connection', ...)] (line 128) for the socket
    [socketId], up to the registration of its listeners. *)
Definition onConnection (socketId : SocketId) : M unit :=
  st <- getStore ;;
  if (MAX_PLAYERS <=? JsMap.size (players st))%nat then
    modifyStore (with_spectators (JsSet.add socketId)) ;;
    st <- getStore ;;
    emit (SocketEmit socketId (gameFull (gameFullText (JsSet.size (spectators st))) true)) ;;
    emit (SocketEmit socketId
            (gameState (JsMap.values (players st)) (JsMap.values (bullets st))
                       None None (GAME_WIDTH, GAME_HEIGHT) true))
  else
    rx <- mathRandom ;;
    ry <- mathRandom ;;
    rc <- mathRandom ;;
    rt <- mathRandom ;;
    let player := newPlayerOnConnect socketId rx ry rc rt in
    modifyStore (with_players (JsMap.set socketId player)) ;;
    st <- getStore ;;
    emit (SocketEmit socketId
            (gameState (JsMap.values (players st)) (JsMap.values (bullets st))
                       (Some (JsMap.values (powerUps st)))
                       (Some (JsMap.values (explosions st)))
                       (GAME_WIDTH, GAME_HEIGHT) false)) ;;
    emit (IoEmit (playerJoined (JsMap.size (players st)))) ;;
    registerListeners socketId.

(** [Math.max(0, Math.min(GAME_WIDTH - TANK_SIZE, v))] and its like for y. *)
Definition clampX (v : Q) : Q := Qmax 0 (Qmin (GAME_WIDTH - TANK_SIZE) v).
Definition clampY (v : Q) : Q := Qmax 0 (Qmin (GAME_HEIGHT - TANK_SIZE) v).

(** The loop [for (const [powerUpId, powerUp] of powerUps.entries())] of the
    ['playerMove'] listener, for the moved [player]. *)
Definition collectPowerUp (socketId : SocketId) (player : Player.t)
    (entries : JsMap.t PowerUp.t) : M unit :=
  forOf entries
    (fun entry =>
       let powerUpId := fst entry in
       let powerUp := snd entry in
       let playerRect := Rect.mk (Player.x player) (Player.y player) TANK_SIZE TANK_SIZE in
       let powerUpRect := Rect.mk (PowerUp.x powerUp) (PowerUp.y powerUp) 30 30 in
       if checkCollision playerRect powerUpRect then
         applyPowerUp socketId player powerUp ;;
         modifyStore (with_powerUps (JsMap.delete powerUpId)) ;;
         emit (SocketEmit socketId
                 (powerUpCollected (PowerUpType.type (PowerUp.kind powerUp))
                                   (PowerUpType.effect (PowerUp.kind powerUp)))) ;;
         ret Break
       else ret Next).

(** The listener of ['playerMove'] of socket [socketId] (line 189). *)
Definition playerMove (socketId : SocketId) (data : MoveData.t) : M unit :=
  found <- getPlayer socketId ;;
  match found with
  | None => ret tt
  | Some player =>
      match Player.powerUps player with
      | None => throwTypeError
      | Some eff =>
          now <- dateNow ;;
          let speedMultiplier : Q := if Effects.speed eff >? now then 2%Q else 1%Q in
          let newX := (Player.x player + MoveData.dx data * TANK_SPEED * speedMultiplier)%Q in
          let newY := (Player.y player + MoveData.dy data * TANK_SPEED * speedMultiplier)%Q in
          let newX := clampX newX in
          let newY := clampY newY in
          let player :=
            Player.with_angle (MoveData.angle data)
              (Player.with_y newY (Player.with_x newX player)) in
          mutatePlayer socketId
            (fun p => Player.with_angle (MoveData.angle data)
                        (Player.with_y newY (Player.with_x newX p))) ;;
          st <- getStore ;;
          collectPowerUp socketId player (powerUps st)
      end
  end.

(** [player.powerUps.rapidFire > now ? 100 : 300] *)
Definition shootCooldown (eff : Effects.t) (now : Z) : Z :=
  if Effects.rapidFire eff >? now then 100 else 300.

(** The listener of ['playerShoot'] of socket [socketId] (line 222). *)
Definition playerShoot (socketId : SocketId) (data : ShootData.t) : M unit :=
  found <- getPlayer socketId ;;
  match found with
  | None => ret tt
  | Some player =>
      now <- dateNow ;;
      match Player.powerUps player with
      | None => throwTypeError
      | Some eff =>
          let shootCooldown := shootCooldown eff now in
          if Js.lt (Js.sub (Num now) (Player.lastShot player)) (Num shootCooldown)
          then ret tt
          else
            mutatePlayer socketId (Player.with_lastShot (Num now)) ;;
            bulletId <- generateId ;;
            c <- mathCos (ShootData.angle data) ;;
            s <- mathSin (ShootData.angle data) ;;
            let bullet :=
              Bullet.mk bulletId socketId
                        (Player.x player + TANK_SIZE / 2)%Q
                        (Player.y player + TANK_SIZE / 2)%Q
                        (c * BULLET_SPEED)%Q
                        (s * BULLET_SPEED)%Q
                        (ShootData.angle data)
                        (if Effects.damage eff >? now then 50 else 25)
                        (if Effects.damage eff >? now then "#e74c3c" else "#f39c12") in
            modifyStore (with_bullets (JsMap.set bulletId bullet))
      end
  end.

(** The listener of ['disconnect'] of socket [socketId] (line 250). *)
Definition onDisconnect (socketId : SocketId) : M unit :=
  st <- getStore ;;
  let wasPlayer := JsMap.has socketId (players st) in
  modifyStore (with_players (JsMap.delete socketId)) ;;
  modifyStore (with_spectators (JsSet.delete socketId)) ;;
  modifyStore
    (with_bullets
       (filter (fun entry => negb (String.eqb (Bullet.playerId (snd entry)) socketId)))) ;;
  st <- getStore ;;
  (if wasPlayer && (0 <? JsSet.size (spectators st))%nat then
     match JsSet.first (spectators st) with
     | None => ret tt
     | Some nextPlayerId =>
         modifyStore (with_spectators (JsSet.delete nextPlayerId)) ;;
         rx <- mathRandom ;;
         ry <- mathRandom ;;
         rc <- mathRandom ;;
         let newPlayer := newPlayerOnPromotion nextPlayerId rx ry rc in
         modifyStore (with_players (JsMap.set nextPlayerId newPlayer)) ;;
         emit (IoToEmit nextPlayerId
                 (promotedToPlayer "You can now play! A spot opened up." false))
     end
   else ret tt) ;;
  st <- getStore ;;
  emit (IoEmit (playerCountUpdate (JsMap.size (players st)) (JsSet.size (spectators st)))).

(* ------------------------------------------------------------------ *)
(** ** The game loop *)

(** The two rectangles of the bullet-player test. *)
Definition bulletRect (bullet : Bullet.t) : Rect.t :=
  Rect.mk (Bullet.x bullet) (Bullet.y bullet) BULLET_SIZE BULLET_SIZE.

Definition playerRect (player : Player.t) : Rect.t :=
  Rect.mk (Player.x player) (Player.y player) TANK_SIZE TANK_SIZE.

(** The body of [if (player.health <= 0) { ... }] (lines 361-389): [player] is
    the victim as the hit left it, stored under [playerId]. *)
Definition playerDied (bullet : Bullet.t) (playerId : SocketId) (player : Player.t) : M unit :=
  shooter <- getPlayer (Bullet.playerId bullet) ;;
  match shooter with
  | Some shooter =>
      let shooter :=
        Player.with_kills (Js.add (Player.kills shooter) (Num 1))
          (Player.with_score (Player.score shooter + 2) shooter) in
      mutatePlayer (Bullet.playerId bullet)
        (fun p => Player.with_kills (Js.add (Player.kills p) (Num 1))
                    (Player.with_score (Player.score p + 2) p)) ;;
      emit (IoEmit (playerKilled (Player.score shooter) (Player.score player)
                                 (Player.color shooter) (Player.color player)))
  | None => ret tt
  end ;;
  mutatePlayer playerId (fun p => Player.with_deaths (Js.add (Player.deaths p) (Num 1)) p) ;;
  createExplosion (Player.x player + TANK_SIZE / 2)%Q (Player.y player + TANK_SIZE / 2)%Q 100 ;;
  rx <- mathRandom ;;
  ry <- mathRandom ;;
  mutatePlayer playerId
    (fun p =>
       Player.with_powerUps (Some Effects.cleared)
         (Player.with_y (ry * (GAME_HEIGHT - TANK_SIZE))%Q
            (Player.with_x (rx * (GAME_WIDTH - TANK_SIZE))%Q
               (Player.with_health (Player.maxHealth p) p)))) ;;
  updateLeaderboard.

(** [bullet.damage || 25] *)
Definition bulletDamage (bullet : Bullet.t) : Z :=
  if Bullet.damage bullet =? 0 then 25 else Bullet.damage bullet.

(** The body of [if (checkCollision(bulletRect, playerRect)) { ... }] (lines
    337-391); both of its branches end in [break]. *)
Definition onBulletHit (bulletId : string) (bullet : Bullet.t)
    (playerId : SocketId) (player : Player.t) : M Flow :=
  match Player.powerUps player with
  | None => throwTypeError
  | Some eff =>
      now <- dateNow ;;
      if Effects.shield eff >? now then
        modifyStore (with_bullets (JsMap.delete bulletId)) ;;
        createExplosion (Bullet.x bullet) (Bullet.y bullet) 30 ;;
        ret Break
      else
        let damage := bulletDamage bullet in
        let player := Player.with_health (Js.sub (Player.health player) (Num damage)) player in
        mutatePlayer playerId
          (fun p => Player.with_health (Js.sub (Player.health p) (Num damage)) p) ;;
        modifyStore (with_bullets (JsMap.delete bulletId)) ;;
        createExplosion (Bullet.x bullet) (Bullet.y bullet) 40 ;;
        emit (IoEmit (playerHit playerId (Bullet.playerId bullet) damage
                                (Bullet.x bullet) (Bullet.y bullet))) ;;
        (if Js.le (Player.health player) (Num 0)
         then playerDied bullet playerId player
         else ret tt) ;;
        ret Break
  end.

(** The inner loop [for (const [playerId, player] of players.entries())]
    (line 331). *)
Definition hitPlayers (bulletId : string) (bullet : Bullet.t)
    (entries : JsMap.t Player.t) : M unit :=
  forOf entries
    (fun entry =>
       let playerId := fst entry in
       let player := snd entry in
       if String.eqb playerId (Bullet.playerId bullet) then ret Next
       else if checkCollision (bulletRect bullet) (playerRect player)
            then onBulletHit bulletId bullet playerId player
            else ret Next).

(** [bullet.x < 0 || bullet.x > GAME_WIDTH || bullet.y < 0 || bullet.y > GAME_HEIGHT] *)
Definition outOfBounds (bullet : Bullet.t) : bool :=
  Qltb (Bullet.x bullet) 0 || Qltb GAME_WIDTH (Bullet.x bullet) ||
  Qltb (Bullet.y bullet) 0 || Qltb GAME_HEIGHT (Bullet.y bullet).

(** A bullet after [bullet.x += bullet.dx; bullet.y += bullet.dy]. *)
Definition advance (bullet : Bullet.t) : Bullet.t :=
  Bullet.with_xy (Bullet.x bullet + Bullet.dx bullet)%Q
                 (Bullet.y bullet + Bullet.dy bullet)%Q bullet.

(** One iteration of [for (const [bulletId, bullet] of bullets.entries())]
    (line 320). *)
Definition updateBullet (entry : string * Bullet.t) : M Flow :=
  let bulletId := fst entry in
  let bullet := advance (snd entry) in
  modifyStore (with_bullets (JsMap.update bulletId advance)) ;;
  if outOfBounds bullet then
    modifyStore (with_bullets (JsMap.delete bulletId)) ;;
    ret Next
  else
    st <- getStore ;;
    hitPlayers bulletId bullet (players st) ;;
    ret Next.

(** The callback of [setInterval] (line 300), one tick. *)
Definition gameLoop : M unit :=
  spawnPowerUp ;;
  now <- dateNow ;;
  modifyStore
    (with_powerUps
       (filter (fun entry => negb (now - PowerUp.spawnTime (snd entry) >? 30000)))) ;;
  modifyStore
    (with_explosions
       (filter (fun entry =>
                  negb (now - Explosion.startTime (snd entry)
                        >? Explosion.duration (snd entry))))) ;;
  st <- getStore ;;
  forOf (bullets st) updateBullet ;;
  st <- getStore ;;
  emit (IoEmit (gameUpdate (JsMap.values (players st)) (JsMap.values (bullets st))
                           (JsMap.values (powerUps st)) (JsMap.values (explosions st))
                           (leaderboard st))).

(* ------------------------------------------------------------------ *)
(** ** What the server reacts to *)

Inductive Event : Type :=
| Connect (socketId : SocketId)
| Move (socketId : SocketId) (data : MoveData.t)
| Shoot (socketId : SocketId) (data : ShootData.t)
| Disconnect (socketId : SocketId)
| Tick.

(** A client event reaches a listener only on a socket that registered it. *)
Definition whenListening (socketId : SocketId) (handler : M unit) : M unit :=
  ls <- getListeners ;;
  if existsb (String.eqb socketId) ls then handler else ret tt.

Definition react (ev : Event) : M unit :=
  match ev with
  | Connect socketId => onConnection socketId
  | Move socketId data => whenListening socketId (playerMove socketId data)
  | Shoot socketId data => whenListening socketId (playerShoot socketId data)
  | Disconnect socketId =>
      whenListening socketId (onDisconnect socketId ;; closeSocket socketId)
  | Tick => gameLoop
  end.

(** The server over a sequence of events; an uncaught exception ends it. *)
Fixpoint serve (evs : list Event) : M unit :=
  match evs with
  | [] => ret tt
  | ev :: evs' => react ev ;; serve evs'
  end.

(* ------------------------------------------------------------------ *)
(** ** Vocabulary of the properties *)

(** [0 <= health && health <= maxHealth], as JS evaluates it. *)
Definition healthInRange (p : Player.t) : bool :=
  Js.le (Num 0) (Player.health p) && Js.le (Player.health p) (Player.maxHealth p).


(** Whoever comes earlier has at least the score of whoever comes later. *)
Definition rankedByScore (l : list LeaderEntry.t) : Prop :=
  forall (i j : nat) (a b : LeaderEntry.t),
    (i < j)%nat -> nth_error l i = Some a -> nth_error l j = Some b ->
    LeaderEntry.score a >= LeaderEntry.score b.

Definition isPlayerHit (e : Emit) : bool :=
  match e with
  | IoEmit (playerHit _ _ _ _ _) => true
  | _ => false
  end.

Definition isPromotion (e : Emit) : bool :=
  match e with
  | IoToEmit _ (promotedToPlayer _ _) => true
  | _ => false
  end.

(** Nothing the program keeps differs between [w] and [w']: the stores, the
    listeners and what was emitted are the same, and no draw was made. *)
Definition untouched (w w' : World) : Prop :=
  store w' = store w /\ outbox w' = outbox w /\
  listeners w' = listeners w /\ randomDraws w' = randomDraws w.

(** The bullet an accepted request makes. *)
Definition firedBullet (env : Env) (w : World) (socketId : SocketId)
    (data : ShootData.t) (player : Player.t) (eff : Effects.t) : Bullet.t :=
  let now := Date_now env (clockReads w) in
  Bullet.mk (fraction36 9 (Math_random env (randomDraws w))) socketId
            (Player.x player + TANK_SIZE / 2)%Q
            (Player.y player + TANK_SIZE / 2)%Q
            (Math_cos env (ShootData.angle data) * BULLET_SPEED)%Q
            (Math_sin env (ShootData.angle data) * BULLET_SPEED)%Q
            (ShootData.angle data)
            (if Effects.damage eff >? now then 50 else 25)
            (if Effects.damage eff >? now then "#e74c3c" else "#f39c12").

(** The player stored under [key] stands at [(px, py)]. *)
Definition standsAt (key : SocketId) (px py : Q) (w : World) : Prop :=
  exists p, JsMap.get key (players (store w)) = Some p /\
            Player.x p = px /\ Player.y p = py.

(** [a] may stand before [b] on the leaderboard. *)
Definition outranks (a b : LeaderEntry.t) : Prop :=
  LeaderEntry.score a >= LeaderEntry.score b.

(** The clock reading that a tick started in [w] binds to its [now]: the
    first one after the spawn step. *)
Definition tickNow (env : Env) (w : World) : Z :=
  Date_now env (clockReads (final (spawnPowerUp env w))).

(** The entries the inner loop passes over: the bullet's owner and the
    players the bullet does not touch. *)
Definition passedOver (bullet : Bullet.t) (entry : SocketId * Player.t) : Prop :=
  String.eqb (fst entry) (Bullet.playerId bullet) = true \/
  checkCollision (bulletRect bullet) (playerRect (snd entry)) = false.

(** How many [playerHit] broadcasts have been emitted. *)
Definition hitCount (w : World) : nat := List.length (filter isPlayerHit (outbox w)).

(** The relation "no [playerHit] broadcast was taken back". *)
Definition hitsKept (w w' : World) : Prop := (hitCount w <= hitCount w')%nat.

(** The relation "a [playerHit] was broadcast, or else the leaderboard is as
    it was". *)
Definition hitOrSameBoard (w w' : World) : Prop :=
  (hitCount w <= hitCount w')%nat /\
  (hitCount w' = hitCount w -> leaderboard (store w') = leaderboard (store w)).

(** A [gameUpdate] broadcast that carries a leaderboard entry whose id is the
    id of none of the players it carries. *)
Definition staleEntry (e : Emit) : bool :=
  match e with
  | IoEmit (gameUpdate ps _ _ _ lb) =>
      existsb
        (fun entry =>
           negb (existsb (fun p => String.eqb (Player.id p) (LeaderEntry.id entry)) ps))
        lb
  | _ => false
  end.

(** How many power-ups are alive. *)
Definition powerUpCount (w : World) : nat := JsMap.size (powerUps (store w)).

(** At most five power-ups are alive. *)
Definition underCap (s : Store) : Prop := (JsMap.size (powerUps s) <= 5)%nat.

(** The relation "no power-up was added". *)
Definition noMorePowerUps (w w' : World) : Prop :=
  (powerUpCount w' <= powerUpCount w)%nat.

(** The leaderboard carried by a [gameUpdate] broadcast. *)
Definition broadcastLeaderboard (e : Emit) : option (list LeaderEntry.t) :=
  match e with
  | IoEmit (gameUpdate _ _ _ _ lb) => Some lb
  | _ => None
  end.

(** The players carried by a [gameUpdate] broadcast. *)
Definition broadcastPlayers (e : Emit) : option (list Player.t) :=
  match e with
  | IoEmit (gameUpdate ps _ _ _ _) => Some ps
  | _ => None
  end.

(** The health of a player object is a number above zero, not above its
    [maxHealth] if it has one; and an object with [powerUps] has a
    [maxHealth]. *)
Definition okPlayer (p : Player.t) : Prop :=
  exists h, Player.health p = Num h /\ 0 < h /\
    (forall m, Player.maxHealth p = Num m -> h <= m) /\
    (Player.powerUps p <> None -> exists m, Player.maxHealth p = Num m).

(** The player ids are distinct, every player is as [okPlayer] says, and no
    bullet has a negative damage. *)
Definition soundStore (s : Store) : Prop :=
  NoDup (JsMap.keys (players s)) /\
  Forall (fun e => okPlayer (snd e)) (players s) /\
  Forall (fun e => 0 <= Bullet.damage (snd e)) (bullets s).

(** The entries stored under [key] carry the health, [maxHealth] and
    [powerUps] of [player]. *)
Definition agreesWith (key : string) (player : Player.t) (s : Store) : Prop :=
  forall e, In e (players s) -> JsMap.keyIs key e = true ->
    Player.health (snd e) = Player.health player /\
    Player.maxHealth (snd e) = Player.maxHealth player /\
    Player.powerUps (snd e) = Player.powerUps player.

(** Between the damage and the reset of a fatal hit: every entry but the
    victim's is as [okPlayer] says, and the victim has a positive [maxHealth]. *)
Definition okExcept (key : string) (e : string * Player.t) : Prop :=
  (JsMap.keyIs key e = false -> okPlayer (snd e)) /\
  (JsMap.keyIs key e = true ->
   exists m, Player.maxHealth (snd e) = Num m /\ 0 < m).

(** A [gameUpdate] broadcast carries only players as [okPlayer] says. *)
Definition okEmit (e : Emit) : Prop :=
  match broadcastPlayers e with
  | Some ps => Forall okPlayer ps
  | None => True
  end.

(** The stores are sound and so is everything broadcast so far. *)
Definition soundWorld (w : World) : Prop :=
  soundStore (store w) /\ Forall okEmit (outbox w).

(** The relation "only messages other than [gameUpdate] were emitted". *)
Definition noSnapshot (w w' : World) : Prop :=
  exists l, outbox w' = outbox w ++ l /\
            Forall (fun e => broadcastPlayers e = None) l.

(** The relation "only messages other than [gameUpdate] were emitted, except
    perhaps, last, the snapshot of the stores as they now are". *)
Definition snapshotLast (w w' : World) : Prop :=
  exists l, Forall (fun e => broadcastPlayers e = None) l /\
    (outbox w' = outbox w ++ l \/
     exists bs pus es lb,
       outbox w' =
         outbox w ++ l ++
           [IoEmit (gameUpdate (JsMap.values (players (store w'))) bs pus es lb)]).

(** What the spec asks of a promotion: the player the join path would have
    made for that id, had it drawn [rt] for the team. *)
Definition specPromotedPlayer (nextPlayerId : SocketId) (rx ry rc rt : Q) : Player.t :=
  newPlayerOnConnect nextPlayerId rx ry rc rt.

(* ------------------------------------------------------------------ *)
(** ** Concrete hosts and runs used below *)

(** A host whose clock advances one second per reading, whose draws are all
    1/2, and whose [Math.cos] / [Math.sin] are only asked at angle 0. *)
Definition steadyHost : Env :=
  {| Date_now := fun n => 1700000000000 + 1000 * Z.of_nat n;
     Math_random := fun _ => (1 # 2)%Q;
     Math_cos := fun _ => 1%Q;
     Math_sin := fun _ => 0%Q |}.

(** A host whose clock advances one millisecond per reading. *)
Definition busyHost : Env :=
  {| Date_now := fun n => 1700000000000 + Z.of_nat n;
     Math_random := fun _ => (1 # 2)%Q;
     Math_cos := fun _ => 1%Q;
     Math_sin := fun _ => 0%Q |}.

(** Eight joins fill the game, a ninth socket is queued, then the first
    player leaves. *)
Definition fullHouse : list Event :=
  [Connect "p1"; Connect "p2"; Connect "p3"; Connect "p4";
   Connect "p5"; Connect "p6"; Connect "p7"; Connect "p8"; Connect "s9"].

Definition promotionRun : list Event := fullHouse ++ [Disconnect "p1"].

(** The server once the first eight sockets have joined. *)
Definition eightPlayers : World :=
  final (serve (firstn 8 fullHouse) steadyHost initialWorld).

(** A single player on a host whose clock moves by the millisecond. *)
Definition loneShooter : World :=
  final (serve [Connect "a"] busyHost initialWorld).

(** The server once the ninth socket is queued as well. *)
Definition nineSockets : World :=
  final (serve fullHouse steadyHost initialWorld).

(** After the promotion, six players step aside, the seventh fires along the
    x axis from where the promoted player stands, and a tick follows. *)
Definition promotedHitRun : list Event :=
  let aside := MoveData.mk 100 0 0 in
  promotionRun ++
  [Move "p2" aside; Move "p3" aside; Move "p4" aside;
   Move "p5" aside; Move "p6" aside; Move "p7" aside;
   Shoot "p8" (ShootData.mk 0); Tick].

(** Two players; the second kills the first with four shots; the first then
    leaves and one more tick is broadcast. *)
Definition staleRun : list Event :=
  let shoot := Shoot "b" (ShootData.mk 0) in
  [Connect "a"; Connect "b";
   shoot; Tick; shoot; Tick; shoot; Tick; shoot; Tick;
   Disconnect "a"; Tick].

(** A player whose shield runs out one millisecond after the clock reading
    that opens the tick, its opponent, and the opponent's bullet about to
    enter the player's box. *)
Definition shieldedPlayer : Player.t :=
  Player.mk "a" 100 100 0 (Num 100) (Num 100) 0 (Num 0) (Num 0) (Hsl 0)
            (Some (Effects.mk 0 1700000000001 0 0)) (Num 0) (Num 0).

Definition opponent : Player.t :=
  Player.mk "b" 600 600 0 (Num 100) (Num 100) 0 (Num 0) (Num 0) (Hsl 0)
            (Some Effects.cleared) (Num 1699999999000) (Num 1).

Definition incomingBullet : Bullet.t :=
  Bullet.mk "k" "b" 90 110 12 0 0 25 "#f39c12".

Definition shieldWorld : World :=
  mkWorld
    (mkStore [("a", shieldedPlayer); ("b", opponent)] [("k", incomingBullet)] [] [] [] [])
    ["a"; "b"] [] 0 0.

(** [m] relates every world it starts in to the world it leaves, whether it
    completes or throws. *)
Definition keeps (R : World -> World -> Prop) {A} (m : M A) : Prop :=
  forall env w, R w (final (m env w)).

(** The relation "[f] reads the same". *)
Definition sameOn {T} (f : Store -> T) (w w' : World) : Prop :=
  f (store w') = f (store w).

(** The relation "[P] is not lost". *)
Definition notLost (P : Store -> Prop) (w w' : World) : Prop :=
  P (store w) -> P (store w').

(* ------------------------------------------------------------------ *)
(** ** Vocabulary and runs of the further properties *)

(** The point [(px, py)] lies strictly inside the rectangle. *)
Definition insideRect (r : Rect.t) (px py : Q) : Prop :=
  (Rect.x r < px /\ px < Rect.x r + Rect.width r)%Q /\
  (Rect.y r < py /\ py < Rect.y r + Rect.height r)%Q.

(** The ids of the seated players, in store order. *)
Definition playerIds (s : Store) : list string := JsMap.keys (players s).

(** No more than [MAX_PLAYERS] players are seated. *)
Definition seatsWithinCap (s : Store) : Prop :=
  (JsMap.size (players s) <= MAX_PLAYERS)%nat.

(** Every bullet in the store belongs to a seated player. *)
Definition ownersSeated (s : Store) : Prop :=
  Forall (fun e => JsMap.has (Bullet.playerId (snd e)) (players s) = true) (bullets s).

(** Every draw of [Math.random()] is in [0, 1). *)
Definition drawsInUnit (env : Env) : Prop :=
  forall n, (0 <= Math_random env n /\ Math_random env n < 1)%Q.


(** The top left corner of a power-up is inside
    [0, GAME_WIDTH - 30] x [0, GAME_HEIGHT - 30]. *)
Definition inField (p : PowerUp.t) : Prop :=
  (0 <= PowerUp.x p /\ PowerUp.x p <= GAME_WIDTH - 30)%Q /\
  (0 <= PowerUp.y p /\ PowerUp.y p <= GAME_HEIGHT - 30)%Q.

Definition allInField (s : Store) : Prop :=
  Forall (fun e => inField (snd e)) (powerUps s).

(** [keeps], on one host. *)
Definition keepsAt (env : Env) (R : World -> World -> Prop) {A} (m : M A) : Prop :=
  forall w, R w (final (m env w)).

(** A host whose draws are all 1/100, so that every tick spawns a power-up
    while fewer than five are alive. *)
Definition luckyHost : Env :=
  {| Date_now := fun n => 1700000000000 + Z.of_nat n;
     Math_random := fun _ => (1 # 100)%Q;
     Math_cos := fun _ => 1%Q;
     Math_sin := fun _ => 0%Q |}.

(** The state in which the tick of [promotedHitRun] starts. *)
Definition beforePromotedHit : World :=
  final (serve (removelast promotedHitRun) steadyHost initialWorld).




(** [shieldWorld] after the shield of ["a"] has run out, with ["a"] down to
    25 health. *)
Definition lastHitWorld : World :=
  mkWorld (with_players (JsMap.update "a" (Player.with_health (Num 25))) (store shieldWorld))
          [] [] 5 0.

(** What a hit can change of a player: health, deaths, position, effects. *)
Definition vitals (p : Player.t) : JsNum * JsNum * Q * Q * option Effects.t :=
  (Player.health p, Player.deaths p, Player.x p, Player.y p, Player.powerUps p).

(** The relation "the player stored under [owner], if any, has the vitals
    it had". *)
Definition ownerSpared (owner : string) (w w' : World) : Prop :=
  option_map vitals (JsMap.get owner (players (store w')))
  = option_map vitals (JsMap.get owner (players (store w))).

(** The leaderboard entry [e] is the one made from the player [p]. *)
Definition entryOf (p : Player.t) (e : LeaderEntry.t) : Prop :=
  LeaderEntry.id e = Player.id p /\
  LeaderEntry.score e = Player.score p /\
  LeaderEntry.kills e = Player.kills p /\
  LeaderEntry.deaths e = Player.deaths p.

(** The expiry that a power-up of kind [k] sets, read off [player.powerUps];
    a health pack sets none. *)
Definition effectExpiry (k : PowerUpType) (e : Effects.t) : option Z :=
  match k with
  | SPEED => Some (Effects.speed e)
  | SHIELD => Some (Effects.shield e)
  | RAPID_FIRE => Some (Effects.rapidFire e)
  | HEALTH => None
  | DAMAGE => Some (Effects.damage e)
  end.

(** The box of a power-up in the pick-up test. *)
Definition powerUpRect (powerUp : PowerUp.t) : Rect.t :=
  Rect.mk (PowerUp.x powerUp) (PowerUp.y powerUp) 30 30.

(** A player at (100, 100) with 80 health whose speed boost is running, and
    two power-ups that overlap it: a shield first, a health pack second. *)
Definition boostedPlayer : Player.t :=
  Player.mk "a" 100 100 0 (Num 80) (Num 100) 0 (Num 0) (Num 0) (Hsl 0)
            (Some (Effects.mk 1700000009000 0 0 0)) (Num 0) (Num 0).

Definition pickUpWorld : World :=
  mkWorld
    (mkStore [("a", boostedPlayer)] [] []
             [("far", PowerUp.mk "far" 500 500 SPEED 1700000000000);
              ("s", PowerUp.mk "s" 110 110 SHIELD 1700000000000);
              ("h", PowerUp.mk "h" 120 120 HEALTH 1700000000000)]
             [] [])
    ["a"] [] 0 0.

(** Two players join and the second hits the first four times, which kills
    it. *)
Definition killRun : list Event := firstn 10 staleRun.

(** Every entity is stored under its own [id]. *)
Definition keyedById (s : Store) : Prop :=
  Forall (fun e => Player.id (snd e) = fst e) (players s) /\
  Forall (fun e => Bullet.id (snd e) = fst e) (bullets s) /\
  Forall (fun e => PowerUp.id (snd e) = fst e) (powerUps s) /\
  Forall (fun e => Explosion.id (snd e) = fst e) (explosions s).

(** The damage of every stored bullet is 25 or 50. *)
Definition knownDamage (s : Store) : Prop :=
  Forall (fun e => Bullet.damage (snd e) = 25 \/ Bullet.damage (snd e) = 50) (bullets s).

(* ================================================================== *)
(** * Properties *)

(** ** Reasoning about what a handler keeps *)

Section Keeps.
Context (R : World -> World -> Prop).
Hypothesis R_refl : forall w, R w w.
Hypothesis R_trans : forall a b c, R a b -> R b c -> R a c.

Lemma keeps_ret {A} (a : A) : keeps R (ret a).
Proof. intros env w. apply R_refl. Qed.

Lemma keeps_throw {A} : keeps R (@throwTypeError A).
Proof. intros env w. apply R_refl. Qed.

Lemma keeps_bind {A B} (m : M A) (k : A -> M B) :
  keeps R m -> (forall a, keeps R (k a)) -> keeps R (bind m k).
Proof.
  intros Hm Hk env w. unfold bind.
  specialize (Hm env w).
  destruct (m env w) as [a w1 | w1]; simpl in *.
  - eapply R_trans; [exact Hm | apply Hk].
  - exact Hm.
Qed.

Lemma keeps_forOf {A} (l : list A) (body : A -> M Flow) :
  (forall a, keeps R (body a)) -> keeps R (forOf l body).
Proof.
  intros Hb. induction l as [| a l IH]; simpl.
  - apply keeps_ret.
  - apply keeps_bind; [apply Hb |].
    intros [|]; [exact IH | apply keeps_ret].
Qed.

(** Steps that leave the stores alone. *)
Hypothesis R_store : forall w w', store w' = store w -> outbox w' = outbox w -> R w w'.

Lemma keeps_dateNow : keeps R dateNow.
Proof. intros env w. apply R_store; reflexivity. Qed.

Lemma keeps_mathRandom : keeps R mathRandom.
Proof. intros env w. apply R_store; reflexivity. Qed.

Lemma keeps_mathCos a : keeps R (mathCos a).
Proof. intros env w. apply R_refl. Qed.

Lemma keeps_mathSin a : keeps R (mathSin a).
Proof. intros env w. apply R_refl. Qed.

Lemma keeps_getStore : keeps R getStore.
Proof. intros env w. apply R_refl. Qed.

Lemma keeps_getListeners : keeps R getListeners.
Proof. intros env w. apply R_refl. Qed.

Lemma keeps_registerListeners s : keeps R (registerListeners s).
Proof. intros env w. apply R_store; reflexivity. Qed.

Lemma keeps_closeSocket s : keeps R (closeSocket s).
Proof. intros env w. apply R_store; reflexivity. Qed.

Lemma keeps_getPlayer k : keeps R (getPlayer k).
Proof. intros env w. apply R_refl. Qed.

Lemma keeps_generateId : keeps R generateId.
Proof.
  unfold generateId. apply keeps_bind; [apply keeps_mathRandom |].
  intros r. apply keeps_ret.
Qed.
End Keeps.

(** Decomposes a handler into its steps; [prim] closes the steps that write
    and the calls of other handlers. *)
Ltac keeps_step Hrefl Htrans Hstore prim :=
  first [ prim |
  lazymatch goal with
  | |- keeps _ (ret _) => apply (keeps_ret _ Hrefl)
  | |- keeps _ throwTypeError => apply (keeps_throw _ Hrefl)
  | |- keeps _ dateNow => apply (keeps_dateNow _ Hstore)
  | |- keeps _ mathRandom => apply (keeps_mathRandom _ Hstore)
  | |- keeps _ (mathCos _) => apply (keeps_mathCos _ Hrefl)
  | |- keeps _ (mathSin _) => apply (keeps_mathSin _ Hrefl)
  | |- keeps _ getStore => apply (keeps_getStore _ Hrefl)
  | |- keeps _ getListeners => apply (keeps_getListeners _ Hrefl)
  | |- keeps _ (getPlayer _) => apply (keeps_getPlayer _ Hrefl)
  | |- keeps _ (registerListeners _) => apply (keeps_registerListeners _ Hstore)
  | |- keeps _ (closeSocket _) => apply (keeps_closeSocket _ Hstore)
  | |- keeps _ generateId => apply (keeps_generateId _ Hrefl Htrans Hstore)
  | |- keeps _ (bind _ _) => apply (keeps_bind _ Htrans); [| intros ?]
  | |- keeps _ (forOf _ _) => apply (keeps_forOf _ Hrefl Htrans); intros ?
  | |- keeps _ (match ?x with _ => _ end) => destruct x
  end ].

Ltac keeps_steps Hrefl Htrans Hstore prim :=
  repeat (cbv beta zeta; keeps_step Hrefl Htrans Hstore prim).

(** ** Writes that leave a store alone *)

Lemma sameOn_refl {T} (f : Store -> T) w : sameOn f w w.
Proof. reflexivity. Qed.

Lemma sameOn_trans {T} (f : Store -> T) a b c :
  sameOn f a b -> sameOn f b c -> sameOn f a c.
Proof. unfold sameOn. congruence. Qed.

Lemma sameOn_store {T} (f : Store -> T) w w' :
  store w' = store w -> outbox w' = outbox w -> sameOn f w w'.
Proof. unfold sameOn. congruence. Qed.

Lemma keeps_emit_sameOn {T} (f : Store -> T) e : keeps (sameOn f) (emit e).
Proof. intros env w. reflexivity. Qed.

Lemma keeps_modifyStore_sameOn {T} (f : Store -> T) g :
  (forall s, f (g s) = f s) -> keeps (sameOn f) (modifyStore g).
Proof. intros H env w. apply H. Qed.

Ltac same_on_writes :=
  idtac;
  lazymatch goal with
  | |- keeps _ (emit _) => apply keeps_emit_sameOn
  | |- keeps _ (modifyStore _) => apply keeps_modifyStore_sameOn; intros; reflexivity
  | |- keeps _ (mutatePlayer _ _) =>
      unfold mutatePlayer; apply keeps_modifyStore_sameOn; intros; reflexivity
  end.

Ltac same_on f :=
  keeps_steps (sameOn_refl f) (sameOn_trans f) (sameOn_store f) same_on_writes.

Lemma createExplosion_keeps_leaderboard x y size :
  keeps (sameOn leaderboard) (createExplosion x y size).
Proof. unfold createExplosion. same_on leaderboard. Qed.

Lemma applyPowerUp_keeps_leaderboard key player powerUp :
  keeps (sameOn leaderboard) (applyPowerUp key player powerUp).
Proof. unfold applyPowerUp, setEffect. same_on leaderboard. Qed.

Lemma onConnection_keeps_leaderboard socketId :
  keeps (sameOn leaderboard) (onConnection socketId).
Proof. unfold onConnection. same_on leaderboard. Qed.

Lemma onDisconnect_keeps_leaderboard socketId :
  keeps (sameOn leaderboard) (onDisconnect socketId).
Proof. unfold onDisconnect. same_on leaderboard. Qed.

Lemma playerMove_keeps_leaderboard socketId data :
  keeps (sameOn leaderboard) (playerMove socketId data).
Proof.
  unfold playerMove, collectPowerUp.
  keeps_steps (sameOn_refl leaderboard) (sameOn_trans leaderboard)
              (sameOn_store leaderboard)
              ltac:(first [ apply applyPowerUp_keeps_leaderboard | same_on_writes ]).
Qed.

Lemma playerShoot_keeps_leaderboard socketId data :
  keeps (sameOn leaderboard) (playerShoot socketId data).
Proof. unfold playerShoot. same_on leaderboard. Qed.

(** ** The cap on power-ups *)

Lemma keeps_weaken (R1 R2 : World -> World -> Prop) {A} (m : M A) :
  (forall w w', R1 w w' -> R2 w w') -> keeps R1 m -> keeps R2 m.
Proof. intros H Hm env w. apply H, Hm. Qed.

Lemma JsMap_set_size {V} k (v : V) m :
  (JsMap.size (JsMap.set k v m) <= S (JsMap.size m))%nat.
Proof.
  unfold JsMap.size. induction m as [| [k' v'] m IH]; simpl.
  - lia.
  - destruct (String.eqb k' k); simpl; lia.
Qed.

Lemma JsMap_delete_size {V} k (m : JsMap.t V) :
  (JsMap.size (JsMap.delete k m) <= JsMap.size m)%nat.
Proof. apply filter_length_le. Qed.

Lemma createExplosion_keeps_powerUps x y size :
  keeps (sameOn powerUps) (createExplosion x y size).
Proof. unfold createExplosion. same_on powerUps. Qed.

Lemma applyPowerUp_keeps_powerUps key player powerUp :
  keeps (sameOn powerUps) (applyPowerUp key player powerUp).
Proof. unfold applyPowerUp, setEffect. same_on powerUps. Qed.

Lemma updateLeaderboard_keeps_powerUps : keeps (sameOn powerUps) updateLeaderboard.
Proof. unfold updateLeaderboard. same_on powerUps. Qed.

Lemma playerDied_keeps_powerUps bullet playerId player :
  keeps (sameOn powerUps) (playerDied bullet playerId player).
Proof.
  unfold playerDied.
  keeps_steps (sameOn_refl powerUps) (sameOn_trans powerUps) (sameOn_store powerUps)
    ltac:(first [ apply createExplosion_keeps_powerUps
                | apply updateLeaderboard_keeps_powerUps
                | same_on_writes ]).
Qed.

Lemma updateBullet_keeps_powerUps entry : keeps (sameOn powerUps) (updateBullet entry).
Proof.
  unfold updateBullet, hitPlayers, onBulletHit.
  keeps_steps (sameOn_refl powerUps) (sameOn_trans powerUps) (sameOn_store powerUps)
    ltac:(first [ apply createExplosion_keeps_powerUps
                | apply playerDied_keeps_powerUps
                | same_on_writes ]).
Qed.

Lemma onConnection_keeps_powerUps socketId : keeps (sameOn powerUps) (onConnection socketId).
Proof. unfold onConnection. same_on powerUps. Qed.

Lemma onDisconnect_keeps_powerUps socketId : keeps (sameOn powerUps) (onDisconnect socketId).
Proof. unfold onDisconnect. same_on powerUps. Qed.

Lemma playerShoot_keeps_powerUps socketId data :
  keeps (sameOn powerUps) (playerShoot socketId data).
Proof. unfold playerShoot. same_on powerUps. Qed.

Lemma noMore_refl w : noMorePowerUps w w.
Proof. unfold noMorePowerUps. lia. Qed.

Lemma noMore_trans a b c : noMorePowerUps a b -> noMorePowerUps b c -> noMorePowerUps a c.
Proof. unfold noMorePowerUps. lia. Qed.

Lemma noMore_store w w' : store w' = store w -> outbox w' = outbox w -> noMorePowerUps w w'.
Proof. unfold noMorePowerUps, powerUpCount. intros -> _. lia. Qed.

Lemma sameOn_powerUps_noMore w w' : sameOn powerUps w w' -> noMorePowerUps w w'.
Proof. unfold sameOn, noMorePowerUps, powerUpCount. intros ->. lia. Qed.

Lemma playerMove_noMore socketId data : keeps noMorePowerUps (playerMove socketId data).
Proof.
  unfold playerMove, collectPowerUp.
  keeps_steps noMore_refl noMore_trans noMore_store
    ltac:(first
      [ apply (keeps_weaken _ _ _ sameOn_powerUps_noMore);
        first [ apply applyPowerUp_keeps_powerUps | same_on_writes ]
      | intros env w; apply JsMap_delete_size ]).
Qed.

Lemma whenListening_keeps R socketId (handler : M unit) :
  (forall w, R w w) -> keeps R handler -> keeps R (whenListening socketId handler).
Proof.
  intros Hrefl H env w. unfold whenListening, bind, getListeners.
  destruct (existsb _ _); [apply H | apply Hrefl].
Qed.

Lemma react_noMore ev : ev <> Tick -> keeps noMorePowerUps (react ev).
Proof.
  destruct ev; simpl; intros Hev; try congruence.
  - apply (keeps_weaken _ _ _ sameOn_powerUps_noMore), onConnection_keeps_powerUps.
  - apply whenListening_keeps; [exact noMore_refl | apply playerMove_noMore].
  - apply whenListening_keeps; [exact noMore_refl |].
    apply (keeps_weaken _ _ _ sameOn_powerUps_noMore), playerShoot_keeps_powerUps.
  - apply whenListening_keeps; [exact noMore_refl |].
    apply (keeps_bind _ noMore_trans).
    + apply (keeps_weaken _ _ _ sameOn_powerUps_noMore), onDisconnect_keeps_powerUps.
    + intros _. apply (keeps_closeSocket _ noMore_store).
Qed.

Lemma underCap_refl w : notLost underCap w w.
Proof. unfold notLost. auto. Qed.

Lemma underCap_trans a b c :
  notLost underCap a b -> notLost underCap b c -> notLost underCap a c.
Proof. unfold notLost. auto. Qed.

Lemma underCap_store w w' :
  store w' = store w -> outbox w' = outbox w -> notLost underCap w w'.
Proof. unfold notLost. intros -> _. auto. Qed.

Lemma noMore_underCap w w' : noMorePowerUps w w' -> notLost underCap w w'.
Proof. unfold noMorePowerUps, notLost, underCap, powerUpCount. lia. Qed.

(** Runs the monad's own steps of a handler applied to a world. *)
Ltac run_steps :=
  cbv beta iota zeta delta
    [bind ret throwTypeError dateNow mathRandom mathCos mathSin getStore
     modifyStore emit registerListeners getListeners getPlayer mutatePlayer
     generateId with_players with_bullets with_spectators with_powerUps
     with_explosions with_leaderboard];
  cbn [final store listeners outbox clockReads randomDraws
       players bullets spectators powerUps explosions leaderboard].

(** The spawn step writes only when it found fewer than five power-ups, and
    then writes one. *)
Lemma spawnPowerUp_spec env w :
  (5 <= powerUpCount w -> store (final (spawnPowerUp env w)) = store w)%nat /\
  (powerUpCount w <= 5 -> powerUpCount (final (spawnPowerUp env w)) <= 5)%nat.
Proof.
  unfold spawnPowerUp, powerUpCount. run_steps.
  destruct (Qltb _ _); cbn [andb].
  2: { run_steps. split; [reflexivity | lia]. }
  destruct (Nat.ltb_spec (JsMap.size (powerUps (store w))) 5) as [Hlt | Hge].
  - run_steps. cbn [with_powerUps powerUps PowerUp.id]. split; [lia |].
    intros _.
    match goal with
    | |- (JsMap.size (JsMap.set ?k ?v ?m) <= 5)%nat =>
        pose proof (JsMap_set_size k v m)
    end.
    lia.
  - run_steps. split; [reflexivity | lia].
Qed.

Lemma spawnPowerUp_underCap : keeps (notLost underCap) spawnPowerUp.
Proof.
  intros env w H. unfold underCap in *.
  apply (proj2 (spawnPowerUp_spec env w)). exact H.
Qed.

Lemma gameLoop_underCap : keeps (notLost underCap) gameLoop.
Proof.
  unfold gameLoop.
  keeps_steps underCap_refl underCap_trans underCap_store
    ltac:(first
      [ apply spawnPowerUp_underCap
      | apply (keeps_weaken _ _ _ noMore_underCap);
        apply (keeps_weaken _ _ _ sameOn_powerUps_noMore);
        first [ apply updateBullet_keeps_powerUps | same_on_writes ]
      | apply (keeps_weaken _ _ _ noMore_underCap);
        intros env w; apply filter_length_le ]).
Qed.

Lemma react_underCap ev : keeps (notLost underCap) (react ev).
Proof.
  destruct ev; try (apply (keeps_weaken _ _ _ noMore_underCap), react_noMore; congruence).
  apply gameLoop_underCap.
Qed.

Lemma serve_underCap evs : keeps (notLost underCap) (serve evs).
Proof.
  induction evs as [| ev evs IH]; simpl.
  - apply (keeps_ret _ underCap_refl).
  - apply (keeps_bind _ underCap_trans); [apply react_underCap | intros _; exact IH].
Qed.

(** C5.  However many events the server has handled since it started, and
    whether or not a handler threw on the way, at most five power-ups are
    alive; an event other than a tick never adds one; and the spawn step of a
    tick leaves the stores as they are once five are alive. *)
Theorem powerUp_cap :
  (forall env evs, (powerUpCount (final (serve evs env initialWorld)) <= 5)%nat) /\
  (forall env w ev, ev <> Tick ->
     (powerUpCount (final (react ev env w)) <= powerUpCount w)%nat) /\
  (forall env w, (5 <= powerUpCount w)%nat ->
     store (final (spawnPowerUp env w)) = store w).
Proof.
  split; [| split].
  - intros env evs. apply (serve_underCap evs env initialWorld).
    unfold underCap. simpl. lia.
  - intros env w ev Hev. exact (react_noMore ev Hev env w).
  - intros env w H. exact (proj1 (spawnPowerUp_spec env w) H).
Qed.

Lemma powerUp_cap_witness :
  (Connect "a" <> Tick /\
   (powerUpCount (final (react (Connect "a") steadyHost initialWorld))
      <= powerUpCount initialWorld)%nat) /\
  ((5 <= powerUpCount (mkWorld (with_powerUps
                                  (fun _ => map (fun k => (k, PowerUp.mk k 0 0 SPEED 0))
                                                ["a"; "b"; "c"; "d"; "e"])
                                  emptyStore) [] [] 0 0))%nat /\
   store (final (spawnPowerUp steadyHost
                   (mkWorld (with_powerUps
                               (fun _ => map (fun k => (k, PowerUp.mk k 0 0 SPEED 0))
                                             ["a"; "b"; "c"; "d"; "e"])
                               emptyStore) [] [] 0 0)))
   = with_powerUps (fun _ => map (fun k => (k, PowerUp.mk k 0 0 SPEED 0))
                                 ["a"; "b"; "c"; "d"; "e"]) emptyStore).
Proof.
  assert (H1 : Connect "a" <> Tick) by discriminate.
  assert (H2 : (5 <= powerUpCount
                       (mkWorld (with_powerUps
                                   (fun _ => map (fun k => (k, PowerUp.mk k 0 0 SPEED 0))
                                                 ["a"; "b"; "c"; "d"; "e"])
                                   emptyStore) [] [] 0 0))%nat)
    by (vm_compute; lia).
  split.
  - split; [exact H1 |].
    exact (proj1 (proj2 powerUp_cap) steadyHost initialWorld (Connect "a") H1).
  - split; [exact H2 |].
    exact (proj2 (proj2 powerUp_cap) steadyHost _ H2).
Defined.

(** ** Facts about the containers *)


Lemma filter_all {A} (f : A -> bool) (l : list A) :
  (forall a, In a l -> f a = true) -> filter f l = l.
Proof.
  induction l as [| a l IH]; simpl; intros H; [reflexivity |].
  rewrite (H a (or_introl eq_refl)), IH; auto.
Qed.

Lemma JsMap_get_delete_same {V} k (m : JsMap.t V) : JsMap.get k (JsMap.delete k m) = None.
Proof.
  unfold JsMap.delete, JsMap.keyIs.
  induction m as [| [k' v] m IH]; simpl; [reflexivity |].
  destruct (String.eqb k' k) eqn:E; simpl; [exact IH | rewrite E; exact IH].
Qed.

Lemma JsMap_get_delete_other {V} k k' (m : JsMap.t V) :
  String.eqb k' k = false -> JsMap.get k (JsMap.delete k' m) = JsMap.get k m.
Proof.
  intros Hne. unfold JsMap.delete, JsMap.keyIs.
  induction m as [| [k1 v] m IH]; simpl; [reflexivity |].
  destruct (String.eqb k1 k') eqn:E; simpl.
  - apply String.eqb_eq in E. subst k1. rewrite Hne. exact IH.
  - destruct (String.eqb k1 k); [reflexivity | exact IH].
Qed.

Lemma JsMap_delete_absent {V} k (m : JsMap.t V) :
  JsMap.get k m = None -> JsMap.delete k m = m.
Proof.
  unfold JsMap.delete, JsMap.keyIs.
  induction m as [| [k' v] m IH]; simpl; [reflexivity |].
  destruct (String.eqb k' k); simpl; [discriminate |].
  intros H. rewrite (IH H). reflexivity.
Qed.

Lemma JsMap_get_set_same {V} k (v : V) m : JsMap.get k (JsMap.set k v m) = Some v.
Proof.
  induction m as [| [k' v'] m IH]; simpl.
  - rewrite String.eqb_refl. reflexivity.
  - destruct (String.eqb k' k) eqn:E; simpl; rewrite E; [reflexivity | exact IH].
Qed.

Lemma JsMap_get_set_other {V} k k' (v : V) m :
  String.eqb k' k = false -> JsMap.get k (JsMap.set k' v m) = JsMap.get k m.
Proof.
  intros Hne. induction m as [| [k1 v1] m IH]; simpl.
  - rewrite Hne. reflexivity.
  - destruct (String.eqb k1 k') eqn:E; simpl.
    + apply String.eqb_eq in E. subst k1. rewrite Hne. reflexivity.
    + destruct (String.eqb k1 k); [reflexivity | exact IH].
Qed.

Lemma JsMap_get_update_same {V} k (f : V -> V) m :
  JsMap.get k (JsMap.update k f m) = option_map f (JsMap.get k m).
Proof.
  unfold JsMap.update, JsMap.keyIs.
  induction m as [| [k' v] m IH]; simpl; [reflexivity |].
  destruct (String.eqb k' k) eqn:E; simpl; rewrite E; [reflexivity | exact IH].
Qed.

Lemma JsMap_get_update_other {V} k k' (f : V -> V) m :
  String.eqb k' k = false -> JsMap.get k (JsMap.update k' f m) = JsMap.get k m.
Proof.
  intros Hne. unfold JsMap.update, JsMap.keyIs.
  induction m as [| [k1 v] m IH]; simpl; [reflexivity |].
  destruct (String.eqb k1 k') eqn:E; simpl.
  - apply String.eqb_eq in E. subst k1. rewrite Hne. exact IH.
  - destruct (String.eqb k1 k); [reflexivity | exact IH].
Qed.

Lemma JsMap_update_size {V} k (f : V -> V) m :
  JsMap.size (JsMap.update k f m) = JsMap.size m.
Proof. apply length_map. Qed.

Lemma JsSet_has_false k s : JsSet.has k s = false <-> ~ In k s.
Proof.
  unfold JsSet.has. split.
  - intros H Hin. assert (existsb (String.eqb k) s = true) as E.
    { apply existsb_exists. exists k. split; [exact Hin | apply String.eqb_refl]. }
    congruence.
  - intros Hn. destruct (existsb (String.eqb k) s) eqn:E; [| reflexivity].
    apply existsb_exists in E. destruct E as [x [Hx Ex]].
    apply String.eqb_eq in Ex. subst x. contradiction.
Qed.

Lemma JsSet_delete_absent k s : ~ In k s -> JsSet.delete k s = s.
Proof.
  intros Hn. unfold JsSet.delete. apply filter_all.
  intros a Ha. destruct (String.eqb a k) eqn:E; [| reflexivity].
  apply String.eqb_eq in E. subst a. contradiction.
Qed.

Lemma JsSet_not_in_delete k s : ~ In k (JsSet.delete k s).
Proof.
  unfold JsSet.delete. intros H. apply filter_In in H. destruct H as [_ H].
  rewrite String.eqb_refl in H. discriminate.
Qed.

Lemma JsSet_in_delete k a s : In k (JsSet.delete a s) -> In k s /\ k <> a.
Proof.
  unfold JsSet.delete. intros H. apply filter_In in H. destruct H as [H1 H2].
  split; [exact H1 |]. intros ->. rewrite String.eqb_refl in H2. discriminate.
Qed.

Lemma JsSet_add_fresh k s : JsSet.has k s = false -> JsSet.add k s = s ++ [k].
Proof. unfold JsSet.add. intros ->. reflexivity. Qed.

(** ** A connection to a full game *)

(** C6.  A socket that connects while eight (or more) players are seated,
    and that is not already queued, gets no player object: the player store
    is left as it is, the id goes to the end of the spectator queue, no
    listener is registered, and the socket alone is sent [gameFull] with the
    queue position "spectators before + 1" followed by a [gameState]
    snapshot flagged [isSpectator]. *)
Theorem full_game_queues_spectator env w socketId :
  (MAX_PLAYERS <= JsMap.size (players (store w)))%nat ->
  JsSet.has socketId (spectators (store w)) = false ->
  exists w',
    onConnection socketId env w = Done tt w' /\
    players (store w') = players (store w) /\
    JsMap.get socketId (players (store w')) = JsMap.get socketId (players (store w)) /\
    spectators (store w') = spectators (store w) ++ [socketId] /\
    listeners w' = listeners w /\
    outbox w' =
      outbox w ++
        [ SocketEmit socketId
            (gameFull (gameFullText (S (JsSet.size (spectators (store w))))) true);
          SocketEmit socketId
            (gameState (JsMap.values (players (store w)))
                       (JsMap.values (bullets (store w)))
                       None None (GAME_WIDTH, GAME_HEIGHT) true) ].
Proof.
  intros Hfull Hfresh.
  unfold onConnection. run_steps.
  apply Nat.leb_le in Hfull. rewrite Hfull. run_steps.
  eexists. split; [reflexivity |].
  cbn [store listeners outbox with_spectators players spectators bullets].
  rewrite (JsSet_add_fresh _ _ Hfresh).
  repeat split.
  rewrite <- app_assoc. cbn [app].
  unfold JsSet.size. rewrite length_app. cbn [List.length].
  rewrite Nat.add_1_r. reflexivity.
Qed.

Lemma full_game_queues_spectator_witness :
  (MAX_PLAYERS <= JsMap.size (players (store eightPlayers)))%nat /\
  JsSet.has "s9" (spectators (store eightPlayers)) = false /\
  exists w',
    onConnection "s9" steadyHost eightPlayers = Done tt w' /\
    players (store w') = players (store eightPlayers) /\
    JsMap.get "s9" (players (store w')) = JsMap.get "s9" (players (store eightPlayers)) /\
    spectators (store w') = spectators (store eightPlayers) ++ ["s9"] /\
    listeners w' = listeners eightPlayers /\
    outbox w' =
      outbox eightPlayers ++
        [ SocketEmit "s9"
            (gameFull (gameFullText (S (JsSet.size (spectators (store eightPlayers))))) true);
          SocketEmit "s9"
            (gameState (JsMap.values (players (store eightPlayers)))
                       (JsMap.values (bullets (store eightPlayers)))
                       None None (GAME_WIDTH, GAME_HEIGHT) true) ].
Proof.
  assert (H1 : (MAX_PLAYERS <= JsMap.size (players (store eightPlayers)))%nat)
    by (vm_compute; lia).
  assert (H2 : JsSet.has "s9" (spectators (store eightPlayers)) = false)
    by (vm_compute; reflexivity).
  split; [exact H1 | split; [exact H2 |]].
  exact (full_game_queues_spectator steadyHost eightPlayers "s9" H1 H2).
Defined.

(** ** Disconnecting *)

(** The disconnect of an id that holds no seat, in full. *)
Lemma onDisconnect_without_seat env w socketId :
  JsMap.has socketId (players (store w)) = false ->
  onDisconnect socketId env w =
    Done tt
      (mkWorld
         (mkStore (players (store w))
                  (filter (fun entry => negb (String.eqb (Bullet.playerId (snd entry)) socketId))
                          (bullets (store w)))
                  (JsSet.delete socketId (spectators (store w)))
                  (powerUps (store w)) (explosions (store w)) (leaderboard (store w)))
         (listeners w)
         (outbox w ++
            [IoEmit (playerCountUpdate
                       (JsMap.size (players (store w)))
                       (JsSet.size (JsSet.delete socketId (spectators (store w)))))])
         (clockReads w) (randomDraws w)).
Proof.
  intros Hno. unfold onDisconnect. run_steps.
  rewrite Hno. cbn [andb]. run_steps.
  cbn [with_players with_spectators with_bullets players bullets spectators
       powerUps explosions leaderboard].
  unfold JsMap.has in Hno.
  destruct (JsMap.get socketId (players (store w))) eqn:E; [discriminate |].
  rewrite (JsMap_delete_absent _ _ E). reflexivity.
Qed.

(** What a first disconnect of [socketId] leaves: no seat, no queue entry
    and no bullet for that id. *)
Lemma onDisconnect_removes env w socketId :
  exists w1,
    onDisconnect socketId env w = Done tt w1 /\
    JsMap.has socketId (players (store w1)) = false /\
    ~ In socketId (spectators (store w1)) /\
    (forall entry, In entry (bullets (store w1)) ->
       String.eqb (Bullet.playerId (snd entry)) socketId = false).
Proof.
  unfold onDisconnect. run_steps.
  cbn [with_players with_spectators with_bullets players bullets spectators
       powerUps explosions leaderboard].
  assert (Hb : forall entry,
             In entry (filter (fun entry => negb (String.eqb (Bullet.playerId (snd entry)) socketId))
                              (bullets (store w))) ->
             String.eqb (Bullet.playerId (snd entry)) socketId = false).
  { intros entry H. apply filter_In in H. destruct H as [_ H].
    apply negb_true_iff in H. exact H. }
  destruct (JsMap.has socketId (players (store w)) &&
            (0 <? JsSet.size (JsSet.delete socketId (spectators (store w))))%nat) eqn:Hp.
  - destruct (JsSet.first (JsSet.delete socketId (spectators (store w)))) as [next |] eqn:Hf.
    + run_steps.
      cbn [with_players with_spectators with_bullets players bullets spectators
           powerUps explosions leaderboard].
      eexists. split; [reflexivity |].
      cbn [store players spectators bullets].
      assert (Hin : In next (JsSet.delete socketId (spectators (store w)))).
      { unfold JsSet.first in Hf.
        destruct (JsSet.delete socketId (spectators (store w))); [discriminate |].
        simpl in Hf. injection Hf as ->. left. reflexivity. }
      apply JsSet_in_delete in Hin. destruct Hin as [_ Hne].
      assert (Hneb : String.eqb next socketId = false) by (apply String.eqb_neq; exact Hne).
      split; [| split; [| exact Hb]].
      * unfold JsMap.has.
        rewrite (JsMap_get_set_other _ _ _ _ Hneb), JsMap_get_delete_same. reflexivity.
      * intros Hin. apply JsSet_in_delete in Hin. destruct Hin as [Hin _].
        exact (JsSet_not_in_delete _ _ Hin).
    + run_steps. eexists. split; [reflexivity |].
      cbn [store players spectators bullets].
      split; [| split; [apply JsSet_not_in_delete | exact Hb]].
      unfold JsMap.has. rewrite JsMap_get_delete_same. reflexivity.
  - run_steps. eexists. split; [reflexivity |].
    cbn [store players spectators bullets].
    split; [| split; [apply JsSet_not_in_delete | exact Hb]].
    unfold JsMap.has. rewrite JsMap_get_delete_same. reflexivity.
Qed.

(** C8.  The disconnect listener always completes.  Run a second time for
    the same id, it completes again, leaves every store, the listeners and
    the random draws exactly as the first run left them, and emits nothing
    but the [playerCountUpdate] broadcast, hence no promotion.  Run for any
    id that holds no seat, it leaves the player store as it is, removes only
    that id from the queue and only that id's bullets, and emits nothing but
    the [playerCountUpdate] broadcast. *)
Theorem disconnect_idempotent :
  (forall env w socketId,
     exists w1 w2,
       onDisconnect socketId env w = Done tt w1 /\
       onDisconnect socketId env w1 = Done tt w2 /\
       store w2 = store w1 /\
       listeners w2 = listeners w1 /\
       randomDraws w2 = randomDraws w1 /\
       outbox w2 =
         outbox w1 ++
           [IoEmit (playerCountUpdate (JsMap.size (players (store w1)))
                                      (JsSet.size (spectators (store w1))))]) /\
  (forall env w socketId,
     JsMap.has socketId (players (store w)) = false ->
     exists w1,
       onDisconnect socketId env w = Done tt w1 /\
       players (store w1) = players (store w) /\
       spectators (store w1) = JsSet.delete socketId (spectators (store w)) /\
       bullets (store w1) =
         filter (fun entry => negb (String.eqb (Bullet.playerId (snd entry)) socketId))
                (bullets (store w)) /\
       outbox w1 =
         outbox w ++
           [IoEmit (playerCountUpdate (JsMap.size (players (store w1)))
                                      (JsSet.size (spectators (store w1))))]).
Proof.
  split.
  - intros env w socketId.
    destruct (onDisconnect_removes env w socketId) as [w1 [H1 [Hp [Hs Hb]]]].
    exists w1. eexists. split; [exact H1 |].
    split; [apply (onDisconnect_without_seat env w1 socketId Hp) |].
    cbn [store listeners randomDraws outbox].
    rewrite (JsSet_delete_absent _ _ Hs).
    rewrite (filter_all _ _ (fun entry H => f_equal negb (Hb entry H))).
    destruct w1 as [[ps bs ss pus es lb] ls ob cr rd]. cbn. repeat split.
  - intros env w socketId Hno. eexists.
    split; [apply (onDisconnect_without_seat env w socketId Hno) |].
    cbn [store players spectators bullets outbox]. repeat split.
Qed.

Lemma disconnect_idempotent_witness :
  JsMap.has "p1" (players (store (final (onDisconnect "p1" steadyHost nineSockets)))) = false /\
  exists w1,
    onDisconnect "p1" steadyHost (final (onDisconnect "p1" steadyHost nineSockets)) = Done tt w1 /\
    players (store w1) = players (store (final (onDisconnect "p1" steadyHost nineSockets))) /\
    spectators (store w1) =
      JsSet.delete "p1" (spectators (store (final (onDisconnect "p1" steadyHost nineSockets)))) /\
    bullets (store w1) =
      filter (fun entry => negb (String.eqb (Bullet.playerId (snd entry)) "p1"))
             (bullets (store (final (onDisconnect "p1" steadyHost nineSockets)))) /\
    outbox w1 =
      outbox (final (onDisconnect "p1" steadyHost nineSockets)) ++
        [IoEmit (playerCountUpdate (JsMap.size (players (store w1)))
                                   (JsSet.size (spectators (store w1))))].
Proof.
  assert (H : JsMap.has "p1"
                (players (store (final (onDisconnect "p1" steadyHost nineSockets)))) = false)
    by (vm_compute; reflexivity).
  split; [exact H |].
  exact (proj2 disconnect_idempotent steadyHost
           (final (onDisconnect "p1" steadyHost nineSockets)) "p1" H).
Defined.

(** ** The shooting cooldown *)

Lemma playerShoot_dropped env w socketId data player eff :
  JsMap.get socketId (players (store w)) = Some player ->
  Player.powerUps player = Some eff ->
  Js.lt (Js.sub (Num (Date_now env (clockReads w))) (Player.lastShot player))
        (Num (shootCooldown eff (Date_now env (clockReads w)))) = true ->
  playerShoot socketId data env w =
    Done tt (mkWorld (store w) (listeners w) (outbox w) (S (clockReads w)) (randomDraws w)).
Proof.
  intros Hget Heff Hlt. unfold playerShoot. run_steps.
  rewrite Hget, Heff, Hlt. reflexivity.
Qed.

Lemma playerShoot_fired env w socketId data player eff :
  JsMap.get socketId (players (store w)) = Some player ->
  Player.powerUps player = Some eff ->
  Js.lt (Js.sub (Num (Date_now env (clockReads w))) (Player.lastShot player))
        (Num (shootCooldown eff (Date_now env (clockReads w)))) = false ->
  playerShoot socketId data env w =
    Done tt
      (mkWorld
         (mkStore
            (JsMap.update socketId
               (Player.with_lastShot (Num (Date_now env (clockReads w))))
               (players (store w)))
            (JsMap.set (fraction36 9 (Math_random env (randomDraws w)))
               (firedBullet env w socketId data player eff) (bullets (store w)))
            (spectators (store w)) (powerUps (store w)) (explosions (store w))
            (leaderboard (store w)))
         (listeners w) (outbox w) (S (clockReads w)) (S (randomDraws w))).
Proof.
  intros Hget Heff Hlt. unfold playerShoot. run_steps.
  rewrite Hget, Heff, Hlt. run_steps. reflexivity.
Qed.

(** C4.  A [playerShoot] request of a player whose last accepted shot was
    stamped [t1], read off the clock at [t2] with [t2 - t1] below the
    cooldown then in force (100 ms under rapid fire, else 300 ms), completes
    and leaves the stores, the listeners, the emitted messages and the random
    draws untouched.  In particular, of two consecutive requests of a player
    that close together, both complete, one of them leaves everything
    untouched, and together they add at most one bullet. *)
Theorem shoot_cooldown :
  (forall env w socketId data player eff t1,
     JsMap.get socketId (players (store w)) = Some player ->
     Player.powerUps player = Some eff ->
     Player.lastShot player = Num t1 ->
     Date_now env (clockReads w) - t1 < shootCooldown eff (Date_now env (clockReads w)) ->
     exists w',
       playerShoot socketId data env w = Done tt w' /\
       untouched w w' /\
       bullets (store w') = bullets (store w)) /\
  (forall env w socketId d1 d2 player eff,
     JsMap.get socketId (players (store w)) = Some player ->
     Player.powerUps player = Some eff ->
     Date_now env (S (clockReads w)) - Date_now env (clockReads w)
       < shootCooldown eff (Date_now env (S (clockReads w))) ->
     exists w1 w2,
       playerShoot socketId d1 env w = Done tt w1 /\
       playerShoot socketId d2 env w1 = Done tt w2 /\
       (untouched w w1 \/ untouched w1 w2) /\
       (JsMap.size (bullets (store w2)) <= S (JsMap.size (bullets (store w))))%nat).
Proof.
  split.
  { intros env w socketId data player eff t1 Hget Heff Hlast Hcool.
    eexists. split.
    - apply (playerShoot_dropped env w socketId data player eff Hget Heff).
      rewrite Hlast. cbn [Js.sub Js.lt]. apply Z.ltb_lt. exact Hcool.
    - split; [repeat split | reflexivity]. }
  intros env w socketId d1 d2 player eff Hget Heff Hcool.
  destruct (Js.lt (Js.sub (Num (Date_now env (clockReads w))) (Player.lastShot player))
                  (Num (shootCooldown eff (Date_now env (clockReads w))))) eqn:Hfirst.
  - (* the first request is dropped *)
    pose proof (playerShoot_dropped env w socketId d1 player eff Hget Heff Hfirst) as H1.
    set (w1 := mkWorld (store w) (listeners w) (outbox w) (S (clockReads w)) (randomDraws w)) in *.
    exists w1.
    destruct (Js.lt (Js.sub (Num (Date_now env (clockReads w1))) (Player.lastShot player))
                    (Num (shootCooldown eff (Date_now env (clockReads w1))))) eqn:Hsecond.
    + eexists. split; [exact H1 |].
      split; [exact (playerShoot_dropped env w1 socketId d2 player eff Hget Heff Hsecond) |].
      split; [left; repeat split | cbn; lia].
    + eexists. split; [exact H1 |].
      split; [exact (playerShoot_fired env w1 socketId d2 player eff Hget Heff Hsecond) |].
      split; [left; repeat split |].
      cbn [store bullets w1]. apply JsMap_set_size.
  - (* the first request fires; the second falls inside the cooldown *)
    pose proof (playerShoot_fired env w socketId d1 player eff Hget Heff Hfirst) as H1.
    match type of H1 with _ = Done tt ?x => set (w1 := x) in * end.
    exists w1.
    assert (Hget1 : JsMap.get socketId (players (store w1)) =
                    Some (Player.with_lastShot (Num (Date_now env (clockReads w))) player)).
    { cbn [w1 store players]. rewrite JsMap_get_update_same, Hget. reflexivity. }
    assert (Hsecond :
      Js.lt (Js.sub (Num (Date_now env (clockReads w1)))
                    (Player.lastShot
                       (Player.with_lastShot (Num (Date_now env (clockReads w))) player)))
            (Num (shootCooldown eff (Date_now env (clockReads w1)))) = true).
    { cbn [w1 clockReads Player.with_lastShot Player.lastShot Js.sub Js.lt].
      apply Z.ltb_lt. exact Hcool. }
    eexists. split; [exact H1 |].
    split; [exact (playerShoot_dropped env w1 socketId d2 _ eff Hget1 Heff Hsecond) |].
    split; [right; repeat split |].
    cbn [store bullets w1]. apply JsMap_set_size.
Qed.

Lemma shoot_cooldown_witness :
  (JsMap.get "a" (players (store loneShooter)) =
     Some (newPlayerOnConnect "a" (1 # 2) (1 # 2) (1 # 2) (1 # 2)) /\
   Date_now busyHost (S (clockReads loneShooter)) - Date_now busyHost (clockReads loneShooter)
     < shootCooldown Effects.cleared (Date_now busyHost (S (clockReads loneShooter))) /\
   exists w1 w2,
     playerShoot "a" (ShootData.mk 0) busyHost loneShooter = Done tt w1 /\
     playerShoot "a" (ShootData.mk 0) busyHost w1 = Done tt w2 /\
     (untouched loneShooter w1 \/ untouched w1 w2) /\
     (JsMap.size (bullets (store w2)) <= S (JsMap.size (bullets (store loneShooter))))%nat) /\
  (JsMap.get "b" (players (store shieldWorld)) = Some opponent /\
   Date_now busyHost (clockReads shieldWorld) - 1699999999900
     < shootCooldown Effects.cleared (Date_now busyHost (clockReads shieldWorld)) /\
   exists w',
     playerShoot "b" (ShootData.mk 0) busyHost
       (mkWorld (with_players (JsMap.update "b" (Player.with_lastShot (Num 1699999999900)))
                              (store shieldWorld))
                (listeners shieldWorld) (outbox shieldWorld)
                (clockReads shieldWorld) (randomDraws shieldWorld)) = Done tt w' /\
     untouched
       (mkWorld (with_players (JsMap.update "b" (Player.with_lastShot (Num 1699999999900)))
                              (store shieldWorld))
                (listeners shieldWorld) (outbox shieldWorld)
                (clockReads shieldWorld) (randomDraws shieldWorld)) w' /\
     bullets (store w') = bullets (store shieldWorld)).
Proof.
  assert (H1 : JsMap.get "a" (players (store loneShooter)) =
               Some (newPlayerOnConnect "a" (1 # 2) (1 # 2) (1 # 2) (1 # 2)))
    by (vm_compute; reflexivity).
  assert (H2 : Date_now busyHost (S (clockReads loneShooter))
               - Date_now busyHost (clockReads loneShooter)
               < shootCooldown Effects.cleared (Date_now busyHost (S (clockReads loneShooter))))
    by (vm_compute; reflexivity).
  assert (H3 : Date_now busyHost (clockReads shieldWorld) - 1699999999900
               < shootCooldown Effects.cleared (Date_now busyHost (clockReads shieldWorld)))
    by (vm_compute; reflexivity).
  split.
  - split; [exact H1 | split; [exact H2 |]].
    exact (proj2 shoot_cooldown busyHost loneShooter "a" (ShootData.mk 0) (ShootData.mk 0)
             (newPlayerOnConnect "a" (1 # 2) (1 # 2) (1 # 2) (1 # 2)) Effects.cleared
             H1 eq_refl H2).
  - split; [reflexivity | split; [exact H3 |]].
    exact (proj1 shoot_cooldown busyHost
             (mkWorld (with_players (JsMap.update "b" (Player.with_lastShot (Num 1699999999900)))
                                    (store shieldWorld))
                      (listeners shieldWorld) (outbox shieldWorld)
                      (clockReads shieldWorld) (randomDraws shieldWorld))
             "b" (ShootData.mk 0)
             (Player.with_lastShot (Num 1699999999900) opponent) Effects.cleared
             1699999999900 eq_refl eq_refl eq_refl H3).
Defined.

(** ** Moving *)



Lemma mutatePlayer_standsAt env w key px py f :
  (forall p, Player.x (f p) = Player.x p /\ Player.y (f p) = Player.y p) ->
  standsAt key px py w ->
  exists w', mutatePlayer key f env w = Done tt w' /\ standsAt key px py w'.
Proof.
  intros Hf [p [Hget [Hx Hy]]]. run_steps. eexists. split; [reflexivity |].
  exists (f p). cbn [store players].
  rewrite JsMap_get_update_same, Hget. split; [reflexivity |].
  destruct (Hf p) as [Hfx Hfy]. rewrite Hfx, Hfy. auto.
Qed.

Lemma applyPowerUp_standsAt env w key px py player powerUp eff :
  Player.powerUps player = Some eff ->
  standsAt key px py w ->
  exists w', applyPowerUp key player powerUp env w = Done tt w' /\ standsAt key px py w'.
Proof.
  intros Heff Hat. unfold applyPowerUp, setEffect. rewrite Heff.
  unfold bind at 1. unfold dateNow at 1.
  assert (Hat' : standsAt key px py
                   (mkWorld (store w) (listeners w) (outbox w) (S (clockReads w)) (randomDraws w)))
    by exact Hat.
  destruct (PowerUp.kind powerUp);
    (apply mutatePlayer_standsAt; [intros p; split; reflexivity | exact Hat']).
Qed.

Lemma collectPowerUp_standsAt env key px py player eff (entries : JsMap.t PowerUp.t) :
  Player.powerUps player = Some eff ->
  forall w, standsAt key px py w ->
  exists w',
    collectPowerUp key player entries env w = Done tt w' /\ standsAt key px py w'.
Proof.
  intros Heff. unfold collectPowerUp.
  induction entries as [| entry entries IH]; intros w Hat.
  - exists w. split; [reflexivity | exact Hat].
  - cbn [forOf]. cbv zeta. unfold bind at 1.
    destruct (checkCollision _ _).
    + destruct (applyPowerUp_standsAt env w key px py player (snd entry) eff Heff Hat)
        as [w1 [H1 Hat1]].
      unfold bind at 1. rewrite H1. run_steps.
      eexists. split; [reflexivity |]. exact Hat1.
    + unfold ret at 1. apply IH. exact Hat.
Qed.




(** ** The leaderboard *)

Lemma insertByScore_Forall (P : LeaderEntry.t -> Prop) a l :
  P a -> Forall P l -> Forall P (insertByScore a l).
Proof.
  intros Ha Hl. induction Hl as [| b l Hb Hl IH]; simpl.
  - constructor; [exact Ha | constructor].
  - destruct (LeaderEntry.score b >? LeaderEntry.score a).
    + constructor; [exact Hb | exact IH].
    + constructor; [exact Ha |]. constructor; [exact Hb | exact Hl].
Qed.

Lemma insertByScore_sorted a l :
  StronglySorted outranks l -> StronglySorted outranks (insertByScore a l).
Proof.
  intros Hs. induction Hs as [| b l Hs IH Hb]; simpl.
  - constructor; [constructor | constructor].
  - destruct (Z.gtb_spec (LeaderEntry.score b) (LeaderEntry.score a)) as [Hgt | Hle].
    + constructor; [exact IH |].
      apply insertByScore_Forall; [unfold outranks; lia | exact Hb].
    + constructor; [constructor; [exact Hs | exact Hb] |].
      constructor; [unfold outranks; lia |].
      eapply Forall_impl; [| exact Hb].
      unfold outranks. intros c Hc. lia.
Qed.

Lemma sortByScore_sorted l : StronglySorted outranks (sortByScore l).
Proof.
  unfold sortByScore. induction l as [| a l IH]; simpl.
  - constructor.
  - apply insertByScore_sorted. exact IH.
Qed.

Lemma in_firstn {A} n (l : list A) x : In x (firstn n l) -> In x l.
Proof.
  revert n. induction l as [| a l IH]; intros [| n]; simpl; try tauto.
  intros [H | H]; [left; exact H | right; exact (IH n H)].
Qed.

Lemma firstn_sorted n l :
  StronglySorted outranks l -> StronglySorted outranks (firstn n l).
Proof.
  intros Hs. revert n. induction Hs as [| a l Hs IH Ha]; intros [| n]; simpl;
    try constructor.
  - apply IH.
  - rewrite Forall_forall in *. intros x Hx. apply Ha.
    eapply in_firstn; exact Hx.
Qed.

Lemma sorted_ranked l : StronglySorted outranks l -> rankedByScore l.
Proof.
  intros Hs. induction Hs as [| a l Hs IH Ha]; intros i j x y Hij Hi Hj.
  - destruct i; discriminate.
  - destruct j as [| j]; [lia |]. simpl in Hj.
    destruct i as [| i]; simpl in Hi.
    + injection Hi as <-. rewrite Forall_forall in Ha.
      apply Ha. eapply nth_error_In. exact Hj.
    + apply (IH i j x y); [lia | exact Hi | exact Hj].
Qed.

Lemma playerStats_some ps :
  (forall p, In p ps -> Player.kills p <> Undefined) ->
  exists stats, playerStats ps = Some stats.
Proof.
  induction ps as [| p ps IH]; intros H; simpl.
  - eexists. reflexivity.
  - assert (Hk : exists kd, kdText p = Some kd).
    { unfold kdText. destruct (Js.gt _ _).
      - destruct (Player.kills p); destruct (Player.deaths p); eexists; reflexivity.
      - pose proof (H p (or_introl eq_refl)) as Hp.
        destruct (Player.kills p); [congruence | |]; eexists; reflexivity. }
    destruct Hk as [kd ->].
    destruct IH as [stats ->]; [intros q Hq; apply H; right; exact Hq |].
    eexists. reflexivity.
Qed.

(** C7.  Whenever [updateLeaderboard] completes, the leaderboard it leaves
    has at most ten entries and is in non-increasing order of score: of two
    entries, the one that comes first has a score no smaller than the
    other's.  And it does complete whenever every stored player has a
    [kills] field. *)
Theorem leaderboard_ranked :
  (forall env w w',
     updateLeaderboard env w = Done tt w' ->
     (List.length (leaderboard (store w')) <= 10)%nat /\
     rankedByScore (leaderboard (store w'))) /\
  (forall env w,
     (forall p, In p (JsMap.values (players (store w))) -> Player.kills p <> Undefined) ->
     exists w', updateLeaderboard env w = Done tt w').
Proof.
  split.
  - intros env w w'. unfold updateLeaderboard, bind, getStore.
    destruct (playerStats (JsMap.values (players (store w)))) as [stats |];
      [| discriminate].
    unfold modifyStore, with_leaderboard.
    intros H. injection H as <-.
    change (leaderboard (store _)) with (firstn 10 (sortByScore stats)). split.
    + apply firstn_le_length.
    + apply sorted_ranked, firstn_sorted, sortByScore_sorted.
  - intros env w H. unfold updateLeaderboard, bind, getStore.
    destruct (playerStats_some _ H) as [stats ->]. eexists. reflexivity.
Qed.

Lemma leaderboard_ranked_witness :
  updateLeaderboard steadyHost eightPlayers
    = Done tt (final (updateLeaderboard steadyHost eightPlayers)) /\
  ((List.length (leaderboard (store (final (updateLeaderboard steadyHost eightPlayers))))
     <= 10)%nat /\
   rankedByScore (leaderboard (store (final (updateLeaderboard steadyHost eightPlayers))))) /\
  (exists w', updateLeaderboard steadyHost eightPlayers = Done tt w').
Proof.
  assert (H : updateLeaderboard steadyHost eightPlayers
              = Done tt (final (updateLeaderboard steadyHost eightPlayers)))
    by (vm_compute; reflexivity).
  split; [exact H |]. split.
  - exact (proj1 leaderboard_ranked steadyHost eightPlayers _ H).
  - apply (proj2 leaderboard_ranked steadyHost eightPlayers).
    assert (Hall : forallb (fun p => match Player.kills p with
                                   | Undefined => false
                                   | _ => true
                                   end)
                           (JsMap.values (players (store eightPlayers))) = true)
      by (vm_compute; reflexivity).
    intros p Hp Hk.
    rewrite forallb_forall in Hall. specialize (Hall p Hp).
    rewrite Hk in Hall. discriminate Hall.
Defined.

(** ** A bullet on a shielded player *)

Lemma hitPlayers_passes bulletId bullet before rest env w :
  (forall entry, In entry before -> passedOver bullet entry) ->
  hitPlayers bulletId bullet (before ++ rest) env w =
  hitPlayers bulletId bullet rest env w.
Proof.
  unfold hitPlayers. induction before as [| entry before IH]; intros H.
  - reflexivity.
  - cbn [app forOf]. cbv zeta. unfold bind at 1.
    destruct (H entry (or_introl eq_refl)) as [Howner | Hmiss].
    + rewrite Howner. unfold ret at 1.
      apply IH. intros e He. apply H. right. exact He.
    + destruct (String.eqb (fst entry) (Bullet.playerId bullet)).
      * unfold ret at 1. apply IH. intros e He. apply H. right. exact He.
      * rewrite Hmiss. unfold ret at 1.
        apply IH. intros e He. apply H. right. exact He.
Qed.

(** The shield branch, in full: what the loop leaves when the first entry is
    a shielded player the bullet overlaps. *)
Lemma hitPlayers_shield bulletId bullet playerId player rest eff env w :
  String.eqb playerId (Bullet.playerId bullet) = false ->
  checkCollision (bulletRect bullet) (playerRect player) = true ->
  Player.powerUps player = Some eff ->
  Effects.shield eff > Date_now env (clockReads w) ->
  hitPlayers bulletId bullet ((playerId, player) :: rest) env w =
    Done tt
      (mkWorld
         (mkStore (players (store w))
                  (JsMap.delete bulletId (bullets (store w)))
                  (spectators (store w)) (powerUps (store w))
                  (JsMap.set (fraction36 9 (Math_random env (randomDraws w)))
                     (Explosion.mk (fraction36 9 (Math_random env (randomDraws w)))
                        (Bullet.x bullet) (Bullet.y bullet) 30
                        (Date_now env (S (clockReads w))) EXPLOSION_DURATION)
                     (explosions (store w)))
                  (leaderboard (store w)))
         (listeners w) (outbox w) (S (S (clockReads w))) (S (randomDraws w))).
Proof.
  intros Hother Hhit Heff Hshield.
  unfold hitPlayers. cbn [forOf fst snd]. cbv zeta. rewrite Hother, Hhit.
  unfold onBulletHit. rewrite Heff. unfold createExplosion. run_steps.
  apply Z.gt_lt, Z.gtb_lt in Hshield. rewrite Hshield. run_steps.
  reflexivity.
Qed.

(** C3, as the code has it.  Take a bullet and the players in store order:
    first entries the loop passes over, then a player who is not the
    bullet's owner, whose box the bullet overlaps, and whose shield expiry is
    strictly greater than the value [Date.now()] returns when that collision
    is examined.  The loop completes; the player store, hence that player's
    health, is as before; nothing is emitted; the bullet is gone from the
    bullet store; and the outcome is the one the loop has when the entries
    after that player are cut off, so no later player is looked at. *)
Theorem shield_absorbs env w bulletId bullet before playerId player after eff :
  players (store w) = before ++ (playerId, player) :: after ->
  (forall entry, In entry before -> passedOver bullet entry) ->
  String.eqb playerId (Bullet.playerId bullet) = false ->
  checkCollision (bulletRect bullet) (playerRect player) = true ->
  Player.powerUps player = Some eff ->
  Effects.shield eff > Date_now env (clockReads w) ->
  exists w',
    hitPlayers bulletId bullet (players (store w)) env w = Done tt w' /\
    players (store w') = players (store w) /\
    JsMap.get playerId (players (store w')) = JsMap.get playerId (players (store w)) /\
    outbox w' = outbox w /\
    bullets (store w') = JsMap.delete bulletId (bullets (store w)) /\
    JsMap.get bulletId (bullets (store w')) = None /\
    hitPlayers bulletId bullet (before ++ [(playerId, player)]) env w = Done tt w'.
Proof.
  intros Hps Hbefore Hother Hhit Heff Hshield.
  pose proof (hitPlayers_shield bulletId bullet playerId player after eff env w
                Hother Hhit Heff Hshield) as Hfull.
  pose proof (hitPlayers_shield bulletId bullet playerId player [] eff env w
                Hother Hhit Heff Hshield) as Hcut.
  rewrite <- (hitPlayers_passes _ _ before _ _ _ Hbefore) in Hfull.
  rewrite <- (hitPlayers_passes _ _ before _ _ _ Hbefore) in Hcut.
  rewrite <- Hps in Hfull.
  eexists. split; [exact Hfull |].
  cbn [store players bullets outbox].
  split; [reflexivity |]. split; [reflexivity |]. split; [reflexivity |].
  split; [reflexivity |]. split; [apply JsMap_get_delete_same | exact Hcut].
Qed.

Lemma shield_absorbs_witness :
  players (store shieldWorld) = [] ++ ("a", shieldedPlayer) :: [("b", opponent)] /\
  (forall entry, In entry [] -> passedOver (advance incomingBullet) entry) /\
  String.eqb "a" (Bullet.playerId (advance incomingBullet)) = false /\
  checkCollision (bulletRect (advance incomingBullet)) (playerRect shieldedPlayer) = true /\
  Effects.shield (Effects.mk 0 1700000000001 0 0)
    > Date_now busyHost (clockReads shieldWorld) /\
  exists w',
    hitPlayers "k" (advance incomingBullet) (players (store shieldWorld)) busyHost shieldWorld
      = Done tt w' /\
    players (store w') = players (store shieldWorld) /\
    JsMap.get "a" (players (store w')) = JsMap.get "a" (players (store shieldWorld)) /\
    outbox w' = outbox shieldWorld /\
    bullets (store w') = JsMap.delete "k" (bullets (store shieldWorld)) /\
    JsMap.get "k" (bullets (store w')) = None /\
    hitPlayers "k" (advance incomingBullet) ([] ++ [("a", shieldedPlayer)]) busyHost shieldWorld
      = Done tt w'.
Proof.
  assert (H1 : players (store shieldWorld) = [] ++ ("a", shieldedPlayer) :: [("b", opponent)])
    by reflexivity.
  assert (H2 : forall entry, In entry [] -> passedOver (advance incomingBullet) entry)
    by (intros entry []).
  assert (H3 : String.eqb "a" (Bullet.playerId (advance incomingBullet)) = false)
    by reflexivity.
  assert (H4 : checkCollision (bulletRect (advance incomingBullet))
                 (playerRect shieldedPlayer) = true)
    by (vm_compute; reflexivity).
  assert (H5 : Effects.shield (Effects.mk 0 1700000000001 0 0)
               > Date_now busyHost (clockReads shieldWorld))
    by (vm_compute; reflexivity).
  split; [exact H1 |]. split; [exact H2 |]. split; [exact H3 |].
  split; [exact H4 |]. split; [exact H5 |].
  exact (shield_absorbs busyHost shieldWorld "k" (advance incomingBullet) []
           "a" shieldedPlayer [("b", opponent)] (Effects.mk 0 1700000000001 0 0)
           H1 H2 H3 H4 eq_refl H5).
Defined.

(** C3, as the claim words it, fails: the shield of player ["a"] expires
    strictly after the [now] of the tick, the bullet of ["b"] overlaps
    ["a"], and yet the tick takes 25 off the health of ["a"], because the
    clock has moved on by the time the collision is examined. *)
Lemma shield_until_tick_now_counterexample :
  exists w' player',
    gameLoop busyHost shieldWorld = Done tt w' /\
    JsMap.get "a" (players (store shieldWorld)) = Some shieldedPlayer /\
    JsMap.get "k" (bullets (store shieldWorld)) = Some incomingBullet /\
    String.eqb "a" (Bullet.playerId incomingBullet) = false /\
    checkCollision (bulletRect (advance incomingBullet)) (playerRect shieldedPlayer) = true /\
    Player.powerUps shieldedPlayer = Some (Effects.mk 0 1700000000001 0 0) /\
    Effects.shield (Effects.mk 0 1700000000001 0 0) > tickNow busyHost shieldWorld /\
    JsMap.get "a" (players (store w')) = Some player' /\
    Player.health shieldedPlayer = Num 100 /\
    Player.health player' = Num 75.
Proof.
  eexists. eexists.
  split; [vm_compute; reflexivity |].
  repeat split; vm_compute; reflexivity.
Qed.

(** ** When the leaderboard changes *)

Lemma hitCount_emit w e :
  hitCount (mkWorld (store w) (listeners w) (outbox w ++ [e]) (clockReads w) (randomDraws w))
  = (hitCount w + (if isPlayerHit e then 1 else 0))%nat.
Proof.
  unfold hitCount. cbn [outbox]. rewrite filter_app, length_app. cbn [filter].
  destruct (isPlayerHit e); reflexivity.
Qed.

Lemma hitsKept_refl w : hitsKept w w.
Proof. unfold hitsKept. lia. Qed.

Lemma hitsKept_trans a b c : hitsKept a b -> hitsKept b c -> hitsKept a c.
Proof. unfold hitsKept. lia. Qed.

Lemma hitsKept_store w w' : store w' = store w -> outbox w' = outbox w -> hitsKept w w'.
Proof. unfold hitsKept, hitCount. intros _ ->. lia. Qed.

Lemma keeps_emit_hitsKept e : keeps hitsKept (emit e).
Proof. intros env w. unfold hitsKept, emit, final. rewrite hitCount_emit. lia. Qed.

Lemma keeps_modifyStore_hitsKept g : keeps hitsKept (modifyStore g).
Proof. intros env w. unfold hitsKept, hitCount, modifyStore, final. cbn [outbox]. lia. Qed.

Ltac hits_kept_writes :=
  idtac;
  lazymatch goal with
  | |- keeps _ (emit _) => apply keeps_emit_hitsKept
  | |- keeps _ (modifyStore _) => apply keeps_modifyStore_hitsKept
  | |- keeps _ (mutatePlayer _ _) => apply keeps_modifyStore_hitsKept
  end.

Ltac hits_kept := keeps_steps hitsKept_refl hitsKept_trans hitsKept_store hits_kept_writes.

Lemma playerDied_keeps_hits bullet playerId player :
  keeps hitsKept (playerDied bullet playerId player).
Proof. unfold playerDied, createExplosion, updateLeaderboard. hits_kept. Qed.

Lemma hitOrSame_refl w : hitOrSameBoard w w.
Proof. unfold hitOrSameBoard. split; [lia | reflexivity]. Qed.

Lemma hitOrSame_trans a b c :
  hitOrSameBoard a b -> hitOrSameBoard b c -> hitOrSameBoard a c.
Proof.
  unfold hitOrSameBoard. intros [H1 E1] [H2 E2]. split; [lia |].
  intros H. rewrite E2, E1; [reflexivity | lia | lia].
Qed.

Lemma hitOrSame_store w w' :
  store w' = store w -> outbox w' = outbox w -> hitOrSameBoard w w'.
Proof.
  unfold hitOrSameBoard, hitCount. intros -> ->. split; [lia | reflexivity].
Qed.

Lemma keeps_emit_hitOrSame e : keeps hitOrSameBoard (emit e).
Proof.
  intros env w. unfold hitOrSameBoard, emit, final. rewrite hitCount_emit.
  split; [lia | reflexivity].
Qed.

Lemma keeps_modifyStore_hitOrSame g :
  (forall s, leaderboard (g s) = leaderboard s) -> keeps hitOrSameBoard (modifyStore g).
Proof.
  intros H env w. unfold hitOrSameBoard, modifyStore, final, hitCount. cbn [outbox store].
  split; [lia | intros _; apply H].
Qed.

(** Once a [playerHit] has been broadcast, whatever follows is fine. *)
Lemma keeps_hit_then {A} a b c d e (rest : M A) :
  keeps hitsKept rest ->
  keeps hitOrSameBoard (emit (IoEmit (playerHit a b c d e)) ;; rest).
Proof.
  intros Hrest env w. unfold bind, emit.
  specialize (Hrest env
    (mkWorld (store w) (listeners w) (outbox w ++ [IoEmit (playerHit a b c d e)])
             (clockReads w) (randomDraws w))).
  unfold hitsKept in Hrest. rewrite hitCount_emit in Hrest. cbn [isPlayerHit] in Hrest.
  unfold hitOrSameBoard. split; lia.
Qed.

Ltac hit_or_same_writes :=
  idtac;
  lazymatch goal with
  | |- keeps _ (bind (emit (IoEmit (playerHit _ _ _ _ _))) _) =>
      apply keeps_hit_then;
      keeps_steps hitsKept_refl hitsKept_trans hitsKept_store
        ltac:(first [ apply playerDied_keeps_hits | hits_kept_writes ])
  | |- keeps _ (emit _) => apply keeps_emit_hitOrSame
  | |- keeps _ (modifyStore _) => apply keeps_modifyStore_hitOrSame; intros; reflexivity
  | |- keeps _ (mutatePlayer _ _) =>
      unfold mutatePlayer; apply keeps_modifyStore_hitOrSame; intros; reflexivity
  end.

Ltac hit_or_same :=
  keeps_steps hitOrSame_refl hitOrSame_trans hitOrSame_store hit_or_same_writes.

Lemma gameLoop_hit_or_same : keeps hitOrSameBoard gameLoop.
Proof.
  unfold gameLoop, spawnPowerUp, updateBullet, hitPlayers, onBulletHit, createExplosion.
  hit_or_same.
Qed.

(** A hit that leaves the victim alive does not reach the leaderboard. *)
Lemma onBulletHit_nonfatal bulletId bullet playerId player :
  Js.le (Js.sub (Player.health player) (Num (bulletDamage bullet))) (Num 0) = false ->
  keeps (sameOn leaderboard) (onBulletHit bulletId bullet playerId player).
Proof.
  intros Halive. unfold onBulletHit. cbv zeta.
  cbn [Player.health Player.with_health]. rewrite Halive.
  keeps_steps (sameOn_refl leaderboard) (sameOn_trans leaderboard)
              (sameOn_store leaderboard)
              ltac:(first [ apply createExplosion_keeps_leaderboard | same_on_writes ]).
Qed.

(** C10.  Joining, leaving, moving and shooting leave the leaderboard as it
    is, whether the listener completes or throws; so does the resolution of a
    hit that leaves the victim's health above zero; and a tick in which no
    [playerHit] is broadcast leaves it as it is.  Hence a broadcast can carry
    entries of players who have left: after a kill and the victim's
    disconnect, the next [gameUpdate] still lists the victim on the
    leaderboard although no player object has that id. *)
Theorem leaderboard_changes_only_on_kill :
  (forall env w socketId,
     leaderboard (store (final (onConnection socketId env w))) = leaderboard (store w)) /\
  (forall env w socketId,
     leaderboard (store (final (onDisconnect socketId env w))) = leaderboard (store w)) /\
  (forall env w socketId data,
     leaderboard (store (final (playerMove socketId data env w))) = leaderboard (store w)) /\
  (forall env w socketId data,
     leaderboard (store (final (playerShoot socketId data env w))) = leaderboard (store w)) /\
  (forall env w bulletId bullet playerId player,
     Js.le (Js.sub (Player.health player) (Num (bulletDamage bullet))) (Num 0) = false ->
     leaderboard (store (final (onBulletHit bulletId bullet playerId player env w)))
       = leaderboard (store w)) /\
  (forall env w,
     hitCount (final (gameLoop env w)) = hitCount w ->
     leaderboard (store (final (gameLoop env w))) = leaderboard (store w)) /\
  (exists w',
     serve staleRun steadyHost initialWorld = Done tt w' /\
     staleEntry (last (outbox w') (IoEmit (playerJoined 0))) = true /\
     existsb (fun entry => String.eqb (LeaderEntry.id entry) "a") (leaderboard (store w')) = true /\
     JsMap.has "a" (players (store w')) = false).
Proof.
  split; [| split; [| split; [| split; [| split; [| split]]]]].
  - intros env w socketId. apply (onConnection_keeps_leaderboard socketId env w).
  - intros env w socketId. apply (onDisconnect_keeps_leaderboard socketId env w).
  - intros env w socketId data. apply (playerMove_keeps_leaderboard socketId data env w).
  - intros env w socketId data. apply (playerShoot_keeps_leaderboard socketId data env w).
  - intros env w bulletId bullet playerId player Halive.
    apply (onBulletHit_nonfatal bulletId bullet playerId player Halive env w).
  - intros env w Hsame. exact (proj2 (gameLoop_hit_or_same env w) Hsame).
  - eexists. split; [vm_compute; reflexivity |].
    split; [vm_compute; reflexivity |]. split; vm_compute; reflexivity.
Qed.

Lemma leaderboard_changes_only_on_kill_witness :
  (Js.le (Js.sub (Player.health shieldedPlayer) (Num (bulletDamage incomingBullet))) (Num 0)
     = false /\
   leaderboard (store (final (onBulletHit "k" incomingBullet "a" shieldedPlayer
                                busyHost shieldWorld)))
     = leaderboard (store shieldWorld)) /\
  (hitCount (final (gameLoop steadyHost initialWorld)) = hitCount initialWorld /\
   leaderboard (store (final (gameLoop steadyHost initialWorld)))
     = leaderboard (store initialWorld)).
Proof.
  assert (H1 : Js.le (Js.sub (Player.health shieldedPlayer)
                             (Num (bulletDamage incomingBullet))) (Num 0) = false)
    by (vm_compute; reflexivity).
  assert (H2 : hitCount (final (gameLoop steadyHost initialWorld)) = hitCount initialWorld)
    by (vm_compute; reflexivity).
  split.
  - split; [exact H1 |].
    exact (proj1 (proj2 (proj2 (proj2 (proj2 leaderboard_changes_only_on_kill))))
             busyHost shieldWorld "k" incomingBullet "a" shieldedPlayer H1).
  - split; [exact H2 |].
    exact (proj1 (proj2 (proj2 (proj2 (proj2 (proj2 leaderboard_changes_only_on_kill)))))
             steadyHost initialWorld H2).
Defined.

(** ** The player a promotion makes *)

(** C1 fails on the code.  Whatever is drawn, the object the disconnect
    listener makes for a promoted spectator is not the one the join path would
    make for that id: it has no [maxHealth], [kills], [deaths], [powerUps],
    [lastShot] or [team].  In the run in which eight sockets join, a ninth is
    queued and the first leaves, the ninth is stored as such an object next to
    players that do have these fields. *)
Theorem promoted_player_lacks_join_fields :
  (forall id rx ry rc rx' ry' rc' rt,
     newPlayerOnPromotion id rx ry rc <> specPromotedPlayer id rx' ry' rc' rt) /\
  (exists w' promoted seated,
     serve promotionRun steadyHost initialWorld = Done tt w' /\
     JsMap.get "s9" (players (store w')) = Some promoted /\
     promoted = newPlayerOnPromotion "s9" (1 # 2) (1 # 2) (1 # 2) /\
     Player.health promoted = Num 100 /\
     Player.score promoted = 0 /\
     Player.maxHealth promoted = Undefined /\
     Player.kills promoted = Undefined /\
     Player.deaths promoted = Undefined /\
     Player.powerUps promoted = None /\
     Player.lastShot promoted = Undefined /\
     Player.team promoted = Undefined /\
     JsMap.get "p2" (players (store w')) = Some seated /\
     seated = newPlayerOnConnect "p2" (1 # 2) (1 # 2) (1 # 2) (1 # 2) /\
     Player.maxHealth seated = Num 100 /\
     Player.powerUps seated = Some Effects.cleared).
Proof.
  split.
  - intros id rx ry rc rx' ry' rc' rt H.
    apply (f_equal Player.maxHealth) in H. discriminate H.
  - eexists. eexists. eexists.
    split; [vm_compute; reflexivity |].
    split; [vm_compute; reflexivity |].
    split; [reflexivity |].
    do 8 (split; [reflexivity |]).
    split; [vm_compute; reflexivity |].
    split; [reflexivity |]. split; reflexivity.
Qed.

(** With such an object in the store, a recomputation of the leaderboard
    throws at [p.kills.toFixed] and leaves the leaderboard as it was. *)
Lemma updateLeaderboard_throws_after_promotion :
  exists w,
    updateLeaderboard steadyHost (final (serve promotionRun steadyHost initialWorld)) = Threw w /\
    leaderboard (store w) = [].
Proof. eexists. split; vm_compute; reflexivity. Qed.

(** ** Health after a tick *)


(** A bullet that reaches the promoted player ends the tick with a
    TypeError, before any hit is resolved or any snapshot is broadcast. *)
Lemma tick_throws_on_promoted_player :
  exists w', serve promotedHitRun steadyHost initialWorld = Threw w'.
Proof. eexists. vm_compute. reflexivity. Qed.

(** ** Health of the players that have a [maxHealth] *)

Lemma JsMap_keys_update {V} k (f : V -> V) m : JsMap.keys (JsMap.update k f m) = JsMap.keys m.
Proof.
  unfold JsMap.keys, JsMap.update. rewrite map_map. apply map_ext.
  intros e. destruct (JsMap.keyIs k e); reflexivity.
Qed.

Lemma JsMap_keys_filter_NoDup {V} (f : string * V -> bool) (m : JsMap.t V) :
  NoDup (JsMap.keys m) -> NoDup (JsMap.keys (filter f m)).
Proof.
  unfold JsMap.keys. induction m as [| e m IH]; simpl; intros H; [constructor |].
  inversion H as [| k ks Hnotin Hnd]; subst.
  destruct (f e); simpl.
  - constructor; [| exact (IH Hnd)].
    intros Hin. apply Hnotin. apply in_map_iff in Hin.
    destruct Hin as [e' [He' Hin']]. apply filter_In in Hin'.
    apply in_map_iff. exists e'. tauto.
  - exact (IH Hnd).
Qed.

Lemma JsMap_get_none_keys {V} k (m : JsMap.t V) :
  JsMap.get k m = None -> ~ In k (JsMap.keys m).
Proof.
  unfold JsMap.keys. induction m as [| [k' v] m IH]; simpl; intros H; [tauto |].
  destruct (String.eqb_spec k' k) as [-> | Hne]; [discriminate |].
  intros [Heq | Hin]; [exact (Hne Heq) | exact (IH H Hin)].
Qed.

Lemma JsMap_keys_set {V} k (v : V) m :
  JsMap.keys (JsMap.set k v m) =
  match JsMap.get k m with
  | Some _ => JsMap.keys m
  | None => JsMap.keys m ++ [k]
  end.
Proof.
  unfold JsMap.keys. induction m as [| [k' v'] m IH]; simpl; [reflexivity |].
  destruct (String.eqb k' k); simpl; [reflexivity |].
  rewrite IH. destruct (JsMap.get k m); reflexivity.
Qed.

Lemma JsMap_keys_set_NoDup {V} k (v : V) m :
  NoDup (JsMap.keys m) -> NoDup (JsMap.keys (JsMap.set k v m)).
Proof.
  intros H. rewrite JsMap_keys_set.
  destruct (JsMap.get k m) eqn:E; [exact H |].
  apply NoDup_app; [exact H | constructor; [intros [] | constructor] |].
  intros a Ha [<- | []]. exact (JsMap_get_none_keys _ _ E Ha).
Qed.

Lemma JsMap_set_Forall {V} (P : string * V -> Prop) k v m :
  P (k, v) -> Forall P m -> Forall P (JsMap.set k v m).
Proof.
  intros Hv Hm. induction Hm as [| [k' v'] m He Hm IH]; simpl.
  - constructor; [exact Hv | constructor].
  - destruct (String.eqb_spec k' k) as [-> | Hne].
    + constructor; [exact Hv | exact Hm].
    + constructor; [exact He | exact IH].
Qed.

Lemma JsMap_update_Forall {V} (P : V -> Prop) k (f : V -> V) (m : JsMap.t V) :
  (forall e, In e m -> JsMap.keyIs k e = true -> P (snd e) -> P (f (snd e))) ->
  Forall (fun e => P (snd e)) m ->
  Forall (fun e => P (snd e)) (JsMap.update k f m).
Proof.
  intros Hf Hm. unfold JsMap.update. rewrite Forall_map.
  rewrite Forall_forall in *. intros e He.
  destruct (JsMap.keyIs k e) eqn:E; [| exact (Hm e He)].
  cbn [snd]. exact (Hf e He E (Hm e He)).
Qed.

Lemma Forall_filter_keep {A} (P : A -> Prop) (f : A -> bool) l :
  Forall P l -> Forall P (filter f l).
Proof.
  intros H. rewrite Forall_forall in *. intros a Ha.
  apply filter_In in Ha. apply H. tauto.
Qed.

(** With distinct keys, the entry under a key is the only one. *)
Lemma JsMap_NoDup_unique {V} k (v : V) (m : JsMap.t V) e :
  NoDup (JsMap.keys m) -> In (k, v) m -> In e m -> JsMap.keyIs k e = true -> e = (k, v).
Proof.
  unfold JsMap.keys, JsMap.keyIs. intros Hnd. revert e.
  induction m as [| [k' v'] m IH]; simpl; intros e Hin He Hk; [tauto |].
  inversion Hnd as [| x xs Hnotin Hnd']; subst.
  apply String.eqb_eq in Hk.
  destruct Hin as [Hin | Hin]; destruct He as [He | He].
  - congruence.
  - injection Hin as -> ->. exfalso. apply Hnotin.
    apply in_map_iff. exists e. split; [exact Hk | exact He].
  - subst e. simpl in Hk. subst k'. exfalso. apply Hnotin.
    apply in_map_iff. exists (k, v). split; [reflexivity | exact Hin].
  - apply IH; [exact Hnd' | exact Hin | exact He |].
    apply String.eqb_eq. exact Hk.
Qed.

Lemma JsMap_get_In {V} k (v : V) (m : JsMap.t V) : JsMap.get k m = Some v -> In (k, v) m.
Proof.
  induction m as [| [k' v'] m IH]; simpl; [discriminate |].
  destruct (String.eqb_spec k' k) as [-> | Hne].
  - intros H. injection H as ->. left. reflexivity.
  - intros H. right. exact (IH H).
Qed.

Lemma okPlayer_same p q :
  Player.maxHealth q = Player.maxHealth p ->
  Player.health q = Player.health p ->
  Player.powerUps q = Player.powerUps p ->
  okPlayer p -> okPlayer q.
Proof. unfold okPlayer. intros -> -> ->. auto. Qed.

Lemma sound_update_frame s k f :
  (forall p, Player.maxHealth (f p) = Player.maxHealth p /\
             Player.health (f p) = Player.health p /\
             Player.powerUps (f p) = Player.powerUps p) ->
  soundStore s -> soundStore (with_players (JsMap.update k f) s).
Proof.
  intros Hf [Hnd [Hok Hb]]. unfold soundStore, with_players. cbn [players bullets].
  split; [rewrite JsMap_keys_update; exact Hnd |]. split; [| exact Hb].
  apply JsMap_update_Forall; [| exact Hok].
  intros e _ _ He. destruct (Hf (snd e)) as [Hm [Hh Hp]].
  exact (okPlayer_same _ _ Hm Hh Hp He).
Qed.

Lemma sound_players_delete s k :
  soundStore s -> soundStore (with_players (JsMap.delete k) s).
Proof.
  intros [Hnd [Hok Hb]]. unfold soundStore, with_players, JsMap.delete. cbn [players bullets].
  split; [apply JsMap_keys_filter_NoDup; exact Hnd |].
  split; [apply Forall_filter_keep; exact Hok | exact Hb].
Qed.

Lemma sound_players_set s k v :
  okPlayer v -> soundStore s -> soundStore (with_players (JsMap.set k v) s).
Proof.
  intros Hv [Hnd [Hok Hb]]. unfold soundStore, with_players. cbn [players bullets].
  split; [apply JsMap_keys_set_NoDup; exact Hnd |].
  split; [apply JsMap_set_Forall; [exact Hv | exact Hok] | exact Hb].
Qed.

Lemma sound_bullets_filter s f :
  soundStore s -> soundStore (with_bullets (filter f) s).
Proof.
  intros [Hnd [Hok Hb]]. unfold soundStore, with_bullets. cbn [players bullets].
  split; [exact Hnd |]. split; [exact Hok | apply Forall_filter_keep; exact Hb].
Qed.

Lemma sound_bullets_set s k b :
  0 <= Bullet.damage b -> soundStore s -> soundStore (with_bullets (JsMap.set k b) s).
Proof.
  intros Hd [Hnd [Hok Hb]]. unfold soundStore, with_bullets. cbn [players bullets].
  split; [exact Hnd |]. split; [exact Hok |].
  apply JsMap_set_Forall; [exact Hd | exact Hb].
Qed.

Lemma sound_bullets_advance s k :
  soundStore s -> soundStore (with_bullets (JsMap.update k advance) s).
Proof.
  intros [Hnd [Hok Hb]]. unfold soundStore, with_bullets. cbn [players bullets].
  split; [exact Hnd |]. split; [exact Hok |].
  apply (JsMap_update_Forall (fun b => 0 <= Bullet.damage b)); [| exact Hb].
  intros e _ _ He. exact He.
Qed.

Lemma okPlayer_onConnect id rx ry rc rt : okPlayer (newPlayerOnConnect id rx ry rc rt).
Proof.
  exists 100. split; [reflexivity |]. split; [lia |]. split.
  - intros m Hm. injection Hm as <-. lia.
  - intros _. exists 100. reflexivity.
Qed.

Lemma okPlayer_onPromotion id rx ry rc : okPlayer (newPlayerOnPromotion id rx ry rc).
Proof.
  exists 100. split; [reflexivity |]. split; [lia |]. split.
  - intros m Hm. discriminate Hm.
  - intros H. exfalso. apply H. reflexivity.
Qed.

Lemma sound_refl w : notLost soundStore w w.
Proof. unfold notLost. auto. Qed.

Lemma sound_trans a b c :
  notLost soundStore a b -> notLost soundStore b c -> notLost soundStore a c.
Proof. unfold notLost. auto. Qed.

Lemma sound_store w w' :
  store w' = store w -> outbox w' = outbox w -> notLost soundStore w w'.
Proof. unfold notLost. intros -> _. auto. Qed.

Lemma keeps_emit_sound e : keeps (notLost soundStore) (emit e).
Proof. intros env w H. exact H. Qed.

Lemma keeps_modifyStore_sound g :
  (forall s, soundStore s -> soundStore (g s)) -> keeps (notLost soundStore) (modifyStore g).
Proof. intros H env w Hs. apply H. exact Hs. Qed.

(** The writes that keep a store sound for a reason of their own. *)
Ltac sound_write :=
  intros ? ?;
  first
    [ assumption
    | apply sound_players_delete; assumption
    | apply sound_bullets_filter; assumption
    | apply sound_bullets_advance; assumption
    | apply sound_players_set; [first [ apply okPlayer_onConnect | apply okPlayer_onPromotion ]
                               | assumption ]
    | apply sound_update_frame; [intros ?; repeat split | assumption]
    | apply sound_bullets_set; [cbn [Bullet.damage];
                                match goal with
                                | |- 0 <= (if ?c then _ else _) => destruct c; lia
                                end
                               | assumption ] ].

Ltac sound_writes :=
  idtac;
  lazymatch goal with
  | |- keeps _ (emit _) => apply keeps_emit_sound
  | |- keeps _ (modifyStore _) => apply keeps_modifyStore_sound; sound_write
  | |- keeps _ (mutatePlayer _ _) =>
      unfold mutatePlayer; apply keeps_modifyStore_sound; sound_write
  end.

Ltac sound_steps prim :=
  keeps_steps sound_refl sound_trans sound_store ltac:(first [ prim | sound_writes ]).

Lemma createExplosion_sound x y size : keeps (notLost soundStore) (createExplosion x y size).
Proof. unfold createExplosion. sound_steps fail. Qed.

Lemma updateLeaderboard_sound : keeps (notLost soundStore) updateLeaderboard.
Proof. unfold updateLeaderboard. sound_steps fail. Qed.

Lemma spawnPowerUp_sound : keeps (notLost soundStore) spawnPowerUp.
Proof. unfold spawnPowerUp. sound_steps fail. Qed.

Lemma onConnection_sound socketId : keeps (notLost soundStore) (onConnection socketId).
Proof. unfold onConnection. sound_steps fail. Qed.

Lemma onDisconnect_sound socketId : keeps (notLost soundStore) (onDisconnect socketId).
Proof. unfold onDisconnect. sound_steps fail. Qed.

Lemma playerShoot_sound socketId data : keeps (notLost soundStore) (playerShoot socketId data).
Proof. unfold playerShoot. sound_steps fail. Qed.

Lemma heal_ok p player eff :
  Player.health p = Player.health player ->
  Player.maxHealth p = Player.maxHealth player ->
  Player.powerUps p = Player.powerUps player ->
  Player.powerUps player = Some eff ->
  okPlayer p ->
  okPlayer (Player.with_health
              (Js.min (Player.maxHealth player) (Js.add (Player.health player) (Num 50))) p).
Proof.
  intros Hh Hm Hp Heff [h [Hhp [Hpos [Hle Hmax]]]].
  destruct Hmax as [m Hmp]; [rewrite Hp, Heff; discriminate |].
  rewrite <- Hm, <- Hh, Hmp, Hhp. cbn [Js.add Js.min].
  exists (Z.min m (h + 50)). pose proof (Hle m Hmp).
  split; [reflexivity |]. split; [lia |]. split.
  - intros m' Hm'. cbn [Player.with_health Player.maxHealth] in Hm'.
    rewrite Hmp in Hm'. injection Hm' as <-. lia.
  - intros _. exists m. exact Hmp.
Qed.

Lemma effect_ok p eff' :
  Player.powerUps p <> None -> okPlayer p -> okPlayer (Player.with_powerUps (Some eff') p).
Proof.
  intros Hp [h [Hh [Hpos [Hle Hmax]]]]. exists h.
  split; [exact Hh |]. split; [exact Hpos |]. split; [exact Hle |].
  intros _. exact (Hmax Hp).
Qed.

Lemma applyPowerUp_sound key player powerUp eff env w :
  Player.powerUps player = Some eff ->
  agreesWith key player (store w) ->
  soundStore (store w) ->
  soundStore (store (final (applyPowerUp key player powerUp env w))).
Proof.
  intros Heff Hag [Hnd [Hok Hb]]. unfold applyPowerUp, setEffect. rewrite Heff.
  destruct (PowerUp.kind powerUp); run_steps;
    unfold soundStore; cbn [players bullets];
    (split; [rewrite JsMap_keys_update; exact Hnd |]); (split; [| exact Hb]);
    (apply JsMap_update_Forall; [| exact Hok]);
    intros e He Hk Hoke; destruct (Hag e He Hk) as [Hh [Hm Hp]];
    first [ apply effect_ok; [rewrite Hp, Heff; discriminate | exact Hoke]
          | exact (heal_ok _ _ eff Hh Hm Hp Heff Hoke) ].
Qed.

Lemma collectPowerUp_sound key player eff entries env :
  Player.powerUps player = Some eff ->
  forall w,
    agreesWith key player (store w) ->
    soundStore (store w) ->
    soundStore (store (final (collectPowerUp key player entries env w))).
Proof.
  intros Heff. unfold collectPowerUp.
  induction entries as [| entry entries IH]; intros w Hag Hs.
  - exact Hs.
  - cbn [forOf]. cbv zeta. unfold bind at 1.
    destruct (checkCollision _ _).
    + pose proof (applyPowerUp_sound key player (snd entry) eff env w Heff Hag Hs) as Ha.
      unfold bind at 1.
      destruct (applyPowerUp key player (snd entry) env w) as [[] w1 | w1];
        cbn [final] in Ha; [| exact Ha].
      run_steps. unfold JsMap.delete.
      destruct Ha as [Hnd [Hok Hb]]. unfold soundStore. cbn [players bullets]. tauto.
    + unfold ret at 1. apply IH; assumption.
Qed.

Lemma playerMove_sound socketId data : keeps (notLost soundStore) (playerMove socketId data).
Proof.
  intros env w Hs. unfold playerMove.
  unfold bind at 1. unfold getPlayer at 1. unfold bind at 1.
  unfold getStore at 1. unfold ret at 1.
  destruct (JsMap.get socketId (players (store w))) as [player |] eqn:Hget; [| exact Hs].
  destruct (Player.powerUps player) as [eff |] eqn:Heff; [| exact Hs].
  unfold bind at 1. unfold dateNow at 1.
  unfold bind at 1. unfold mutatePlayer at 1. unfold modifyStore at 1.
  unfold bind at 1. unfold getStore at 1.
  cbv zeta. cbn [store listeners outbox clockReads randomDraws].
  apply (collectPowerUp_sound _ _ eff); [exact Heff | |].
  - (* the stored object is the moved player *)
    intros e He Hk. cbn [store with_players players] in He.
    unfold JsMap.update in He. apply in_map_iff in He.
    destruct He as [e0 [He0 Hin0]].
    assert (Hk0 : JsMap.keyIs socketId e0 = true).
    { destruct (JsMap.keyIs socketId e0) eqn:E; [reflexivity |].
      subst e. congruence. }
    rewrite Hk0 in He0. subst e. cbn [snd].
    destruct Hs as [Hnd _].
    rewrite (JsMap_NoDup_unique socketId player _ e0 Hnd (JsMap_get_In _ _ _ Hget) Hin0 Hk0).
    repeat split.
  - cbn [store]. apply sound_update_frame; [intros ?; repeat split | exact Hs].
Qed.

Lemma keyIs_update {V} k k' (f : V -> V) (e : string * V) :
  JsMap.keyIs k (if JsMap.keyIs k' e then (fst e, f (snd e)) else e) = JsMap.keyIs k e.
Proof. destruct (JsMap.keyIs k' e); reflexivity. Qed.

Lemma okExcept_damage key (f : Player.t -> Player.t) ps :
  (forall p, Player.maxHealth (f p) = Player.maxHealth p) ->
  (forall e, In e ps -> JsMap.keyIs key e = true -> Player.powerUps (snd e) <> None) ->
  Forall (fun e => okPlayer (snd e)) ps ->
  Forall (okExcept key) (JsMap.update key f ps).
Proof.
  intros Hf Hp Hok. unfold JsMap.update. rewrite Forall_map.
  rewrite Forall_forall in *. intros e He. specialize (Hok e He).
  unfold okExcept. rewrite keyIs_update.
  destruct (JsMap.keyIs key e) eqn:E; cbn [snd]; split; intros Hk; try discriminate.
  - destruct Hok as [h [_ [Hpos [Hle Hmax]]]].
    destruct (Hmax (Hp e He E)) as [m Hm].
    exists m. rewrite Hf. split; [exact Hm |]. pose proof (Hle m Hm). lia.
  - exact Hok.
Qed.

Lemma okExcept_frame key k (f : Player.t -> Player.t) ps :
  (forall p, Player.maxHealth (f p) = Player.maxHealth p /\
             Player.health (f p) = Player.health p /\
             Player.powerUps (f p) = Player.powerUps p) ->
  Forall (okExcept key) ps ->
  Forall (okExcept key) (JsMap.update k f ps).
Proof.
  intros Hf Hok. unfold JsMap.update. rewrite Forall_map.
  rewrite Forall_forall in *. intros e He. destruct (Hok e He) as [H1 H2].
  unfold okExcept. rewrite keyIs_update.
  destruct (JsMap.keyIs k e); [| split; assumption].
  cbn [snd]. destruct (Hf (snd e)) as [Hm [Hh Hp]]. split.
  - intros Hk. exact (okPlayer_same _ _ Hm Hh Hp (H1 Hk)).
  - intros Hk. rewrite Hm. exact (H2 Hk).
Qed.

Lemma okExcept_reset key (f : Player.t -> Player.t) ps :
  (forall p, Player.maxHealth (f p) = Player.maxHealth p /\
             Player.health (f p) = Player.maxHealth p) ->
  Forall (okExcept key) ps ->
  Forall (fun e => okPlayer (snd e)) (JsMap.update key f ps).
Proof.
  intros Hf Hok. unfold JsMap.update. rewrite Forall_map.
  rewrite Forall_forall in *. intros e He. destruct (Hok e He) as [H1 H2].
  destruct (JsMap.keyIs key e); [| exact (H1 eq_refl)].
  cbn [snd]. destruct (Hf (snd e)) as [Hm Hh].
  destruct (H2 eq_refl) as [m [Hmax Hpos]].
  exists m. rewrite Hh, Hm. split; [exact Hmax |]. split; [exact Hpos |]. split.
  - intros m' Hm'. rewrite Hmax in Hm'. injection Hm' as <-. lia.
  - intros _. exists m. exact Hmax.
Qed.

Lemma playerDied_sound bullet playerId player env w :
  NoDup (JsMap.keys (players (store w))) ->
  Forall (okExcept playerId) (players (store w)) ->
  Forall (fun e => 0 <= Bullet.damage (snd e)) (bullets (store w)) ->
  soundStore (store (final (playerDied bullet playerId player env w))).
Proof.
  intros Hnd Hok Hb.
  assert (Hfinish : forall ps,
            NoDup (JsMap.keys ps) -> Forall (okExcept playerId) ps ->
            NoDup (JsMap.keys
                     (JsMap.update playerId
                        (fun p => Player.with_deaths (Js.add (Player.deaths p) (Num 1)) p) ps)) /\
            forall rx ry,
              Forall (fun e => okPlayer (snd e))
                (JsMap.update playerId
                   (fun p =>
                      Player.with_powerUps (Some Effects.cleared)
                        (Player.with_y ry (Player.with_x rx
                           (Player.with_health (Player.maxHealth p) p))))
                   (JsMap.update playerId
                      (fun p => Player.with_deaths (Js.add (Player.deaths p) (Num 1)) p) ps))).
  { intros ps Hn Ho. split; [rewrite JsMap_keys_update; exact Hn |].
    intros rx ry. apply okExcept_reset; [intros ?; split; reflexivity |].
    apply okExcept_frame; [intros ?; repeat split | exact Ho]. }
  unfold playerDied, createExplosion, updateLeaderboard. run_steps.
  destruct (JsMap.get (Bullet.playerId bullet) (players (store w))) as [shooter |];
    run_steps.
  - match goal with
    | |- context [JsMap.update playerId _ (JsMap.update ?k ?f (players (store w)))] =>
        destruct (Hfinish (JsMap.update k f (players (store w)))) as [Hn' Hf'];
          [ rewrite JsMap_keys_update; exact Hnd
          | apply okExcept_frame; [intros ?; repeat split | exact Hok] | ]
    end.
    match goal with
    | |- context [match ?x with Some _ => _ | None => _ end] => destruct x
    end; run_steps; unfold soundStore; cbn [players bullets];
      (split; [rewrite JsMap_keys_update; exact Hn' |]);
      (split; [apply Hf' | exact Hb]).
  - destruct (Hfinish (players (store w)) Hnd Hok) as [Hn' Hf'].
    match goal with
    | |- context [match ?x with Some _ => _ | None => _ end] => destruct x
    end; run_steps; unfold soundStore; cbn [players bullets];
      (split; [rewrite JsMap_keys_update; exact Hn' |]);
      (split; [apply Hf' | exact Hb]).
Qed.

Lemma bulletDamage_pos bullet : 0 <= Bullet.damage bullet -> 0 < bulletDamage bullet.
Proof.
  unfold bulletDamage. intros H.
  destruct (Z.eqb_spec (Bullet.damage bullet) 0); lia.
Qed.

Lemma onBulletHit_sound bulletId bullet playerId player env w :
  soundStore (store w) ->
  In (playerId, player) (players (store w)) ->
  0 <= Bullet.damage bullet ->
  soundStore (store (final (onBulletHit bulletId bullet playerId player env w))).
Proof.
  intros Hs Hin Hd. pose proof (bulletDamage_pos bullet Hd) as Hpos.
  unfold onBulletHit.
  destruct (Player.powerUps player) as [eff |] eqn:Heff; [| exact Hs].
  unfold bind at 1. unfold dateNow at 1.
  destruct (Effects.shield eff >? Date_now env (clockReads w)).
  - assert (Hk : keeps (notLost soundStore)
                   (modifyStore (with_bullets (JsMap.delete bulletId)) ;;
                    createExplosion (Bullet.x bullet) (Bullet.y bullet) 30 ;; ret Break)).
    { sound_steps ltac:(apply createExplosion_sound). }
    apply Hk. exact Hs.
  - cbv zeta. cbn [Player.health Player.with_health].
    destruct Hs as [Hnd [Hok Hb]].
    assert (Hvictim : forall e, In e (players (store w)) ->
                      JsMap.keyIs playerId e = true -> e = (playerId, player))
      by (intros e He Hk; exact (JsMap_NoDup_unique playerId player _ e Hnd Hin He Hk)).
    destruct (Js.le (Js.sub (Player.health player) (Num (bulletDamage bullet))) (Num 0))
      eqn:Hfatal.
    + (* the victim dies: damage, then [playerDied] resets the health *)
      unfold createExplosion. run_steps.
      match goal with
      | |- context [playerDied ?b ?k ?p env ?w3] =>
          pose proof (playerDied_sound b k p env w3) as Hdied;
          destruct (playerDied b k p env w3) as [[] w4 | w4]
      end; cbn [final store players bullets] in *; apply Hdied;
        try (rewrite JsMap_keys_update; exact Hnd);
        try (apply Forall_filter_keep; exact Hb);
        (apply okExcept_damage; [intros ?; reflexivity | | exact Hok]);
        intros e He Hk; rewrite (Hvictim e He Hk); cbn [snd]; rewrite Heff; discriminate.
    + (* the victim survives *)
      unfold createExplosion. run_steps.
      unfold soundStore. cbn [players bullets].
      split; [rewrite JsMap_keys_update; exact Hnd |].
      split; [| apply Forall_filter_keep; exact Hb].
      apply JsMap_update_Forall; [| exact Hok].
      intros e He Hk Hoke. rewrite (Hvictim e He Hk) in *. cbn [snd] in *.
      destruct Hoke as [h [Hh [Hhp [Hle Hmax]]]].
      rewrite Hh in *. cbn [Js.sub Js.le] in Hfatal. apply Z.leb_gt in Hfatal.
      exists (h - bulletDamage bullet).
      split; [reflexivity |]. split; [lia |]. split; [| exact Hmax].
      intros m Hm. pose proof (Hle m Hm). lia.
Qed.

Lemma onBulletHit_breaks bulletId bullet playerId player env w w1 :
  onBulletHit bulletId bullet playerId player env w <> Done Next w1.
Proof.
  unfold onBulletHit, createExplosion.
  destruct (Player.powerUps player); [| discriminate].
  run_steps.
  destruct (_ >? _); [discriminate |].
  destruct (Js.le _ _); [| discriminate].
  match goal with
  | |- context [playerDied ?b ?k ?p env ?w3] => destruct (playerDied b k p env w3)
  end; discriminate.
Qed.

Lemma hitPlayers_sound bulletId bullet entries env w :
  soundStore (store w) ->
  (forall e, In e entries -> In e (players (store w))) ->
  0 <= Bullet.damage bullet ->
  soundStore (store (final (hitPlayers bulletId bullet entries env w))).
Proof.
  intros Hs Hsub Hd. unfold hitPlayers.
  induction entries as [| [playerId player] entries IH]; [exact Hs |].
  cbn [forOf fst snd]. cbv zeta. unfold bind at 1.
  assert (Hrest : forall e, In e entries -> In e (players (store w)))
    by (intros e He; apply Hsub; right; exact He).
  destruct (String.eqb playerId (Bullet.playerId bullet)).
  - unfold ret at 1. exact (IH Hrest).
  - destruct (checkCollision _ _).
    + pose proof (onBulletHit_sound bulletId bullet playerId player env w Hs
                    (Hsub _ (or_introl eq_refl)) Hd) as Hhit.
      pose proof (onBulletHit_breaks bulletId bullet playerId player env w) as Hbreak.
      destruct (onBulletHit bulletId bullet playerId player env w) as [[|] w1 | w1];
        cbn [final] in Hhit |- *; try exact Hhit.
      exfalso. exact (Hbreak w1 eq_refl).
    + unfold ret at 1. exact (IH Hrest).
Qed.

Lemma updateBullet_sound entry env w :
  soundStore (store w) ->
  0 <= Bullet.damage (snd entry) ->
  soundStore (store (final (updateBullet entry env w))).
Proof.
  intros Hs Hd. unfold updateBullet. cbv zeta.
  unfold bind at 1. unfold modifyStore at 1.
  pose proof (sound_bullets_advance (store w) (fst entry) Hs) as Hs1.
  destruct (outOfBounds (advance (snd entry))).
  - run_steps. apply (sound_bullets_filter _ _ Hs1).
  - unfold bind at 1. unfold getStore at 1. unfold bind at 1.
    cbn [store].
    match goal with
    | |- context [hitPlayers ?i ?b ?es env ?w1] =>
        pose proof (hitPlayers_sound i b es env w1 Hs1 (fun e He => He) Hd) as Hhit;
        destruct (hitPlayers i b es env w1) as [[] w2 | w2]
    end; exact Hhit.
Qed.

Lemma bulletsLoop_sound entries env :
  Forall (fun e => 0 <= Bullet.damage (snd e)) entries ->
  forall w, soundStore (store w) ->
  soundStore (store (final (forOf entries updateBullet env w))).
Proof.
  intros Hd. induction Hd as [| entry entries He Hd IH]; intros w Hs; [exact Hs |].
  cbn [forOf]. unfold bind at 1.
  pose proof (updateBullet_sound entry env w Hs He) as Hstep.
  destruct (updateBullet entry env w) as [[|] w1 | w1]; cbn [final] in Hstep.
  - apply IH. exact Hstep.
  - exact Hstep.
  - exact Hstep.
Qed.

Lemma keeps_bulletsLoop {A} (rest : M A) :
  keeps (notLost soundStore) rest ->
  keeps (notLost soundStore) (st <- getStore ;; forOf (bullets st) updateBullet ;; rest).
Proof.
  intros Hrest env w Hs. unfold bind at 1. unfold getStore at 1. unfold bind at 1.
  pose proof (bulletsLoop_sound (bullets (store w)) env (proj2 (proj2 Hs)) w Hs) as Hloop.
  destruct (forOf (bullets (store w)) updateBullet env w) as [[] w1 | w1];
    cbn [final] in Hloop; [apply Hrest; exact Hloop | exact Hloop].
Qed.

Lemma gameLoop_sound : keeps (notLost soundStore) gameLoop.
Proof.
  unfold gameLoop.
  sound_steps
    ltac:(idtac;
          lazymatch goal with
          | |- keeps _ spawnPowerUp => apply spawnPowerUp_sound
          | |- keeps _ (bind getStore ?k) =>
              lazymatch k with
              | context [updateBullet] => apply keeps_bulletsLoop
              end
          end).
Qed.

Lemma react_sound ev : keeps (notLost soundStore) (react ev).
Proof.
  destruct ev; simpl.
  - apply onConnection_sound.
  - apply whenListening_keeps; [exact sound_refl | apply playerMove_sound].
  - apply whenListening_keeps; [exact sound_refl | apply playerShoot_sound].
  - apply whenListening_keeps; [exact sound_refl |].
    apply (keeps_bind _ sound_trans); [apply onDisconnect_sound |].
    intros _. apply (keeps_closeSocket _ sound_store).
  - apply gameLoop_sound.
Qed.

Lemma serve_sound evs : keeps (notLost soundStore) (serve evs).
Proof.
  induction evs as [| ev evs IH]; simpl.
  - apply (keeps_ret _ sound_refl).
  - apply (keeps_bind _ sound_trans); [apply react_sound | intros _; exact IH].
Qed.

(** *** What is broadcast *)

Lemma noSnapshot_refl w : noSnapshot w w.
Proof. exists []. split; [symmetry; apply app_nil_r | constructor]. Qed.

Lemma noSnapshot_trans a b c : noSnapshot a b -> noSnapshot b c -> noSnapshot a c.
Proof.
  intros [l1 [E1 F1]] [l2 [E2 F2]]. exists (l1 ++ l2).
  split; [rewrite E2, E1, app_assoc; reflexivity | apply Forall_app; split; assumption].
Qed.

Lemma noSnapshot_store w w' :
  store w' = store w -> outbox w' = outbox w -> noSnapshot w w'.
Proof. intros _ E. exists []. split; [rewrite E; symmetry; apply app_nil_r | constructor]. Qed.

Lemma keeps_emit_noSnapshot e : broadcastPlayers e = None -> keeps noSnapshot (emit e).
Proof.
  intros H env w. exists [e]. split; [reflexivity |]. constructor; [exact H | constructor].
Qed.

Lemma keeps_modifyStore_noSnapshot g : keeps noSnapshot (modifyStore g).
Proof. intros env w. exists []. split; [symmetry; apply app_nil_r | constructor]. Qed.

Ltac no_snapshot_writes :=
  idtac;
  lazymatch goal with
  | |- keeps _ (emit _) => apply keeps_emit_noSnapshot; reflexivity
  | |- keeps _ (modifyStore _) => apply keeps_modifyStore_noSnapshot
  | |- keeps _ (mutatePlayer _ _) => apply keeps_modifyStore_noSnapshot
  end.

Ltac no_snapshot :=
  keeps_steps noSnapshot_refl noSnapshot_trans noSnapshot_store no_snapshot_writes.

Lemma onConnection_noSnapshot socketId : keeps noSnapshot (onConnection socketId).
Proof. unfold onConnection. no_snapshot. Qed.

Lemma onDisconnect_noSnapshot socketId : keeps noSnapshot (onDisconnect socketId).
Proof. unfold onDisconnect. no_snapshot. Qed.

Lemma playerMove_noSnapshot socketId data : keeps noSnapshot (playerMove socketId data).
Proof. unfold playerMove, collectPowerUp, applyPowerUp, setEffect. no_snapshot. Qed.

Lemma playerShoot_noSnapshot socketId data : keeps noSnapshot (playerShoot socketId data).
Proof. unfold playerShoot. no_snapshot. Qed.

Lemma updateBullet_noSnapshot entry : keeps noSnapshot (updateBullet entry).
Proof.
  unfold updateBullet, hitPlayers, onBulletHit, playerDied, createExplosion, updateLeaderboard.
  no_snapshot.
Qed.

Lemma spawnPowerUp_noSnapshot : keeps noSnapshot spawnPowerUp.
Proof. unfold spawnPowerUp. no_snapshot. Qed.

Lemma noSnapshot_snapshotLast a b : noSnapshot a b -> snapshotLast a b.
Proof. intros [l [E F]]. exists l. split; [exact F | left; exact E]. Qed.

Lemma noSnapshot_then_snapshotLast a b c :
  noSnapshot a b -> snapshotLast b c -> snapshotLast a c.
Proof.
  intros [l1 [E1 F1]] [l2 [F2 H]]. exists (l1 ++ l2).
  split; [apply Forall_app; split; assumption |].
  destruct H as [E2 | [bs [pus [es [lb E2]]]]].
  - left. rewrite E2, E1, app_assoc. reflexivity.
  - right. exists bs, pus, es, lb. rewrite E2, E1, <- !app_assoc. reflexivity.
Qed.

(** A step that emits no snapshot, followed by steps that end on one. *)
Lemma keeps_snapshotLast_bind {A B} (m : M A) (k : A -> M B) :
  keeps noSnapshot m -> (forall a, keeps snapshotLast (k a)) ->
  keeps snapshotLast (bind m k).
Proof.
  intros Hm Hk env w. unfold bind. specialize (Hm env w).
  destruct (m env w) as [a w1 | w1]; cbn [final] in Hm |- *.
  - exact (noSnapshot_then_snapshotLast _ _ _ Hm (Hk a env w1)).
  - exact (noSnapshot_snapshotLast _ _ Hm).
Qed.

Lemma gameLoop_snapshotLast : keeps snapshotLast gameLoop.
Proof.
  unfold gameLoop.
  apply keeps_snapshotLast_bind; [apply spawnPowerUp_noSnapshot | intros _].
  apply keeps_snapshotLast_bind; [no_snapshot | intros now].
  apply keeps_snapshotLast_bind; [no_snapshot | intros _].
  apply keeps_snapshotLast_bind; [no_snapshot | intros _].
  apply keeps_snapshotLast_bind; [no_snapshot | intros st].
  apply keeps_snapshotLast_bind.
  - apply (keeps_forOf _ noSnapshot_refl noSnapshot_trans).
    intros entry. apply updateBullet_noSnapshot.
  - intros _ env w. run_steps. exists []. split; [constructor |].
    right. eexists. eexists. eexists. eexists. reflexivity.
Qed.

Lemma okEmit_noSnapshot w w' :
  noSnapshot w w' -> Forall okEmit (outbox w) -> Forall okEmit (outbox w').
Proof.
  intros [l [E F]] H. rewrite E. apply Forall_app. split; [exact H |].
  eapply Forall_impl; [| exact F]. intros e He. unfold okEmit. rewrite He. exact I.
Qed.

Lemma react_soundWorld ev env w : soundWorld w -> soundWorld (final (react ev env w)).
Proof.
  intros [Hs Hout]. pose proof (react_sound ev env w Hs) as Hs'.
  split; [exact Hs' |].
  destruct ev; cbn [react] in *.
  - exact (okEmit_noSnapshot _ _ (onConnection_noSnapshot _ env w) Hout).
  - refine (okEmit_noSnapshot _ _ _ Hout).
    apply whenListening_keeps; [exact noSnapshot_refl | apply playerMove_noSnapshot].
  - refine (okEmit_noSnapshot _ _ _ Hout).
    apply whenListening_keeps; [exact noSnapshot_refl | apply playerShoot_noSnapshot].
  - refine (okEmit_noSnapshot _ _ _ Hout).
    apply whenListening_keeps; [exact noSnapshot_refl |].
    apply (keeps_bind _ noSnapshot_trans); [apply onDisconnect_noSnapshot |].
    intros _. apply (keeps_closeSocket _ noSnapshot_store).
  - destruct (gameLoop_snapshotLast env w) as [l [F [E | [bs [pus [es [lb E]]]]]]].
    + apply (okEmit_noSnapshot w); [exists l; split; assumption | exact Hout].
    + rewrite E. apply Forall_app. split; [exact Hout |].
      apply Forall_app. split.
      * eapply Forall_impl; [| exact F]. intros e He. unfold okEmit. rewrite He. exact I.
      * constructor; [| constructor]. unfold okEmit. cbn [broadcastPlayers].
        unfold JsMap.values. rewrite Forall_map. exact (proj1 (proj2 Hs')).
Qed.

Lemma serve_soundWorld evs env : forall w, soundWorld w -> soundWorld (final (serve evs env w)).
Proof.
  induction evs as [| ev evs IH]; intros w Hw; [exact Hw |].
  cbn [serve]. unfold bind.
  pose proof (react_soundWorld ev env w Hw) as Hstep.
  destruct (react ev env w) as [[] w1 | w1]; cbn [final] in Hstep |- *.
  - apply IH. exact Hstep.
  - exact Hstep.
Qed.

Lemma initialWorld_sound : soundWorld initialWorld.
Proof. split; [| constructor]. unfold soundStore. simpl. repeat constructor. Qed.

(** X21.  What does hold of the health.  However many events the server has
    handled, and whether or not a handler threw on the way: the health of
    every stored player is a number above zero, and it is not above the
    player's [maxHealth] when the player has one, so that
    [0 <= health <= maxHealth] is true of every player that has a
    [maxHealth]; only the objects made by a promotion have none. *)
Lemma health_in_range_with_maxHealth env evs id p :
  In (id, p) (players (store (final (serve evs env initialWorld)))) ->
  (exists h, Player.health p = Num h /\ 0 < h) /\
  (forall m, Player.maxHealth p = Num m -> healthInRange p = true).
Proof.
  intros Hin.
  destruct (serve_soundWorld evs env initialWorld initialWorld_sound) as [[_ [Hok _]] _].
  rewrite Forall_forall in Hok.
  destruct (Hok _ Hin) as [h [Hh [Hpos [Hle _]]]]. cbn [snd] in *.
  split; [exists h; split; assumption |].
  intros m Hm. unfold healthInRange. rewrite Hh, Hm. cbn [Js.le].
  pose proof (Hle m Hm). apply andb_true_iff. split; apply Z.leb_le; lia.
Qed.

(** X22.  And of the snapshots: no [gameUpdate] ever broadcast carries a
    player whose health is zero or less. *)
Lemma broadcast_health_positive env evs e ps p :
  In e (outbox (final (serve evs env initialWorld))) ->
  broadcastPlayers e = Some ps ->
  In p ps ->
  exists h, Player.health p = Num h /\ 0 < h.
Proof.
  intros He Hps Hp.
  destruct (serve_soundWorld evs env initialWorld initialWorld_sound) as [_ Hout].
  rewrite Forall_forall in Hout. specialize (Hout e He).
  unfold okEmit in Hout. rewrite Hps in Hout.
  rewrite Forall_forall in Hout. destruct (Hout p Hp) as [h [Hh [Hpos _]]].
  exists h. split; assumption.
Qed.

(* ================================================================== *)
(** * Further properties *)

Lemma Qltb_lt a b : Qltb a b = true <-> (a < b)%Q.
Proof.
  unfold Qltb. rewrite negb_true_iff. split.
  - intros H. apply Qnot_le_lt. intros Hle. apply Qle_bool_iff in Hle. congruence.
  - intros H. destruct (Qle_bool b a) eqn:E; [| reflexivity].
    apply Qle_bool_iff in E. exfalso. exact (Qlt_not_le _ _ H E).
Qed.

Lemma Qltb_ge a b : Qltb a b = false <-> (b <= a)%Q.
Proof.
  unfold Qltb. rewrite negb_false_iff. apply Qle_bool_iff.
Qed.

(** Two open intervals that start before the other ends share a point. *)
Lemma intervals_meet (a1 b1 a2 b2 : Q) :
  (a1 < b2 -> a2 < b1 -> a1 < b1 -> a2 < b2 ->
   exists p, (a1 < p /\ p < b1) /\ (a2 < p /\ p < b2))%Q.
Proof.
  intros H1 H2 H3 H4.
  destruct (Qlt_le_dec a1 a2) as [Ha | Ha]; destruct (Qlt_le_dec b1 b2) as [Hb | Hb].
  - exists ((a2 + b1) * (1 # 2))%Q. repeat split; lra.
  - exists ((a2 + b2) * (1 # 2))%Q. repeat split; lra.
  - exists ((a1 + b1) * (1 # 2))%Q. repeat split; lra.
  - exists ((a1 + b2) * (1 # 2))%Q. repeat split; lra.
Qed.

(** X1.  [checkCollision] does not depend on the order of its arguments,
    and for two rectangles of positive width and height it answers [true]
    exactly when some point lies strictly inside both: rectangles that only
    touch along an edge do not collide. *)
Theorem checkCollision_common_point :
  (forall r1 r2, checkCollision r1 r2 = checkCollision r2 r1) /\
  (forall r1 r2,
     (0 < Rect.width r1)%Q -> (0 < Rect.height r1)%Q ->
     (0 < Rect.width r2)%Q -> (0 < Rect.height r2)%Q ->
     (checkCollision r1 r2 = true <->
      exists px py, insideRect r1 px py /\ insideRect r2 px py)).
Proof.
  split.
  - intros r1 r2. unfold checkCollision.
    destruct (Qltb (Rect.x r1) _), (Qltb (Rect.x r2) _),
             (Qltb (Rect.y r1) _), (Qltb (Rect.y r2) _); reflexivity.
  - intros r1 r2 Hw1 Hh1 Hw2 Hh2. unfold checkCollision, insideRect.
    rewrite !andb_true_iff, !Qltb_lt. split.
    + intros [[[Hx1 Hx2] Hy1] Hy2].
      destruct (intervals_meet (Rect.x r1) (Rect.x r1 + Rect.width r1)
                               (Rect.x r2) (Rect.x r2 + Rect.width r2))
        as [px Hpx]; try lra.
      destruct (intervals_meet (Rect.y r1) (Rect.y r1 + Rect.height r1)
                               (Rect.y r2) (Rect.y r2 + Rect.height r2))
        as [py Hpy]; try lra.
      exists px, py. tauto.
    + intros [px [py [[Hx1 Hy1] [Hx2 Hy2]]]]. repeat split; lra.
Qed.

Lemma checkCollision_common_point_witness :
  (0 < Rect.width (bulletRect (advance incomingBullet)))%Q /\
  (checkCollision (bulletRect (advance incomingBullet)) (playerRect shieldedPlayer) = true <->
   exists px py,
     insideRect (bulletRect (advance incomingBullet)) px py /\
     insideRect (playerRect shieldedPlayer) px py).
Proof.
  assert (H1 : (0 < Rect.width (bulletRect (advance incomingBullet)))%Q) by reflexivity.
  assert (H2 : (0 < Rect.height (bulletRect (advance incomingBullet)))%Q) by reflexivity.
  assert (H3 : (0 < Rect.width (playerRect shieldedPlayer))%Q) by reflexivity.
  assert (H4 : (0 < Rect.height (playerRect shieldedPlayer))%Q) by reflexivity.
  split; [exact H1 |].
  exact (proj2 checkCollision_common_point _ _ H1 H2 H3 H4).
Defined.

(** ** Requests of a socket that has no player *)

(** X2.  A [playerMove] or [playerShoot] request for an id that has no
    player object returns at once: the stores, the listeners, what was
    emitted, and both oracles are left exactly as they were. *)
Theorem request_without_player_is_ignored env w socketId :
  JsMap.get socketId (players (store w)) = None ->
  (forall data, playerMove socketId data env w = Done tt w) /\
  (forall data, playerShoot socketId data env w = Done tt w).
Proof.
  intros Hget. split; intros data.
  - unfold playerMove. run_steps. rewrite Hget. reflexivity.
  - unfold playerShoot. run_steps. rewrite Hget. reflexivity.
Qed.

Lemma request_without_player_is_ignored_witness :
  JsMap.get "zz" (players (store loneShooter)) = None /\
  (forall data, playerMove "zz" data busyHost loneShooter = Done tt loneShooter) /\
  (forall data, playerShoot "zz" data busyHost loneShooter = Done tt loneShooter).
Proof.
  assert (H : JsMap.get "zz" (players (store loneShooter)) = None)
    by (vm_compute; reflexivity).
  split; [exact H |].
  exact (request_without_player_is_ignored busyHost loneShooter "zz" H).
Defined.

(** ** Who is seated *)

Lemma serve_keeps (R : World -> World -> Prop) evs :
  (forall w, R w w) -> (forall a b c, R a b -> R b c -> R a c) ->
  (forall ev, keeps R (react ev)) -> keeps R (serve evs).
Proof.
  intros Hrefl Htrans Hreact. induction evs as [| ev evs IH]; simpl.
  - apply (keeps_ret _ Hrefl).
  - apply (keeps_bind _ Htrans); [apply Hreact | intros _; exact IH].
Qed.

Lemma notLost_refl P w : notLost P w w.
Proof. unfold notLost. auto. Qed.

Lemma notLost_trans P a b c : notLost P a b -> notLost P b c -> notLost P a c.
Proof. unfold notLost. auto. Qed.

Lemma notLost_store P w w' : store w' = store w -> outbox w' = outbox w -> notLost P w w'.
Proof. unfold notLost. intros -> _. auto. Qed.

Lemma keeps_emit_notLost P e : keeps (notLost P) (emit e).
Proof. intros env w H. exact H. Qed.

Lemma keeps_modifyStore_notLost (P : Store -> Prop) g :
  (forall s, P s -> P (g s)) -> keeps (notLost P) (modifyStore g).
Proof. intros H env w Hs. apply H. exact Hs. Qed.

Lemma sameOn_notLost {T} (f : Store -> T) (P : Store -> Prop) :
  (forall s s', f s' = f s -> P s -> P s') ->
  forall w w', sameOn f w w' -> notLost P w w'.
Proof. unfold sameOn, notLost. intros H w w' E. apply H. exact E. Qed.

Ltac ids_writes :=
  idtac;
  lazymatch goal with
  | |- keeps _ (emit _) => apply keeps_emit_sameOn
  | |- keeps _ (modifyStore _) =>
      apply keeps_modifyStore_sameOn; intros;
      first [ reflexivity | apply JsMap_keys_update ]
  | |- keeps _ (mutatePlayer _ _) =>
      unfold mutatePlayer; apply keeps_modifyStore_sameOn; intros;
      apply JsMap_keys_update
  end.

Ltac same_ids :=
  keeps_steps (sameOn_refl playerIds) (sameOn_trans playerIds) (sameOn_store playerIds)
              ids_writes.

Lemma gameLoop_keeps_ids : keeps (sameOn playerIds) gameLoop.
Proof.
  unfold gameLoop, spawnPowerUp, updateBullet, hitPlayers, onBulletHit, playerDied,
    createExplosion, updateLeaderboard.
  same_ids.
Qed.

Lemma playerMove_keeps_ids socketId data : keeps (sameOn playerIds) (playerMove socketId data).
Proof. unfold playerMove, collectPowerUp, applyPowerUp, setEffect. same_ids. Qed.

Lemma playerShoot_keeps_ids socketId data : keeps (sameOn playerIds) (playerShoot socketId data).
Proof. unfold playerShoot. same_ids. Qed.

Lemma gameLoop_keeps_spectators : keeps (sameOn spectators) gameLoop.
Proof.
  unfold gameLoop, spawnPowerUp, updateBullet, hitPlayers, onBulletHit, playerDied,
    createExplosion, updateLeaderboard.
  same_on spectators.
Qed.

Lemma playerMove_keeps_spectators socketId data :
  keeps (sameOn spectators) (playerMove socketId data).
Proof. unfold playerMove, collectPowerUp, applyPowerUp, setEffect. same_on spectators. Qed.

Lemma playerShoot_keeps_spectators socketId data :
  keeps (sameOn spectators) (playerShoot socketId data).
Proof. unfold playerShoot. same_on spectators. Qed.

(** X3.  A tick, a [playerMove] and a [playerShoot] never seat or unseat
    anyone, whether they complete or throw: the ids of the players, in store
    order, and the spectator queue are the same before and after.  In
    particular a player who is killed in a tick stays in the store. *)
Theorem only_connections_change_the_seats :
  (forall env w,
     playerIds (store (final (gameLoop env w))) = playerIds (store w) /\
     spectators (store (final (gameLoop env w))) = spectators (store w)) /\
  (forall env w socketId data,
     playerIds (store (final (playerMove socketId data env w))) = playerIds (store w) /\
     spectators (store (final (playerMove socketId data env w))) = spectators (store w)) /\
  (forall env w socketId data,
     playerIds (store (final (playerShoot socketId data env w))) = playerIds (store w) /\
     spectators (store (final (playerShoot socketId data env w))) = spectators (store w)).
Proof.
  split; [| split].
  - intros env w. split;
      [apply (gameLoop_keeps_ids env w) | apply (gameLoop_keeps_spectators env w)].
  - intros env w socketId data. split;
      [apply (playerMove_keeps_ids socketId data env w)
      | apply (playerMove_keeps_spectators socketId data env w)].
  - intros env w socketId data. split;
      [apply (playerShoot_keeps_ids socketId data env w)
      | apply (playerShoot_keeps_spectators socketId data env w)].
Qed.

Lemma JsMap_delete_size_lt {V} k (m : JsMap.t V) :
  JsMap.has k m = true -> (JsMap.size (JsMap.delete k m) < JsMap.size m)%nat.
Proof.
  unfold JsMap.has, JsMap.size, JsMap.delete, JsMap.keyIs.
  induction m as [| [k' v] m IH]; simpl; [discriminate |].
  destruct (String.eqb k' k) eqn:E; simpl.
  - intros _. pose proof (filter_length_le (fun e : string * V => negb (String.eqb (fst e) k)) m).
    lia.
  - intros H. specialize (IH H). lia.
Qed.

Lemma seats_of_ids s s' : playerIds s' = playerIds s -> seatsWithinCap s -> seatsWithinCap s'.
Proof.
  unfold seatsWithinCap, playerIds, JsMap.size, JsMap.keys. intros E H.
  rewrite <- (length_map fst (players s')), E, length_map. exact H.
Qed.

Lemma onConnection_seats socketId : keeps (notLost seatsWithinCap) (onConnection socketId).
Proof.
  intros env w H. unfold seatsWithinCap in *. unfold onConnection. run_steps.
  destruct (Nat.leb_spec MAX_PLAYERS (JsMap.size (players (store w)))) as [Hfull | Hroom];
    run_steps.
  - exact H.
  - cbn [store players with_players].
    match goal with
    | |- (JsMap.size (JsMap.set ?k ?v ?m) <= _)%nat => pose proof (JsMap_set_size k v m)
    end.
    lia.
Qed.

Lemma onDisconnect_seats socketId : keeps (notLost seatsWithinCap) (onDisconnect socketId).
Proof.
  intros env w H. unfold seatsWithinCap in *. unfold onDisconnect. run_steps.
  cbn [with_players with_spectators with_bullets players bullets spectators
       powerUps explosions leaderboard].
  pose proof (JsMap_delete_size socketId (players (store w))) as Hle.
  destruct (JsMap.has socketId (players (store w))) eqn:Hwas; cbn [andb].
  2: { run_steps. lia. }
  pose proof (JsMap_delete_size_lt socketId (players (store w)) Hwas) as Hlt.
  destruct (0 <? JsSet.size (JsSet.delete socketId (spectators (store w))))%nat.
  2: { run_steps. lia. }
  destruct (JsSet.first (JsSet.delete socketId (spectators (store w)))) as [next |].
  2: { run_steps. lia. }
  run_steps.
  cbn [with_players with_spectators with_bullets players bullets spectators
       powerUps explosions leaderboard].
  match goal with
  | |- (JsMap.size (JsMap.set ?k ?v ?m) <= _)%nat => pose proof (JsMap_set_size k v m)
  end.
  lia.
Qed.

Lemma react_seats ev : keeps (notLost seatsWithinCap) (react ev).
Proof.
  destruct ev; simpl.
  - apply onConnection_seats.
  - apply whenListening_keeps; [apply notLost_refl |].
    apply (keeps_weaken _ _ _ (sameOn_notLost playerIds _ seats_of_ids)).
    apply playerMove_keeps_ids.
  - apply whenListening_keeps; [apply notLost_refl |].
    apply (keeps_weaken _ _ _ (sameOn_notLost playerIds _ seats_of_ids)).
    apply playerShoot_keeps_ids.
  - apply whenListening_keeps; [apply notLost_refl |].
    apply (keeps_bind _ (notLost_trans _)); [apply onDisconnect_seats |].
    intros _. apply (keeps_closeSocket _ (notLost_store _)).
  - apply (keeps_weaken _ _ _ (sameOn_notLost playerIds _ seats_of_ids)).
    apply gameLoop_keeps_ids.
Qed.

(** X4.  However many sockets connect and leave, and whether or not a
    handler threw on the way, no more than [MAX_PLAYERS] = 8 players are ever
    seated: a promotion takes only the seat that the leaving player gave
    up. *)
Theorem seats_never_exceed_cap env evs :
  (JsMap.size (players (store (final (serve evs env initialWorld)))) <= MAX_PLAYERS)%nat.
Proof.
  apply (serve_keeps (notLost seatsWithinCap) evs (notLost_refl _) (notLost_trans _)
           react_seats env initialWorld).
  unfold seatsWithinCap. simpl. unfold MAX_PLAYERS. lia.
Qed.

(** ** Whose bullets fly *)

Lemma JsMap_has_update {V} k k' (f : V -> V) m :
  JsMap.has k (JsMap.update k' f m) = JsMap.has k m.
Proof.
  unfold JsMap.has. destruct (String.eqb k' k) eqn:E.
  - apply String.eqb_eq in E. subst k'. rewrite JsMap_get_update_same.
    destruct (JsMap.get k m); reflexivity.
  - rewrite (JsMap_get_update_other _ _ _ _ E). reflexivity.
Qed.

Lemma JsMap_has_set {V} k k' (v : V) m :
  JsMap.has k m = true -> JsMap.has k (JsMap.set k' v m) = true.
Proof.
  unfold JsMap.has. destruct (String.eqb k' k) eqn:E.
  - apply String.eqb_eq in E. subst k'. rewrite JsMap_get_set_same. reflexivity.
  - rewrite (JsMap_get_set_other _ _ _ _ E). auto.
Qed.

Lemma owners_players_update s k f :
  ownersSeated s -> ownersSeated (with_players (JsMap.update k f) s).
Proof.
  unfold ownersSeated, with_players. cbn [players bullets]. intros H.
  eapply Forall_impl; [| exact H]. intros e He. rewrite JsMap_has_update. exact He.
Qed.

Lemma owners_players_set s k v :
  ownersSeated s -> ownersSeated (with_players (JsMap.set k v) s).
Proof.
  unfold ownersSeated, with_players. cbn [players bullets]. intros H.
  eapply Forall_impl; [| exact H]. intros e He. apply JsMap_has_set. exact He.
Qed.

Lemma owners_bullets_filter s g :
  ownersSeated s -> ownersSeated (with_bullets (filter g) s).
Proof.
  unfold ownersSeated, with_bullets. cbn [players bullets]. apply Forall_filter_keep.
Qed.

Lemma owners_bullets_advance s k :
  ownersSeated s -> ownersSeated (with_bullets (JsMap.update k advance) s).
Proof.
  unfold ownersSeated, with_bullets. cbn [players bullets]. intros H.
  apply (JsMap_update_Forall
           (fun b => JsMap.has (Bullet.playerId b) (players s) = true)); [| exact H].
  intros e _ _ He. exact He.
Qed.

Ltac owners_write :=
  intros ? ?;
  first
    [ assumption
    | apply owners_players_update; assumption
    | apply owners_players_set; assumption
    | apply owners_bullets_filter; assumption
    | apply owners_bullets_advance; assumption ].

Ltac owners_writes :=
  idtac;
  lazymatch goal with
  | |- keeps _ (emit _) => apply keeps_emit_notLost
  | |- keeps _ (modifyStore _) => apply keeps_modifyStore_notLost; owners_write
  | |- keeps _ (mutatePlayer _ _) =>
      unfold mutatePlayer; apply keeps_modifyStore_notLost; owners_write
  end.

Ltac owners_steps :=
  keeps_steps (notLost_refl ownersSeated) (notLost_trans ownersSeated)
              (notLost_store ownersSeated) owners_writes.

Lemma gameLoop_owners : keeps (notLost ownersSeated) gameLoop.
Proof.
  unfold gameLoop, spawnPowerUp, updateBullet, hitPlayers, onBulletHit, playerDied,
    createExplosion, updateLeaderboard.
  owners_steps.
Qed.

Lemma onConnection_owners socketId : keeps (notLost ownersSeated) (onConnection socketId).
Proof. unfold onConnection. owners_steps. Qed.

Lemma playerMove_owners socketId data : keeps (notLost ownersSeated) (playerMove socketId data).
Proof. unfold playerMove, collectPowerUp, applyPowerUp, setEffect. owners_steps. Qed.

Lemma playerShoot_owners socketId data : keeps (notLost ownersSeated) (playerShoot socketId data).
Proof.
  intros env w H. unfold playerShoot. run_steps.
  destruct (JsMap.get socketId (players (store w))) as [player |] eqn:Hget; [| exact H].
  run_steps.
  destruct (Player.powerUps player) as [eff |]; [| exact H].
  destruct (Js.lt _ _); [exact H |].
  run_steps. unfold ownersSeated in *. cbn [players bullets].
  apply JsMap_set_Forall.
  - cbn [snd Bullet.playerId]. rewrite JsMap_has_update. unfold JsMap.has. rewrite Hget.
    reflexivity.
  - eapply Forall_impl; [| exact H]. intros e He. rewrite JsMap_has_update. exact He.
Qed.

(** Without the leaving player and without that player's bullets, every
    bullet still has its owner. *)
Lemma owners_after_leave s socketId :
  ownersSeated s ->
  Forall (fun e => JsMap.has (Bullet.playerId (snd e))
                     (JsMap.delete socketId (players s)) = true)
         (filter (fun entry => negb (String.eqb (Bullet.playerId (snd entry)) socketId))
                 (bullets s)).
Proof.
  unfold ownersSeated. intros H. rewrite Forall_forall in *. intros e He.
  apply filter_In in He. destruct He as [Hin Hne]. apply negb_true_iff in Hne.
  unfold JsMap.has in *.
  rewrite JsMap_get_delete_other.
  - exact (H e Hin).
  - rewrite String.eqb_sym. exact Hne.
Qed.

Lemma onDisconnect_owners socketId : keeps (notLost ownersSeated) (onDisconnect socketId).
Proof.
  intros env w H. pose proof (owners_after_leave _ socketId H) as Hleft.
  unfold onDisconnect. run_steps.
  cbn [with_players with_spectators with_bullets players bullets spectators
       powerUps explosions leaderboard].
  destruct (JsMap.has socketId (players (store w)) &&
            (0 <? JsSet.size (JsSet.delete socketId (spectators (store w))))%nat).
  2: { run_steps. exact Hleft. }
  destruct (JsSet.first (JsSet.delete socketId (spectators (store w)))) as [next |].
  2: { run_steps. exact Hleft. }
  run_steps. unfold ownersSeated.
  cbn [with_players with_spectators with_bullets players bullets spectators
       powerUps explosions leaderboard].
  eapply Forall_impl; [| exact Hleft]. intros e He. apply JsMap_has_set. exact He.
Qed.

Lemma react_owners ev : keeps (notLost ownersSeated) (react ev).
Proof.
  destruct ev; simpl.
  - apply onConnection_owners.
  - apply whenListening_keeps; [apply notLost_refl | apply playerMove_owners].
  - apply whenListening_keeps; [apply notLost_refl | apply playerShoot_owners].
  - apply whenListening_keeps; [apply notLost_refl |].
    apply (keeps_bind _ (notLost_trans _)); [apply onDisconnect_owners |].
    intros _. apply (keeps_closeSocket _ (notLost_store _)).
  - apply gameLoop_owners.
Qed.

(** X5.  However many events the server has handled, and whether or not a
    handler threw on the way, every bullet in the store belongs to a player
    who is seated: a disconnect removes the leaving player's bullets together
    with the player, and nothing else removes a player. *)
Theorem bullets_have_seated_owners env evs :
  Forall (fun e => JsMap.has (Bullet.playerId (snd e))
                     (players (store (final (serve evs env initialWorld)))) = true)
         (bullets (store (final (serve evs env initialWorld)))).
Proof.
  apply (serve_keeps (notLost ownersSeated) evs (notLost_refl _) (notLost_trans _)
           react_owners env initialWorld).
  constructor.
Qed.

(** ** Where the players and the power-ups are *)

Section KeepsAt.
Context (env : Env) (R : World -> World -> Prop).
Hypothesis R_refl : forall w, R w w.
Hypothesis R_trans : forall a b c, R a b -> R b c -> R a c.

Lemma keepsAt_of_keeps {A} (m : M A) : keeps R m -> keepsAt env R m.
Proof. intros H w. apply H. Qed.

Lemma keepsAt_bind {A B} (m : M A) (k : A -> M B) :
  keepsAt env R m -> (forall a, keepsAt env R (k a)) -> keepsAt env R (bind m k).
Proof.
  intros Hm Hk w. unfold bind.
  specialize (Hm w).
  destruct (m env w) as [a w1 | w1]; simpl in *.
  - eapply R_trans; [exact Hm | apply Hk].
  - exact Hm.
Qed.

Lemma keepsAt_forOf {A} (l : list A) (body : A -> M Flow) :
  (forall a, keepsAt env R (body a)) -> keepsAt env R (forOf l body).
Proof.
  intros Hb. induction l as [| a l IH]; simpl.
  - intros w. apply R_refl.
  - apply keepsAt_bind; [apply Hb |].
    intros [|]; [exact IH | intros w; apply R_refl].
Qed.

Hypothesis R_store : forall w w', store w' = store w -> outbox w' = outbox w -> R w w'.

(** What follows a draw needs to be right for the host's draws only. *)
Lemma keepsAt_bind_random {B} (k : Q -> M B) :
  (forall n, keepsAt env R (k (Math_random env n))) -> keepsAt env R (bind mathRandom k).
Proof.
  intros Hk w. unfold bind, mathRandom.
  eapply R_trans; [| apply Hk]. apply R_store; reflexivity.
Qed.
End KeepsAt.

Ltac keepsAt_step Hrefl Htrans Hstore prim :=
  first [ prim |
  lazymatch goal with
  | |- keepsAt _ _ (bind mathRandom _) =>
      apply (keepsAt_bind_random _ _ Htrans Hstore); intros ?
  | |- keepsAt _ _ (bind _ _) => apply (keepsAt_bind _ _ Htrans); [| intros ?]
  | |- keepsAt _ _ (forOf _ _) => apply (keepsAt_forOf _ _ Hrefl Htrans); intros ?
  | |- keepsAt _ _ (match ?x with _ => _ end) => destruct x
  | |- keepsAt _ _ _ => apply keepsAt_of_keeps; keeps_step Hrefl Htrans Hstore fail
  end ].

Ltac keepsAt_steps Hrefl Htrans Hstore prim :=
  repeat (cbv beta zeta; keepsAt_step Hrefl Htrans Hstore prim).

Lemma keepsAt_emit_notLost env P e : keepsAt env (notLost P) (emit e).
Proof. intros w H. exact H. Qed.

Lemma keepsAt_modifyStore_notLost env (P : Store -> Prop) g :
  (forall s, P s -> P (g s)) -> keepsAt env (notLost P) (modifyStore g).
Proof. intros H w Hs. apply H. exact Hs. Qed.

Lemma scaled_draw (r c : Q) : (0 <= r /\ r < 1 -> 0 <= c -> 0 <= r * c /\ r * c <= c)%Q.
Proof.
  intros [H0 H1] Hc. split.
  - apply Qmult_le_0_compat; assumption.
  - rewrite <- (Qmult_1_l c) at 2. apply Qmult_le_compat_r; [apply Qlt_le_weak; exact H1 | exact Hc].
Qed.




Lemma field_set s k v :
  inField v -> allInField s -> allInField (with_powerUps (JsMap.set k v) s).
Proof.
  intros Hv H. unfold allInField, with_powerUps. cbn [powerUps].
  apply JsMap_set_Forall; [exact Hv | exact H].
Qed.

Lemma field_filter s g : allInField s -> allInField (with_powerUps (filter g) s).
Proof. unfold allInField, with_powerUps. cbn [powerUps]. apply Forall_filter_keep. Qed.


Section Positions.
Context (env : Env).
Hypothesis Hdraws : drawsInUnit env.





Ltac field_write :=
  intros ? ?;
  first
    [ assumption
    | apply field_filter; assumption
    | apply field_set;
      [ split; apply scaled_draw; first [apply Hdraws | discriminate]
      | assumption ] ].

Ltac field_writes :=
  idtac;
  lazymatch goal with
  | |- keepsAt _ _ (emit _) => apply keepsAt_emit_notLost
  | |- keepsAt _ _ (modifyStore _) => apply keepsAt_modifyStore_notLost; field_write
  | |- keepsAt _ _ (mutatePlayer _ _) =>
      unfold mutatePlayer; apply keepsAt_modifyStore_notLost; field_write
  end.

Ltac field_steps :=
  keepsAt_steps (notLost_refl allInField) (notLost_trans allInField)
                (notLost_store allInField) field_writes.

Lemma react_field ev : keepsAt env (notLost allInField) (react ev).
Proof.
  destruct ev; cbn [react];
    unfold whenListening, onConnection, playerMove, collectPowerUp, applyPowerUp, setEffect,
      playerShoot, onDisconnect,
      gameLoop, spawnPowerUp, updateBullet, hitPlayers, onBulletHit, playerDied,
      createExplosion, updateLeaderboard;
    field_steps.
Qed.

Lemma serve_keepsAt (P : Store -> Prop) :
  (forall ev, keepsAt env (notLost P) (react ev)) ->
  forall evs, keepsAt env (notLost P) (serve evs).
Proof.
  intros Hreact evs. induction evs as [| ev evs IH]; cbn [serve].
  - intros w H. exact H.
  - apply (keepsAt_bind _ _ (notLost_trans P)); [apply Hreact | intros _; exact IH].
Qed.
End Positions.



(** X7.  On such a host every power-up in the store has its top left corner
    inside [0, GAME_WIDTH - 30] x [0, GAME_HEIGHT - 30], so that its 30 x 30
    box lies inside the game area. *)
Theorem powerUps_spawn_in_field env evs :
  drawsInUnit env ->
  Forall (fun e => inField (snd e)) (powerUps (store (final (serve evs env initialWorld)))).
Proof.
  intros Hdraws.
  apply (serve_keepsAt env allInField (react_field env Hdraws) evs initialWorld).
  constructor.
Qed.

Lemma powerUps_spawn_in_field_witness :
  drawsInUnit luckyHost /\
  Forall (fun e => inField (snd e))
         (powerUps (store (final (serve [Tick; Tick] luckyHost initialWorld)))).
Proof.
  assert (H : drawsInUnit luckyHost)
    by (intros n; split; [discriminate | reflexivity]).
  split; [exact H |].
  exact (powerUps_spawn_in_field luckyHost [Tick; Tick] H).
Defined.

(** ** The spectator queue *)

(** X8.  When a seated player leaves and the queue is [next :: rest], it is
    [next], the spectator who has waited longest, who gets the seat: [next]
    is stored as the player object of the promotion literal, the leaving id
    has no player any more, every other player is untouched, the queue is
    [rest] in its order, [promotedToPlayer] goes to [next] alone, and the
    [playerCountUpdate] that follows carries the new counts.  No listener is
    registered for [next]. *)
Theorem promotion_takes_the_head_of_the_queue env w socketId next rest :
  JsMap.has socketId (players (store w)) = true ->
  spectators (store w) = next :: rest ->
  NoDup (next :: rest) ->
  ~ In socketId (next :: rest) ->
  exists w',
    onDisconnect socketId env w = Done tt w' /\
    spectators (store w') = rest /\
    JsMap.get next (players (store w')) =
      Some (newPlayerOnPromotion next
              (Math_random env (randomDraws w))
              (Math_random env (S (randomDraws w)))
              (Math_random env (S (S (randomDraws w))))) /\
    JsMap.get socketId (players (store w')) = None /\
    (forall k, k <> socketId -> k <> next ->
       JsMap.get k (players (store w')) = JsMap.get k (players (store w))) /\
    listeners w' = listeners w /\
    outbox w' =
      outbox w ++
        [ IoToEmit next (promotedToPlayer "You can now play! A spot opened up." false);
          IoEmit (playerCountUpdate (JsMap.size (players (store w'))) (List.length rest)) ].
Proof.
  intros Hwas Hqueue Hnd Hnotin.
  assert (Hne : String.eqb next socketId = false).
  { apply String.eqb_neq. intros ->. apply Hnotin. left. reflexivity. }
  assert (Hq1 : JsSet.delete socketId (spectators (store w)) = next :: rest).
  { rewrite Hqueue. apply JsSet_delete_absent. exact Hnotin. }
  assert (Hq2 : JsSet.delete next (next :: rest) = rest).
  { unfold JsSet.delete. cbn [filter]. rewrite String.eqb_refl. cbn [negb].
    apply (JsSet_delete_absent next rest). inversion Hnd. assumption. }
  unfold onDisconnect. run_steps.
  cbn [with_players with_spectators with_bullets players bullets spectators
       powerUps explosions leaderboard].
  rewrite Hwas, Hq1. cbn [andb JsSet.size List.length Nat.ltb Nat.leb JsSet.first hd_error].
  run_steps.
  cbn [with_players with_spectators with_bullets players bullets spectators
       powerUps explosions leaderboard].
  rewrite Hq2.
  eexists. split; [reflexivity |].
  cbn [store players spectators listeners outbox].
  split; [reflexivity |].
  split; [apply JsMap_get_set_same |].
  split; [rewrite (JsMap_get_set_other _ _ _ _ Hne); apply JsMap_get_delete_same |].
  split.
  { intros k Hk1 Hk2.
    rewrite JsMap_get_set_other by (apply String.eqb_neq; congruence).
    apply JsMap_get_delete_other. apply String.eqb_neq. congruence. }
  split; [reflexivity |].
  rewrite <- app_assoc. reflexivity.
Qed.

Lemma promotion_takes_the_head_of_the_queue_witness :
  JsMap.has "p1" (players (store nineSockets)) = true /\
  spectators (store nineSockets) = ["s9"] /\
  exists w',
    onDisconnect "p1" steadyHost nineSockets = Done tt w' /\
    spectators (store w') = [] /\
    JsMap.get "s9" (players (store w')) =
      Some (newPlayerOnPromotion "s9"
              (Math_random steadyHost (randomDraws nineSockets))
              (Math_random steadyHost (S (randomDraws nineSockets)))
              (Math_random steadyHost (S (S (randomDraws nineSockets))))) /\
    JsMap.get "p1" (players (store w')) = None /\
    (forall k, k <> "p1" -> k <> "s9" ->
       JsMap.get k (players (store w')) = JsMap.get k (players (store nineSockets))) /\
    listeners w' = listeners nineSockets /\
    outbox w' =
      outbox nineSockets ++
        [ IoToEmit "s9" (promotedToPlayer "You can now play! A spot opened up." false);
          IoEmit (playerCountUpdate (JsMap.size (players (store w'))) (List.length (@nil string))) ].
Proof.
  assert (H1 : JsMap.has "p1" (players (store nineSockets)) = true)
    by (vm_compute; reflexivity).
  assert (H2 : spectators (store nineSockets) = ["s9"]) by (vm_compute; reflexivity).
  assert (H3 : NoDup ["s9"]) by (constructor; [intros [] | constructor]).
  assert (H4 : ~ In "p1" ["s9"]) by (intros [H | []]; discriminate H).
  split; [exact H1 |]. split; [exact H2 |].
  exact (promotion_takes_the_head_of_the_queue steadyHost nineSockets "p1" "s9" [] H1 H2 H3 H4).
Defined.

(** X9.  A socket that connects to a full game is queued before any
    listener is registered for it, so the server never hears it again: its
    ['disconnect'], like its [playerMove] and [playerShoot], changes
    nothing, and the id stays in the spectator queue after the socket has
    gone. *)
Theorem queued_socket_is_never_heard env w socketId :
  (MAX_PLAYERS <= JsMap.size (players (store w)))%nat ->
  JsSet.has socketId (spectators (store w)) = false ->
  ~ In socketId (listeners w) ->
  exists w1,
    react (Connect socketId) env w = Done tt w1 /\
    In socketId (spectators (store w1)) /\
    react (Disconnect socketId) env w1 = Done tt w1 /\
    (forall data, react (Move socketId data) env w1 = Done tt w1) /\
    (forall data, react (Shoot socketId data) env w1 = Done tt w1).
Proof.
  intros Hfull Hfresh Hdeaf.
  assert (Hoff : existsb (String.eqb socketId) (listeners w) = false)
    by (apply (proj2 (JsSet_has_false socketId (listeners w))); exact Hdeaf).
  cbn [react]. unfold onConnection. run_steps.
  apply Nat.leb_le in Hfull. rewrite Hfull. run_steps.
  eexists. split; [reflexivity |].
  cbn [store with_spectators spectators].
  split; [rewrite (JsSet_add_fresh _ _ Hfresh); apply in_or_app; right; left; reflexivity |].
  unfold whenListening. run_steps. rewrite Hoff.
  split; [reflexivity |]. split; intros data; reflexivity.
Qed.

Lemma queued_socket_is_never_heard_witness :
  (MAX_PLAYERS <= JsMap.size (players (store eightPlayers)))%nat /\
  ~ In "s9" (listeners eightPlayers) /\
  exists w1,
    react (Connect "s9") steadyHost eightPlayers = Done tt w1 /\
    In "s9" (spectators (store w1)) /\
    react (Disconnect "s9") steadyHost w1 = Done tt w1 /\
    (forall data, react (Move "s9" data) steadyHost w1 = Done tt w1) /\
    (forall data, react (Shoot "s9" data) steadyHost w1 = Done tt w1).
Proof.
  assert (H1 : (MAX_PLAYERS <= JsMap.size (players (store eightPlayers)))%nat)
    by (vm_compute; lia).
  assert (H2 : JsSet.has "s9" (spectators (store eightPlayers)) = false)
    by (vm_compute; reflexivity).
  assert (H3 : ~ In "s9" (listeners eightPlayers)).
  { apply (proj1 (JsSet_has_false "s9" (listeners eightPlayers))).
    vm_compute. reflexivity. }
  split; [exact H1 |]. split; [exact H3 |].
  exact (queued_socket_is_never_heard steadyHost eightPlayers "s9" H1 H2 H3).
Defined.

(** ** What a tick leaves *)


Lemma spawnPowerUp_completes env w :
  spawnPowerUp env w = Done tt (final (spawnPowerUp env w)).
Proof.
  unfold spawnPowerUp. run_steps.
  destruct (Qltb _ _ && _); reflexivity.
Qed.

(** X10.  After a tick, whether it completed or threw, no power-up in the
    store is older than 30 seconds at the [now] of that tick: the sweep that
    follows the spawn step removes the older ones and nothing later in the
    tick adds a power-up. *)
Theorem tick_sweeps_old_powerUps env w :
  Forall (fun e => tickNow env w - PowerUp.spawnTime (snd e) <= 30000)
         (powerUps (store (final (gameLoop env w)))).
Proof.
  unfold gameLoop, tickNow. unfold bind at 1. rewrite (spawnPowerUp_completes env w).
  set (w1 := final (spawnPowerUp env w)).
  unfold bind at 1. unfold dateNow at 1.
  unfold bind at 1. unfold modifyStore at 1.
  match goal with
  | |- context [final (?m env ?w2)] =>
      assert (Hk : keeps (sameOn powerUps) m);
      [| rewrite (Hk env w2) ]
  end.
  - keeps_steps (sameOn_refl powerUps) (sameOn_trans powerUps) (sameOn_store powerUps)
      ltac:(first [ apply updateBullet_keeps_powerUps | same_on_writes ]).
  - cbn [store with_powerUps powerUps]. rewrite Forall_forall. intros e He.
    apply filter_In in He. destruct He as [_ He]. apply negb_true_iff in He.
    rewrite Z.gtb_ltb, Z.ltb_ge in He. exact He.
Qed.

Lemma keeps_bind_done (R : World -> World -> Prop) {A B} (m : M A) (k : A -> M B)
    env w0 w b w' :
  (forall x y z, R x y -> R y z -> R x z) ->
  keeps R m -> R w0 w -> bind m k env w = Done b w' ->
  exists a w1, R w0 w1 /\ k a env w1 = Done b w'.
Proof.
  intros Htrans Hm H0 H. unfold bind in H. specialize (Hm env w).
  destruct (m env w) as [a w1 | w1]; [| discriminate].
  exists a, w1. split; [exact (Htrans _ _ _ H0 Hm) | exact H].
Qed.

Lemma keeps_bind_threw (R : World -> World -> Prop) {A B} (m : M A) (k : A -> M B)
    env w0 w w' :
  (forall x y z, R x y -> R y z -> R x z) ->
  keeps R m -> R w0 w -> bind m k env w = Threw w' ->
  R w0 w' \/ exists a w1, R w0 w1 /\ k a env w1 = Threw w'.
Proof.
  intros Htrans Hm H0 H. unfold bind in H. specialize (Hm env w).
  destruct (m env w) as [a w1 | w1].
  - right. exists a, w1. split; [exact (Htrans _ _ _ H0 Hm) | exact H].
  - left. injection H as <-. exact (Htrans _ _ _ H0 Hm).
Qed.

Lemma bulletsLoop_noSnapshot l : keeps noSnapshot (forOf l updateBullet).
Proof.
  apply (keeps_forOf _ noSnapshot_refl noSnapshot_trans).
  intros entry. apply updateBullet_noSnapshot.
Qed.

(** X11.  A tick that completes emits exactly one [gameUpdate], as the last
    thing it emits, and that snapshot carries the five stores exactly as the
    tick leaves them.  A tick that throws emits no [gameUpdate] at all. *)
Theorem tick_broadcasts_what_it_leaves :
  (forall env w w',
     gameLoop env w = Done tt w' ->
     exists l,
       Forall (fun e => broadcastPlayers e = None) l /\
       outbox w' =
         outbox w ++ l ++
           [IoEmit (gameUpdate (JsMap.values (players (store w')))
                               (JsMap.values (bullets (store w')))
                               (JsMap.values (powerUps (store w')))
                               (JsMap.values (explosions (store w')))
                               (leaderboard (store w')))]) /\
  (forall env w w',
     gameLoop env w = Threw w' ->
     exists l,
       Forall (fun e => broadcastPlayers e = None) l /\
       outbox w' = outbox w ++ l).
Proof.
  split.
  - intros env w w' H. unfold gameLoop in H.
    apply (keeps_bind_done noSnapshot _ _ env w w _ _ noSnapshot_trans
             spawnPowerUp_noSnapshot (noSnapshot_refl w)) in H.
    destruct H as [_ [w1 [R1 H]]].
    apply (keeps_bind_done noSnapshot _ _ env w w1 _ _ noSnapshot_trans
             (keeps_dateNow _ noSnapshot_store) R1) in H.
    destruct H as [now [w2 [R2 H]]].
    apply (keeps_bind_done noSnapshot _ _ env w w2 _ _ noSnapshot_trans
             (keeps_modifyStore_noSnapshot _) R2) in H.
    destruct H as [_ [w3 [R3 H]]].
    apply (keeps_bind_done noSnapshot _ _ env w w3 _ _ noSnapshot_trans
             (keeps_modifyStore_noSnapshot _) R3) in H.
    destruct H as [_ [w4 [R4 H]]].
    apply (keeps_bind_done noSnapshot _ _ env w w4 _ _ noSnapshot_trans
             (keeps_getStore _ noSnapshot_refl) R4) in H.
    destruct H as [st [w5 [R5 H]]].
    apply (keeps_bind_done noSnapshot _ _ env w w5 _ _ noSnapshot_trans
             (bulletsLoop_noSnapshot _) R5) in H.
    destruct H as [_ [w6 [[l [E F]] H]]].
    revert H. run_steps. intros H. injection H as <-.
    exists l. split; [exact F |].
    cbn [store outbox]. rewrite E, <- app_assoc. reflexivity.
  - intros env w w' H. unfold gameLoop in H.
    apply (keeps_bind_threw noSnapshot _ _ env w w _ noSnapshot_trans
             spawnPowerUp_noSnapshot (noSnapshot_refl w)) in H.
    destruct H as [[l [E F]] | [_ [w1 [R1 H]]]]; [exists l; split; assumption |].
    apply (keeps_bind_threw noSnapshot _ _ env w w1 _ noSnapshot_trans
             (keeps_dateNow _ noSnapshot_store) R1) in H.
    destruct H as [[l [E F]] | [now [w2 [R2 H]]]]; [exists l; split; assumption |].
    apply (keeps_bind_threw noSnapshot _ _ env w w2 _ noSnapshot_trans
             (keeps_modifyStore_noSnapshot _) R2) in H.
    destruct H as [[l [E F]] | [_ [w3 [R3 H]]]]; [exists l; split; assumption |].
    apply (keeps_bind_threw noSnapshot _ _ env w w3 _ noSnapshot_trans
             (keeps_modifyStore_noSnapshot _) R3) in H.
    destruct H as [[l [E F]] | [_ [w4 [R4 H]]]]; [exists l; split; assumption |].
    apply (keeps_bind_threw noSnapshot _ _ env w w4 _ noSnapshot_trans
             (keeps_getStore _ noSnapshot_refl) R4) in H.
    destruct H as [[l [E F]] | [st [w5 [R5 H]]]]; [exists l; split; assumption |].
    apply (keeps_bind_threw noSnapshot _ _ env w w5 _ noSnapshot_trans
             (bulletsLoop_noSnapshot _) R5) in H.
    destruct H as [[l [E F]] | [_ [w6 [R6 H]]]]; [exists l; split; assumption |].
    revert H. run_steps. discriminate.
Qed.

Lemma tick_broadcasts_what_it_leaves_witness :
  (gameLoop steadyHost initialWorld = Done tt (final (gameLoop steadyHost initialWorld)) /\
   exists l,
     Forall (fun e => broadcastPlayers e = None) l /\
     outbox (final (gameLoop steadyHost initialWorld)) =
       outbox initialWorld ++ l ++
         [IoEmit (gameUpdate
                    (JsMap.values (players (store (final (gameLoop steadyHost initialWorld)))))
                    (JsMap.values (bullets (store (final (gameLoop steadyHost initialWorld)))))
                    (JsMap.values (powerUps (store (final (gameLoop steadyHost initialWorld)))))
                    (JsMap.values (explosions (store (final (gameLoop steadyHost initialWorld)))))
                    (leaderboard (store (final (gameLoop steadyHost initialWorld)))))]) /\
  (gameLoop steadyHost beforePromotedHit
     = Threw (final (gameLoop steadyHost beforePromotedHit)) /\
   exists l,
     Forall (fun e => broadcastPlayers e = None) l /\
     outbox (final (gameLoop steadyHost beforePromotedHit)) = outbox beforePromotedHit ++ l).
Proof.
  assert (H1 : gameLoop steadyHost initialWorld
               = Done tt (final (gameLoop steadyHost initialWorld)))
    by (vm_compute; reflexivity).
  assert (H2 : gameLoop steadyHost beforePromotedHit
               = Threw (final (gameLoop steadyHost beforePromotedHit)))
    by (vm_compute; reflexivity).
  split.
  - split; [exact H1 |].
    exact (proj1 tick_broadcasts_what_it_leaves steadyHost initialWorld _ H1).
  - split; [exact H2 |].
    exact (proj2 tick_broadcasts_what_it_leaves steadyHost beforePromotedHit _ H2).
Defined.

(** ** Bullets and the game area *)























(** ** A bullet that hits *)

(** X13.  A hit on a player who has no active shield and more health than
    the bullet's damage completes with [break]: the player stored under that
    id has exactly that damage less health and is otherwise as before, every
    other player is untouched, the bullet is gone, the leaderboard is as it
    was, and the only message is one [playerHit] broadcast. *)
Theorem hit_takes_the_damage env w bulletId bullet playerId player eff h :
  JsMap.get playerId (players (store w)) = Some player ->
  Player.powerUps player = Some eff ->
  Effects.shield eff <= Date_now env (clockReads w) ->
  Player.health player = Num h ->
  bulletDamage bullet < h ->
  exists w',
    onBulletHit bulletId bullet playerId player env w = Done Break w' /\
    JsMap.get playerId (players (store w')) =
      Some (Player.with_health (Num (h - bulletDamage bullet)) player) /\
    (forall k, k <> playerId ->
       JsMap.get k (players (store w')) = JsMap.get k (players (store w))) /\
    bullets (store w') = JsMap.delete bulletId (bullets (store w)) /\
    leaderboard (store w') = leaderboard (store w) /\
    outbox w' =
      outbox w ++
        [IoEmit (playerHit playerId (Bullet.playerId bullet) (bulletDamage bullet)
                           (Bullet.x bullet) (Bullet.y bullet))].
Proof.
  intros Hget Heff Hshield Hh Halive.
  unfold onBulletHit, createExplosion. rewrite Heff. run_steps.
  assert (Hs : (Effects.shield eff >? Date_now env (clockReads w)) = false)
    by (rewrite Z.gtb_ltb; apply Z.ltb_ge; exact Hshield).
  rewrite Hs. run_steps.
  cbn [Player.health Player.with_health]. rewrite Hh. cbn [Js.sub Js.le].
  assert (Hl : (h - bulletDamage bullet <=? 0) = false) by (apply Z.leb_gt; lia).
  rewrite Hl. run_steps.
  eexists. split; [reflexivity |].
  cbn [store players bullets leaderboard outbox].
  split; [rewrite JsMap_get_update_same, Hget; cbn [option_map]; rewrite Hh; reflexivity |].
  split.
  { intros k Hk. apply JsMap_get_update_other. apply String.eqb_neq. congruence. }
  repeat split.
Qed.

Lemma hit_takes_the_damage_witness :
  JsMap.get "a" (players (store shieldWorld)) = Some shieldedPlayer /\
  Effects.shield (Effects.mk 0 1700000000001 0 0)
    <= Date_now busyHost (clockReads (mkWorld (store shieldWorld) [] [] 5 0)) /\
  bulletDamage incomingBullet < 100 /\
  exists w',
    onBulletHit "k" incomingBullet "a" shieldedPlayer busyHost
      (mkWorld (store shieldWorld) [] [] 5 0) = Done Break w' /\
    JsMap.get "a" (players (store w')) =
      Some (Player.with_health (Num (100 - bulletDamage incomingBullet)) shieldedPlayer) /\
    (forall k, k <> "a" ->
       JsMap.get k (players (store w')) = JsMap.get k (players (store shieldWorld))) /\
    bullets (store w') = JsMap.delete "k" (bullets (store shieldWorld)) /\
    leaderboard (store w') = leaderboard (store shieldWorld) /\
    outbox w' =
      [] ++
        [IoEmit (playerHit "a" (Bullet.playerId incomingBullet) (bulletDamage incomingBullet)
                           (Bullet.x incomingBullet) (Bullet.y incomingBullet))].
Proof.
  assert (H1 : JsMap.get "a" (players (store shieldWorld)) = Some shieldedPlayer)
    by reflexivity.
  assert (H2 : Effects.shield (Effects.mk 0 1700000000001 0 0)
               <= Date_now busyHost (clockReads (mkWorld (store shieldWorld) [] [] 5 0)))
    by (vm_compute; discriminate).
  assert (H3 : bulletDamage incomingBullet < 100) by (vm_compute; reflexivity).
  split; [exact H1 |]. split; [exact H2 |]. split; [exact H3 |].
  exact (hit_takes_the_damage busyHost (mkWorld (store shieldWorld) [] [] 5 0)
           "k" incomingBullet "a" shieldedPlayer (Effects.mk 0 1700000000001 0 0) 100
           H1 eq_refl H2 eq_refl H3).
Defined.

Lemma kills_kept_update k (f : Player.t -> Player.t) ps :
  (forall p, Player.kills p <> Undefined -> Player.kills (f p) <> Undefined) ->
  Forall (fun e => Player.kills (snd e) <> Undefined) ps ->
  Forall (fun e => Player.kills (snd e) <> Undefined) (JsMap.update k f ps).
Proof.
  intros Hf H. apply (JsMap_update_Forall (fun p => Player.kills p <> Undefined)); [| exact H].
  intros e _ _ He. apply Hf. exact He.
Qed.

(** The outcome of a fatal hit, in full but for the explosions. *)
Lemma onBulletHit_fatal env w bulletId bullet playerId player eff h sh :
  JsMap.get playerId (players (store w)) = Some player ->
  Player.powerUps player = Some eff ->
  Effects.shield eff <= Date_now env (clockReads w) ->
  Player.health player = Num h ->
  h <= bulletDamage bullet ->
  String.eqb playerId (Bullet.playerId bullet) = false ->
  JsMap.get (Bullet.playerId bullet) (players (store w)) = Some sh ->
  exists seated es cr rd,
    onBulletHit bulletId bullet playerId player env w =
      match playerStats (JsMap.values seated) with
      | Some stats =>
          Done Break
            (mkWorld
               (mkStore seated (JsMap.delete bulletId (bullets (store w)))
                        (spectators (store w)) (powerUps (store w)) es
                        (firstn 10 (sortByScore stats)))
               (listeners w)
               ((outbox w ++
                 [IoEmit (playerHit playerId (Bullet.playerId bullet) (bulletDamage bullet)
                                    (Bullet.x bullet) (Bullet.y bullet))]) ++
                [IoEmit (playerKilled (Player.score sh + 2) (Player.score player)
                                      (Player.color sh) (Player.color player))])
               cr rd)
      | None =>
          Threw
            (mkWorld
               (mkStore seated (JsMap.delete bulletId (bullets (store w)))
                        (spectators (store w)) (powerUps (store w)) es
                        (leaderboard (store w)))
               (listeners w)
               ((outbox w ++
                 [IoEmit (playerHit playerId (Bullet.playerId bullet) (bulletDamage bullet)
                                    (Bullet.x bullet) (Bullet.y bullet))]) ++
                [IoEmit (playerKilled (Player.score sh + 2) (Player.score player)
                                      (Player.color sh) (Player.color player))])
               cr rd)
      end /\
    seated =
      JsMap.update playerId
        (fun p =>
           Player.with_powerUps (Some Effects.cleared)
             (Player.with_y
                (Math_random env (S (S (S (randomDraws w)))) * (GAME_HEIGHT - TANK_SIZE))%Q
                (Player.with_x
                   (Math_random env (S (S (randomDraws w))) * (GAME_WIDTH - TANK_SIZE))%Q
                   (Player.with_health (Player.maxHealth p) p))))
        (JsMap.update playerId
           (fun p => Player.with_deaths (Js.add (Player.deaths p) (Num 1)) p)
           (JsMap.update (Bullet.playerId bullet)
              (fun p => Player.with_kills (Js.add (Player.kills p) (Num 1))
                          (Player.with_score (Player.score p + 2) p))
              (JsMap.update playerId
                 (fun p => Player.with_health
                             (Js.sub (Player.health p) (Num (bulletDamage bullet))) p)
                 (players (store w))))).
Proof.
  intros Hget Heff Hshield Hh Hdead Hother Hsh.
  unfold onBulletHit, createExplosion. rewrite Heff. run_steps.
  assert (Hs : (Effects.shield eff >? Date_now env (clockReads w)) = false)
    by (rewrite Z.gtb_ltb; apply Z.ltb_ge; exact Hshield).
  rewrite Hs. run_steps.
  cbn [Player.health Player.with_health]. rewrite Hh. cbn [Js.sub Js.le].
  assert (Hl : (h - bulletDamage bullet <=? 0) = true) by (apply Z.leb_le; lia).
  rewrite Hl.
  unfold playerDied, createExplosion, updateLeaderboard. run_steps.
  rewrite JsMap_get_update_other by (exact Hother). rewrite Hsh. run_steps.
  eexists. eexists. eexists. eexists. split; [| reflexivity].
  match goal with
  | |- context [playerStats ?x] => destruct (playerStats x)
  end; reflexivity.
Qed.

(** X14.  A hit on a player who has no active shield and no more health
    than the bullet's damage, fired by another seated player: whether the
    recomputation of the leaderboard then completes or throws, the victim is
    still stored, with [health] set to the [maxHealth] it had, one more
    death, all effects cleared, the same score and a newly drawn position;
    the shooter has 2 more score and one more kill; nobody is added or
    removed; the bullet is gone; and [playerHit] and then [playerKilled] are
    broadcast, the latter with the shooter's new score.  When every stored
    player has a [kills] field the whole step completes with [break]. *)
Theorem kill_resets_the_victim env w bulletId bullet playerId player eff h sh :
  JsMap.get playerId (players (store w)) = Some player ->
  Player.powerUps player = Some eff ->
  Effects.shield eff <= Date_now env (clockReads w) ->
  Player.health player = Num h ->
  h <= bulletDamage bullet ->
  String.eqb playerId (Bullet.playerId bullet) = false ->
  JsMap.get (Bullet.playerId bullet) (players (store w)) = Some sh ->
  exists victim killer,
    JsMap.get playerId
      (players (store (final (onBulletHit bulletId bullet playerId player env w))))
      = Some victim /\
    Player.health victim = Player.maxHealth player /\
    Player.deaths victim = Js.add (Player.deaths player) (Num 1) /\
    Player.powerUps victim = Some Effects.cleared /\
    Player.score victim = Player.score player /\
    Player.x victim = (Math_random env (S (S (randomDraws w))) * (GAME_WIDTH - TANK_SIZE))%Q /\
    Player.y victim
      = (Math_random env (S (S (S (randomDraws w)))) * (GAME_HEIGHT - TANK_SIZE))%Q /\
    JsMap.get (Bullet.playerId bullet)
      (players (store (final (onBulletHit bulletId bullet playerId player env w))))
      = Some killer /\
    Player.score killer = Player.score sh + 2 /\
    Player.kills killer = Js.add (Player.kills sh) (Num 1) /\
    Player.health killer = Player.health sh /\
    JsMap.keys (players (store (final (onBulletHit bulletId bullet playerId player env w))))
      = JsMap.keys (players (store w)) /\
    bullets (store (final (onBulletHit bulletId bullet playerId player env w)))
      = JsMap.delete bulletId (bullets (store w)) /\
    outbox (final (onBulletHit bulletId bullet playerId player env w)) =
      outbox w ++
        [ IoEmit (playerHit playerId (Bullet.playerId bullet) (bulletDamage bullet)
                            (Bullet.x bullet) (Bullet.y bullet));
          IoEmit (playerKilled (Player.score sh + 2) (Player.score player)
                               (Player.color sh) (Player.color player)) ] /\
    (Forall (fun e => Player.kills (snd e) <> Undefined) (players (store w)) ->
     onBulletHit bulletId bullet playerId player env w =
       Done Break (final (onBulletHit bulletId bullet playerId player env w))).
Proof.
  intros Hget Heff Hshield Hh Hdead Hother Hsh.
  assert (Hother' : String.eqb (Bullet.playerId bullet) playerId = false)
    by (rewrite String.eqb_sym; exact Hother).
  destruct (onBulletHit_fatal env w bulletId bullet playerId player eff h sh
              Hget Heff Hshield Hh Hdead Hother Hsh)
    as [seated [es [cr [rd [Hrun Hseated]]]]].
  rewrite Hrun. clear Hrun.
  assert (Hvictim : JsMap.get playerId seated =
            Some (Player.with_powerUps (Some Effects.cleared)
                    (Player.with_y
                       (Math_random env (S (S (S (randomDraws w)))) * (GAME_HEIGHT - TANK_SIZE))%Q
                       (Player.with_x
                          (Math_random env (S (S (randomDraws w))) * (GAME_WIDTH - TANK_SIZE))%Q
                          (Player.with_health (Player.maxHealth player)
                             (Player.with_deaths (Js.add (Player.deaths player) (Num 1))
                                (Player.with_health
                                   (Js.sub (Player.health player) (Num (bulletDamage bullet)))
                                   player))))))).
  { rewrite Hseated.
    rewrite !JsMap_get_update_same, (JsMap_get_update_other _ _ _ _ Hother'),
      JsMap_get_update_same, Hget.
    reflexivity. }
  assert (Hkiller : JsMap.get (Bullet.playerId bullet) seated =
            Some (Player.with_kills (Js.add (Player.kills sh) (Num 1))
                    (Player.with_score (Player.score sh + 2) sh))).
  { rewrite Hseated.
    rewrite !(JsMap_get_update_other _ _ _ _ Hother), JsMap_get_update_same,
      (JsMap_get_update_other _ _ _ _ Hother), Hsh.
    reflexivity. }
  assert (Hkeys : JsMap.keys seated = JsMap.keys (players (store w)))
    by (rewrite Hseated, !JsMap_keys_update; reflexivity).
  assert (Hstats :
            Forall (fun e => Player.kills (snd e) <> Undefined) (players (store w)) ->
            exists stats, playerStats (JsMap.values seated) = Some stats).
  { intros Hk. apply playerStats_some. intros p Hp.
    assert (Hall : Forall (fun e => Player.kills (snd e) <> Undefined) seated).
    { rewrite Hseated.
      repeat (apply kills_kept_update;
              [intros q Hq; cbn [Player.kills Player.with_powerUps Player.with_y Player.with_x
                                 Player.with_health Player.with_deaths Player.with_kills
                                 Player.with_score];
               first [ exact Hq
                     | destruct (Player.kills q); [congruence | discriminate | discriminate] ]
              |]).
      exact Hk. }
    unfold JsMap.values in Hp. apply in_map_iff in Hp. destruct Hp as [e [<- He]].
    rewrite Forall_forall in Hall. exact (Hall e He). }
  clear Hseated.
  eexists. eexists.
  destruct (playerStats (JsMap.values seated)) as [stats |] eqn:Hps;
    cbn [final store players bullets outbox];
    (split; [exact Hvictim |]); do 6 (split; [reflexivity |]);
    (split; [exact Hkiller |]); do 3 (split; [reflexivity |]);
    (split; [exact Hkeys |]);
    (split; [reflexivity |]); (split; [rewrite <- !app_assoc; reflexivity |]).
  - intros _. reflexivity.
  - intros Hk. destruct (Hstats Hk) as [stats Hstats']. discriminate Hstats'.
Qed.

Lemma kill_resets_the_victim_witness :
  JsMap.get "a" (players (store lastHitWorld))
    = Some (Player.with_health (Num 25) shieldedPlayer) /\
  Effects.shield (Effects.mk 0 1700000000001 0 0)
    <= Date_now busyHost (clockReads lastHitWorld) /\
  25 <= bulletDamage incomingBullet /\
  JsMap.get (Bullet.playerId incomingBullet) (players (store lastHitWorld)) = Some opponent /\
  exists victim killer,
    JsMap.get "a"
      (players (store (final (onBulletHit "k" incomingBullet "a"
                                (Player.with_health (Num 25) shieldedPlayer)
                                busyHost lastHitWorld))))
      = Some victim /\
    Player.health victim = Player.maxHealth (Player.with_health (Num 25) shieldedPlayer) /\
    Player.deaths victim
      = Js.add (Player.deaths (Player.with_health (Num 25) shieldedPlayer)) (Num 1) /\
    Player.powerUps victim = Some Effects.cleared /\
    Player.score victim = Player.score (Player.with_health (Num 25) shieldedPlayer) /\
    Player.x victim
      = (Math_random busyHost (S (S (randomDraws lastHitWorld))) * (GAME_WIDTH - TANK_SIZE))%Q /\
    Player.y victim
      = (Math_random busyHost (S (S (S (randomDraws lastHitWorld))))
         * (GAME_HEIGHT - TANK_SIZE))%Q /\
    JsMap.get (Bullet.playerId incomingBullet)
      (players (store (final (onBulletHit "k" incomingBullet "a"
                                (Player.with_health (Num 25) shieldedPlayer)
                                busyHost lastHitWorld))))
      = Some killer /\
    Player.score killer = Player.score opponent + 2 /\
    Player.kills killer = Js.add (Player.kills opponent) (Num 1) /\
    Player.health killer = Player.health opponent /\
    JsMap.keys
      (players (store (final (onBulletHit "k" incomingBullet "a"
                                (Player.with_health (Num 25) shieldedPlayer)
                                busyHost lastHitWorld))))
      = JsMap.keys (players (store lastHitWorld)) /\
    bullets (store (final (onBulletHit "k" incomingBullet "a"
                             (Player.with_health (Num 25) shieldedPlayer)
                             busyHost lastHitWorld)))
      = JsMap.delete "k" (bullets (store lastHitWorld)) /\
    outbox (final (onBulletHit "k" incomingBullet "a"
                     (Player.with_health (Num 25) shieldedPlayer) busyHost lastHitWorld)) =
      outbox lastHitWorld ++
        [ IoEmit (playerHit "a" (Bullet.playerId incomingBullet) (bulletDamage incomingBullet)
                            (Bullet.x incomingBullet) (Bullet.y incomingBullet));
          IoEmit (playerKilled (Player.score opponent + 2)
                               (Player.score (Player.with_health (Num 25) shieldedPlayer))
                               (Player.color opponent)
                               (Player.color (Player.with_health (Num 25) shieldedPlayer))) ] /\
    (Forall (fun e => Player.kills (snd e) <> Undefined) (players (store lastHitWorld)) ->
     onBulletHit "k" incomingBullet "a" (Player.with_health (Num 25) shieldedPlayer)
       busyHost lastHitWorld =
       Done Break (final (onBulletHit "k" incomingBullet "a"
                            (Player.with_health (Num 25) shieldedPlayer)
                            busyHost lastHitWorld))).
Proof.
  assert (H1 : JsMap.get "a" (players (store lastHitWorld))
               = Some (Player.with_health (Num 25) shieldedPlayer))
    by (vm_compute; reflexivity).
  assert (H2 : Effects.shield (Effects.mk 0 1700000000001 0 0)
               <= Date_now busyHost (clockReads lastHitWorld))
    by (vm_compute; discriminate).
  assert (H3 : 25 <= bulletDamage incomingBullet) by (vm_compute; discriminate).
  assert (H4 : JsMap.get (Bullet.playerId incomingBullet) (players (store lastHitWorld))
               = Some opponent)
    by (vm_compute; reflexivity).
  split; [exact H1 |]. split; [exact H2 |]. split; [exact H3 |]. split; [exact H4 |].
  exact (kill_resets_the_victim busyHost lastHitWorld "k" incomingBullet "a"
           (Player.with_health (Num 25) shieldedPlayer) (Effects.mk 0 1700000000001 0 0)
           25 opponent H1 eq_refl H2 eq_refl H3 eq_refl H4).
Defined.

Lemma ownerSpared_refl owner w : ownerSpared owner w w.
Proof. reflexivity. Qed.

Lemma ownerSpared_trans owner a b c :
  ownerSpared owner a b -> ownerSpared owner b c -> ownerSpared owner a c.
Proof. unfold ownerSpared. congruence. Qed.

Lemma ownerSpared_store owner w w' :
  store w' = store w -> outbox w' = outbox w -> ownerSpared owner w w'.
Proof. unfold ownerSpared. intros -> _. reflexivity. Qed.

Lemma spared_frame owner g :
  (forall s, players (g s) = players s) -> keeps (ownerSpared owner) (modifyStore g).
Proof. intros H env w. unfold ownerSpared, modifyStore, final. cbn [store]. rewrite H. reflexivity. Qed.

Lemma spared_other owner k f :
  String.eqb k owner = false ->
  keeps (ownerSpared owner) (modifyStore (with_players (JsMap.update k f))).
Proof.
  intros Hne env w. unfold ownerSpared, modifyStore, final. cbn [store with_players players].
  rewrite (JsMap_get_update_other _ _ _ _ Hne). reflexivity.
Qed.

Lemma spared_vitals owner k f :
  (forall p, vitals (f p) = vitals p) ->
  keeps (ownerSpared owner) (modifyStore (with_players (JsMap.update k f))).
Proof.
  intros Hf env w. unfold ownerSpared, modifyStore, final. cbn [store with_players players].
  destruct (String.eqb k owner) eqn:E.
  - apply String.eqb_eq in E. subst k. rewrite JsMap_get_update_same.
    destruct (JsMap.get owner (players (store w))); cbn [option_map]; [| reflexivity].
    rewrite Hf. reflexivity.
  - rewrite (JsMap_get_update_other _ _ _ _ E). reflexivity.
Qed.

Lemma onBulletHit_spares bulletId bullet playerId player :
  String.eqb playerId (Bullet.playerId bullet) = false ->
  keeps (ownerSpared (Bullet.playerId bullet)) (onBulletHit bulletId bullet playerId player).
Proof.
  intros Hne.
  unfold onBulletHit, playerDied, createExplosion, updateLeaderboard, mutatePlayer.
  keeps_steps (ownerSpared_refl (Bullet.playerId bullet))
              (ownerSpared_trans (Bullet.playerId bullet))
              (ownerSpared_store (Bullet.playerId bullet))
    ltac:(idtac;
          lazymatch goal with
          | |- keeps _ (emit _) => intros ? ?; reflexivity
          | |- keeps _ (modifyStore (with_players (JsMap.update _ _))) =>
              first [ apply spared_other; exact Hne
                    | apply spared_vitals; intros ?; reflexivity ]
          | |- keeps _ (modifyStore _) => apply spared_frame; intros ?; reflexivity
          end).
Qed.

Lemma hitPlayers_spares bulletId bullet entries :
  keeps (ownerSpared (Bullet.playerId bullet)) (hitPlayers bulletId bullet entries).
Proof.
  unfold hitPlayers.
  apply (keeps_forOf _ (ownerSpared_refl _) (ownerSpared_trans _)).
  intros [playerId player]. cbv zeta. cbn [fst snd].
  destruct (String.eqb playerId (Bullet.playerId bullet)) eqn:E.
  - apply (keeps_ret _ (ownerSpared_refl _)).
  - destruct (checkCollision _ _).
    + apply onBulletHit_spares. exact E.
    + apply (keeps_ret _ (ownerSpared_refl _)).
Qed.

(** X15.  A bullet never harms the player who fired it: whatever the
    iteration of the bullet loop for that bullet does, and whether it
    completes or throws, the player stored under the bullet's [playerId] has
    the health, deaths, position and effects it had. *)
Theorem bullet_spares_its_owner env w entry :
  option_map vitals
    (JsMap.get (Bullet.playerId (snd entry))
       (players (store (final (updateBullet entry env w)))))
  = option_map vitals (JsMap.get (Bullet.playerId (snd entry)) (players (store w))).
Proof.
  assert (H : keeps (ownerSpared (Bullet.playerId (snd entry))) (updateBullet entry)).
  { unfold updateBullet. cbv zeta.
    keeps_steps (ownerSpared_refl (Bullet.playerId (snd entry)))
                (ownerSpared_trans (Bullet.playerId (snd entry)))
                (ownerSpared_store (Bullet.playerId (snd entry)))
      ltac:(idtac;
            lazymatch goal with
            | |- keeps _ (hitPlayers _ _ _) =>
                apply (hitPlayers_spares _ (advance (snd entry)))
            | |- keeps _ (modifyStore _) => apply spared_frame; intros ?; reflexivity
            end). }
  exact (H env w).
Qed.

(** ** What the leaderboard lists *)

Lemma insertByScore_perm a l : Permutation (insertByScore a l) (a :: l).
Proof.
  induction l as [| b l IH]; simpl; [reflexivity |].
  destruct (LeaderEntry.score b >? LeaderEntry.score a); [| reflexivity].
  rewrite IH. apply perm_swap.
Qed.

Lemma sortByScore_perm l : Permutation (sortByScore l) l.
Proof.
  unfold sortByScore. induction l as [| a l IH]; simpl; [reflexivity |].
  rewrite insertByScore_perm. constructor. exact IH.
Qed.

Lemma playerStats_entries ps : forall stats,
  playerStats ps = Some stats -> Forall2 entryOf ps stats.
Proof.
  induction ps as [| p ps IH]; simpl; intros stats H.
  - injection H as <-. constructor.
  - destruct (kdText p) as [kd |]; [| discriminate].
    destruct (playerStats ps) as [es |]; [| discriminate].
    injection H as <-. constructor; [| apply IH; reflexivity].
    repeat split.
Qed.

Lemma Forall2_In_l {A B} (R : A -> B -> Prop) l1 l2 a :
  Forall2 R l1 l2 -> In a l1 -> exists b, In b l2 /\ R a b.
Proof.
  intros H. induction H as [| x y l1 l2 Hxy H IH]; intros Hin; [destruct Hin |].
  destruct Hin as [<- | Hin].
  - exists y. split; [left; reflexivity | exact Hxy].
  - destruct (IH Hin) as [b [Hb Hab]]. exists b. split; [right; exact Hb | exact Hab].
Qed.

Lemma Forall2_In_r {A B} (R : A -> B -> Prop) l1 l2 b :
  Forall2 R l1 l2 -> In b l2 -> exists a, In a l1 /\ R a b.
Proof.
  intros H. induction H as [| x y l1 l2 Hxy H IH]; intros Hin; [destruct Hin |].
  destruct Hin as [<- | Hin].
  - exists x. split; [left; reflexivity | exact Hxy].
  - destruct (IH Hin) as [a [Ha Hab]]. exists a. split; [right; exact Ha | exact Hab].
Qed.

(** X16.  Whenever [updateLeaderboard] completes, the leaderboard has as
    many entries as there are players, but ten at most; every entry carries
    the id, score, kills and deaths of a stored player; the first entry has
    the highest score of all stored players, listed or not; and when there
    are no more than ten players each of them is listed.  The stores other
    than the leaderboard are left as they are. *)
Theorem leaderboard_lists_the_top_players env w w' :
  updateLeaderboard env w = Done tt w' ->
  List.length (leaderboard (store w')) = Nat.min 10 (JsMap.size (players (store w))) /\
  (forall e, In e (leaderboard (store w')) ->
     exists p, In p (JsMap.values (players (store w))) /\ entryOf p e) /\
  (forall top p,
     hd_error (leaderboard (store w')) = Some top ->
     In p (JsMap.values (players (store w))) ->
     LeaderEntry.score top >= Player.score p) /\
  ((JsMap.size (players (store w)) <= 10)%nat ->
   forall p, In p (JsMap.values (players (store w))) ->
     exists e, In e (leaderboard (store w')) /\ entryOf p e) /\
  players (store w') = players (store w) /\
  bullets (store w') = bullets (store w) /\
  outbox w' = outbox w.
Proof.
  unfold updateLeaderboard, bind, getStore.
  destruct (playerStats (JsMap.values (players (store w)))) as [stats |] eqn:Hstats;
    [| discriminate].
  unfold modifyStore, with_leaderboard. intros H. injection H as <-.
  change (leaderboard (store _)) with (firstn 10 (sortByScore stats)).
  cbn [store players bullets outbox].
  pose proof (playerStats_entries _ _ Hstats) as Hent.
  pose proof (sortByScore_perm stats) as Hperm.
  assert (Hlen : List.length (sortByScore stats) = JsMap.size (players (store w))).
  { rewrite (Permutation_length Hperm), <- (Forall2_length Hent).
    unfold JsMap.values, JsMap.size. apply length_map. }
  split; [rewrite length_firstn, Hlen; reflexivity |].
  split.
  { intros e He. apply in_firstn in He.
    apply (Permutation_in _ Hperm) in He.
    exact (Forall2_In_r _ _ _ _ Hent He). }
  split.
  { intros top p Htop Hp.
    destruct (Forall2_In_l _ _ _ _ Hent Hp) as [e [He [_ [Hscore _]]]].
    apply (Permutation_in _ (Permutation_sym Hperm)) in He.
    pose proof (sortByScore_sorted stats) as Hsorted.
    destruct (sortByScore stats) as [| first rest]; [destruct He |].
    cbn [firstn hd_error] in Htop. injection Htop as <-.
    rewrite <- Hscore. destruct He as [<- | He]; [lia |].
    inversion Hsorted as [| x xs _ Hall]; subst.
    rewrite Forall_forall in Hall. exact (Hall e He). }
  split; [| repeat split].
  intros Hfew p Hp.
  destruct (Forall2_In_l _ _ _ _ Hent Hp) as [e [He Hpe]].
  exists e. split; [| exact Hpe].
  rewrite firstn_all2 by (rewrite Hlen; exact Hfew).
  exact (Permutation_in _ (Permutation_sym Hperm) He).
Qed.

Lemma leaderboard_lists_the_top_players_witness :
  updateLeaderboard steadyHost eightPlayers
    = Done tt (final (updateLeaderboard steadyHost eightPlayers)) /\
  List.length (leaderboard (store (final (updateLeaderboard steadyHost eightPlayers))))
    = Nat.min 10 (JsMap.size (players (store eightPlayers))) /\
  (forall e, In e (leaderboard (store (final (updateLeaderboard steadyHost eightPlayers)))) ->
     exists p, In p (JsMap.values (players (store eightPlayers))) /\ entryOf p e) /\
  (forall top p,
     hd_error (leaderboard (store (final (updateLeaderboard steadyHost eightPlayers))))
       = Some top ->
     In p (JsMap.values (players (store eightPlayers))) ->
     LeaderEntry.score top >= Player.score p) /\
  ((JsMap.size (players (store eightPlayers)) <= 10)%nat ->
   forall p, In p (JsMap.values (players (store eightPlayers))) ->
     exists e,
       In e (leaderboard (store (final (updateLeaderboard steadyHost eightPlayers)))) /\
       entryOf p e) /\
  players (store (final (updateLeaderboard steadyHost eightPlayers)))
    = players (store eightPlayers) /\
  bullets (store (final (updateLeaderboard steadyHost eightPlayers)))
    = bullets (store eightPlayers) /\
  outbox (final (updateLeaderboard steadyHost eightPlayers)) = outbox eightPlayers.
Proof.
  assert (H : updateLeaderboard steadyHost eightPlayers
              = Done tt (final (updateLeaderboard steadyHost eightPlayers)))
    by (vm_compute; reflexivity).
  split; [exact H |].
  exact (leaderboard_lists_the_top_players steadyHost eightPlayers _ H).
Defined.

(** ** Picking up a power-up *)

Lemma applyPowerUp_done env w key player powerUp eff :
  Player.powerUps player = Some eff ->
  exists w1,
    applyPowerUp key player powerUp env w = Done tt w1 /\
    powerUps (store w1) = powerUps (store w) /\
    outbox w1 = outbox w /\
    clockReads w1 = S (clockReads w).
Proof.
  intros Heff. unfold applyPowerUp, setEffect. rewrite Heff.
  destruct (PowerUp.kind powerUp); run_steps; eexists; (split; [reflexivity |]);
    repeat split.
Qed.

Lemma collectPowerUp_passes socketId player before rest env w :
  (forall e, In e before ->
     checkCollision (playerRect player) (powerUpRect (snd e)) = false) ->
  collectPowerUp socketId player (before ++ rest) env w =
  collectPowerUp socketId player rest env w.
Proof.
  unfold collectPowerUp. induction before as [| entry before IH]; intros H.
  - reflexivity.
  - cbn [app forOf]. cbv zeta. unfold bind at 1.
    pose proof (H entry (or_introl eq_refl)) as Hmiss.
    unfold playerRect, powerUpRect in Hmiss. rewrite Hmiss. unfold ret at 1.
    apply IH. intros e He. apply H. right. exact He.
Qed.

(** X17.  The pick-up loop of a move takes the first power-up, in store
    order, whose 30 x 30 box overlaps the tank, and only that one: its effect
    is applied, it is deleted from the store, [powerUpCollected] with its
    type and effect goes to the moving socket alone, and the power-ups that
    come after it are not looked at, so that the outcome is the one the loop
    has when they are cut off.  When no power-up overlaps the tank the loop
    changes nothing. *)
Theorem first_overlapping_powerUp_is_collected :
  (forall env w socketId player eff before powerUpId powerUp after,
     Player.powerUps player = Some eff ->
     (forall e, In e before ->
        checkCollision (playerRect player) (powerUpRect (snd e)) = false) ->
     checkCollision (playerRect player) (powerUpRect powerUp) = true ->
     exists w',
       collectPowerUp socketId player (before ++ (powerUpId, powerUp) :: after) env w
         = Done tt w' /\
       powerUps (store w') = JsMap.delete powerUpId (powerUps (store w)) /\
       players (store w')
         = players (store (final (applyPowerUp socketId player powerUp env w))) /\
       outbox w' =
         outbox w ++
           [SocketEmit socketId
              (powerUpCollected (PowerUpType.type (PowerUp.kind powerUp))
                                (PowerUpType.effect (PowerUp.kind powerUp)))] /\
       collectPowerUp socketId player (before ++ [(powerUpId, powerUp)]) env w
         = Done tt w') /\
  (forall env w socketId player entries,
     (forall e, In e entries ->
        checkCollision (playerRect player) (powerUpRect (snd e)) = false) ->
     collectPowerUp socketId player entries env w = Done tt w).
Proof.
  split.
  - intros env w socketId player eff before powerUpId powerUp after Heff Hbefore Hhit.
    rewrite !(collectPowerUp_passes _ _ before _ _ _ Hbefore).
    unfold collectPowerUp. cbn [forOf fst snd]. cbv zeta.
    unfold playerRect, powerUpRect in Hhit. rewrite Hhit.
    destruct (applyPowerUp_done env w socketId player powerUp eff Heff)
      as [w1 [Hrun [Hpu [Hout _]]]].
    run_steps. rewrite Hrun. cbn [final].
    eexists. split; [reflexivity |].
    cbn [store powerUps players outbox]. rewrite Hpu, Hout. repeat split.
  - intros env w socketId player entries Hmiss.
    rewrite <- (app_nil_r entries). rewrite (collectPowerUp_passes _ _ entries _ _ _ Hmiss).
    reflexivity.
Qed.

Lemma first_overlapping_powerUp_is_collected_witness :
  (checkCollision (playerRect boostedPlayer)
     (powerUpRect (PowerUp.mk "s" 110 110 SHIELD 1700000000000)) = true /\
   exists w',
     collectPowerUp "a" boostedPlayer
       ([("far", PowerUp.mk "far" 500 500 SPEED 1700000000000)] ++
        ("s", PowerUp.mk "s" 110 110 SHIELD 1700000000000) ::
        [("h", PowerUp.mk "h" 120 120 HEALTH 1700000000000)])
       busyHost pickUpWorld = Done tt w' /\
     powerUps (store w') = JsMap.delete "s" (powerUps (store pickUpWorld)) /\
     players (store w')
       = players (store (final (applyPowerUp "a" boostedPlayer
                                  (PowerUp.mk "s" 110 110 SHIELD 1700000000000)
                                  busyHost pickUpWorld))) /\
     outbox w' =
       outbox pickUpWorld ++
         [SocketEmit "a"
            (powerUpCollected
               (PowerUpType.type (PowerUp.kind (PowerUp.mk "s" 110 110 SHIELD 1700000000000)))
               (PowerUpType.effect
                  (PowerUp.kind (PowerUp.mk "s" 110 110 SHIELD 1700000000000))))] /\
     collectPowerUp "a" boostedPlayer
       ([("far", PowerUp.mk "far" 500 500 SPEED 1700000000000)] ++
        [("s", PowerUp.mk "s" 110 110 SHIELD 1700000000000)])
       busyHost pickUpWorld = Done tt w') /\
  collectPowerUp "a" boostedPlayer [("far", PowerUp.mk "far" 500 500 SPEED 1700000000000)]
    busyHost pickUpWorld = Done tt pickUpWorld.
Proof.
  assert (H1 : forall e, In e [("far", PowerUp.mk "far" 500 500 SPEED 1700000000000)] ->
                 checkCollision (playerRect boostedPlayer) (powerUpRect (snd e)) = false)
    by (intros e [<- | []]; vm_compute; reflexivity).
  assert (H2 : checkCollision (playerRect boostedPlayer)
                 (powerUpRect (PowerUp.mk "s" 110 110 SHIELD 1700000000000)) = true)
    by (vm_compute; reflexivity).
  split.
  - split; [exact H2 |].
    exact (proj1 first_overlapping_powerUp_is_collected busyHost pickUpWorld "a"
             boostedPlayer (Effects.mk 1700000009000 0 0 0)
             [("far", PowerUp.mk "far" 500 500 SPEED 1700000000000)]
             "s" (PowerUp.mk "s" 110 110 SHIELD 1700000000000)
             [("h", PowerUp.mk "h" 120 120 HEALTH 1700000000000)]
             eq_refl H1 H2).
  - exact (proj2 first_overlapping_powerUp_is_collected busyHost pickUpWorld "a"
             boostedPlayer [("far", PowerUp.mk "far" 500 500 SPEED 1700000000000)] H1).
Defined.

(** X18.  [applyPowerUp] for the player stored under [key], read off the
    clock at [now]: a timed power-up sets the expiry of its own effect to
    [now] plus its duration (10, 8, 7 and 12 seconds for speed, shield, rapid
    fire and damage), whatever the expiry was before, so that collecting the
    same kind again restarts the effect and does not add to it, and it leaves
    the other three expiries and the health as they were; a health pack sets
    the health to [health + 50], capped at [maxHealth], and leaves the
    expiries as they were.  The power-up store and the outbox are not
    touched. *)
Theorem powerUp_restarts_its_effect env w key player eff powerUp :
  JsMap.get key (players (store w)) = Some player ->
  Player.powerUps player = Some eff ->
  exists w' player',
    applyPowerUp key player powerUp env w = Done tt w' /\
    JsMap.get key (players (store w')) = Some player' /\
    powerUps (store w') = powerUps (store w) /\
    outbox w' = outbox w /\
    match PowerUp.kind powerUp with
    | HEALTH =>
        Player.powerUps player' = Some eff /\
        forall h m,
          Player.health player = Num h -> Player.maxHealth player = Num m ->
          Player.health player' = Num (Z.min m (h + 50))
    | kind =>
        Player.health player' = Player.health player /\
        exists eff',
          Player.powerUps player' = Some eff' /\
          effectExpiry kind eff'
            = Some (Date_now env (clockReads w) + PowerUpType.duration kind) /\
          forall other, other <> kind -> effectExpiry other eff' = effectExpiry other eff
    end.
Proof.
  intros Hget Heff. unfold applyPowerUp, setEffect. rewrite Heff.
  destruct (PowerUp.kind powerUp) eqn:Hkind; run_steps;
    eexists; eexists; (split; [reflexivity |]);
    cbn [store players powerUps outbox];
    (split; [rewrite JsMap_get_update_same, Hget; reflexivity |]);
    (split; [reflexivity |]); (split; [reflexivity |]).
  1-3, 5:
    (split; [reflexivity |]); eexists; (split; [reflexivity |]);
    (split; [reflexivity |]); intros [] Hne; try reflexivity; congruence.
  split; [exact Heff |].
  intros h m Hh Hm. cbn [Player.health Player.with_health]. rewrite Hh, Hm. reflexivity.
Qed.

Lemma powerUp_restarts_its_effect_witness :
  JsMap.get "a" (players (store pickUpWorld)) = Some boostedPlayer /\
  exists w' player',
    applyPowerUp "a" boostedPlayer (PowerUp.mk "sp" 110 110 SPEED 1700000000000)
      busyHost pickUpWorld = Done tt w' /\
    JsMap.get "a" (players (store w')) = Some player' /\
    powerUps (store w') = powerUps (store pickUpWorld) /\
    outbox w' = outbox pickUpWorld /\
    Player.health player' = Player.health boostedPlayer /\
    exists eff',
      Player.powerUps player' = Some eff' /\
      effectExpiry SPEED eff'
        = Some (Date_now busyHost (clockReads pickUpWorld) + PowerUpType.duration SPEED) /\
      forall other, other <> SPEED ->
        effectExpiry other eff' = effectExpiry other (Effects.mk 1700000009000 0 0 0).
Proof.
  assert (H : JsMap.get "a" (players (store pickUpWorld)) = Some boostedPlayer)
    by reflexivity.
  split; [exact H |].
  exact (powerUp_restarts_its_effect busyHost pickUpWorld "a" boostedPlayer
           (Effects.mk 1700000009000 0 0 0) (PowerUp.mk "sp" 110 110 SPEED 1700000000000)
           H eq_refl).
Defined.

(** ** Joining a game that has room *)

(** X19.  A socket that connects while fewer than eight players are seated
    gets a seat at once: the player object of the join literal, made from the
    next four draws, is stored under its id, with 100 health out of 100, no
    score and no effect; no other player is touched and the queue is left
    alone; the socket is sent a [gameState] snapshot that already lists it,
    flagged as not spectating; [playerJoined] with the new number of players
    is broadcast; and the socket's listeners are registered. *)
Theorem join_seats_the_socket env w socketId :
  (JsMap.size (players (store w)) < MAX_PLAYERS)%nat ->
  exists w' player,
    onConnection socketId env w = Done tt w' /\
    player = newPlayerOnConnect socketId
               (Math_random env (randomDraws w))
               (Math_random env (S (randomDraws w)))
               (Math_random env (S (S (randomDraws w))))
               (Math_random env (S (S (S (randomDraws w))))) /\
    JsMap.get socketId (players (store w')) = Some player /\
    Player.health player = Num 100 /\ Player.maxHealth player = Num 100 /\
    Player.score player = 0 /\ Player.powerUps player = Some Effects.cleared /\
    (forall k, k <> socketId ->
       JsMap.get k (players (store w')) = JsMap.get k (players (store w))) /\
    (JsMap.has socketId (players (store w)) = false ->
     JsMap.keys (players (store w')) = JsMap.keys (players (store w)) ++ [socketId]) /\
    spectators (store w') = spectators (store w) /\
    listeners w' = listeners w ++ [socketId] /\
    outbox w' =
      outbox w ++
        [ SocketEmit socketId
            (gameState (JsMap.values (players (store w')))
                       (JsMap.values (bullets (store w)))
                       (Some (JsMap.values (powerUps (store w))))
                       (Some (JsMap.values (explosions (store w))))
                       (GAME_WIDTH, GAME_HEIGHT) false);
          IoEmit (playerJoined (JsMap.size (players (store w')))) ].
Proof.
  intros Hroom. unfold onConnection. run_steps.
  assert (Hleb : (MAX_PLAYERS <=? JsMap.size (players (store w)))%nat = false)
    by (apply Nat.leb_gt; exact Hroom).
  rewrite Hleb. run_steps.
  eexists. eexists. split; [reflexivity |]. split; [reflexivity |].
  cbn [store players spectators listeners outbox bullets powerUps explosions].
  split; [apply JsMap_get_set_same |].
  do 4 (split; [reflexivity |]).
  split.
  { intros k Hk. apply JsMap_get_set_other. apply String.eqb_neq. congruence. }
  split.
  { intros Hnew. rewrite JsMap_keys_set. unfold JsMap.has in Hnew.
    destruct (JsMap.get socketId (players (store w))); [discriminate | reflexivity]. }
  split; [reflexivity |]. split; [reflexivity |].
  rewrite <- app_assoc. reflexivity.
Qed.

Lemma join_seats_the_socket_witness :
  (JsMap.size (players (store loneShooter)) < MAX_PLAYERS)%nat /\
  exists w' player,
    onConnection "b" busyHost loneShooter = Done tt w' /\
    player = newPlayerOnConnect "b"
               (Math_random busyHost (randomDraws loneShooter))
               (Math_random busyHost (S (randomDraws loneShooter)))
               (Math_random busyHost (S (S (randomDraws loneShooter))))
               (Math_random busyHost (S (S (S (randomDraws loneShooter))))) /\
    JsMap.get "b" (players (store w')) = Some player /\
    Player.health player = Num 100 /\ Player.maxHealth player = Num 100 /\
    Player.score player = 0 /\ Player.powerUps player = Some Effects.cleared /\
    (forall k, k <> "b" ->
       JsMap.get k (players (store w')) = JsMap.get k (players (store loneShooter))) /\
    (JsMap.has "b" (players (store loneShooter)) = false ->
     JsMap.keys (players (store w')) = JsMap.keys (players (store loneShooter)) ++ ["b"]) /\
    spectators (store w') = spectators (store loneShooter) /\
    listeners w' = listeners loneShooter ++ ["b"] /\
    outbox w' =
      outbox loneShooter ++
        [ SocketEmit "b"
            (gameState (JsMap.values (players (store w')))
                       (JsMap.values (bullets (store loneShooter)))
                       (Some (JsMap.values (powerUps (store loneShooter))))
                       (Some (JsMap.values (explosions (store loneShooter))))
                       (GAME_WIDTH, GAME_HEIGHT) false);
          IoEmit (playerJoined (JsMap.size (players (store w')))) ].
Proof.
  assert (H : (JsMap.size (players (store loneShooter)) < MAX_PLAYERS)%nat)
    by (vm_compute; lia).
  split; [exact H |].
  exact (join_seats_the_socket busyHost loneShooter "b" H).
Defined.

(** ** A shot that is accepted *)

(** X20.  A [playerShoot] request read off the clock at [now], at least a
    cooldown (100 ms under rapid fire, else 300 ms) after the player's last
    accepted shot, is accepted: the player's [lastShot] becomes [now] and
    nothing else of the player changes; one bullet is stored under the id
    that [generateId] returns, owned by the player, starting at the centre of
    the tank, moving
    [BULLET_SPEED] along the requested angle, with damage 50 while the damage
    effect runs and 25 otherwise; every bullet stored under another id is
    untouched; and nothing is emitted. *)
Theorem shot_after_cooldown_fires env w socketId data player eff t1 :
  JsMap.get socketId (players (store w)) = Some player ->
  Player.powerUps player = Some eff ->
  Player.lastShot player = Num t1 ->
  shootCooldown eff (Date_now env (clockReads w)) <= Date_now env (clockReads w) - t1 ->
  exists w' bulletId bullet,
    playerShoot socketId data env w = Done tt w' /\
    JsMap.get socketId (players (store w'))
      = Some (Player.with_lastShot (Num (Date_now env (clockReads w))) player) /\
    JsMap.get bulletId (bullets (store w')) = Some bullet /\
    (forall k, k <> bulletId ->
       JsMap.get k (bullets (store w')) = JsMap.get k (bullets (store w))) /\
    Bullet.id bullet = bulletId /\
    Bullet.playerId bullet = socketId /\
    Bullet.x bullet = (Player.x player + TANK_SIZE / 2)%Q /\
    Bullet.y bullet = (Player.y player + TANK_SIZE / 2)%Q /\
    Bullet.dx bullet = (Math_cos env (ShootData.angle data) * BULLET_SPEED)%Q /\
    Bullet.dy bullet = (Math_sin env (ShootData.angle data) * BULLET_SPEED)%Q /\
    Bullet.damage bullet
      = (if Effects.damage eff >? Date_now env (clockReads w) then 50 else 25) /\
    outbox w' = outbox w /\
    powerUps (store w') = powerUps (store w).
Proof.
  intros Hget Heff Hlast Hcool.
  assert (Hlt : Js.lt (Js.sub (Num (Date_now env (clockReads w))) (Player.lastShot player))
                      (Num (shootCooldown eff (Date_now env (clockReads w)))) = false).
  { rewrite Hlast. cbn [Js.sub Js.lt]. apply Z.ltb_ge. exact Hcool. }
  rewrite (playerShoot_fired env w socketId data player eff Hget Heff Hlt).
  eexists. eexists. eexists. split; [reflexivity |].
  cbn [store players bullets outbox powerUps].
  split; [rewrite JsMap_get_update_same, Hget; reflexivity |].
  split; [apply JsMap_get_set_same |].
  split.
  { intros k Hk. apply JsMap_get_set_other. apply String.eqb_neq. congruence. }
  repeat split.
Qed.

Lemma shot_after_cooldown_fires_witness :
  JsMap.get "a" (players (store loneShooter))
    = Some (newPlayerOnConnect "a" (1 # 2) (1 # 2) (1 # 2) (1 # 2)) /\
  shootCooldown Effects.cleared (Date_now busyHost (clockReads loneShooter))
    <= Date_now busyHost (clockReads loneShooter) - 0 /\
  exists w' bulletId bullet,
    playerShoot "a" (ShootData.mk 0) busyHost loneShooter = Done tt w' /\
    JsMap.get "a" (players (store w'))
      = Some (Player.with_lastShot (Num (Date_now busyHost (clockReads loneShooter)))
                (newPlayerOnConnect "a" (1 # 2) (1 # 2) (1 # 2) (1 # 2))) /\
    JsMap.get bulletId (bullets (store w')) = Some bullet /\
    (forall k, k <> bulletId ->
       JsMap.get k (bullets (store w')) = JsMap.get k (bullets (store loneShooter))) /\
    Bullet.id bullet = bulletId /\
    Bullet.playerId bullet = "a" /\
    Bullet.x bullet
      = (Player.x (newPlayerOnConnect "a" (1 # 2) (1 # 2) (1 # 2) (1 # 2)) + TANK_SIZE / 2)%Q /\
    Bullet.y bullet
      = (Player.y (newPlayerOnConnect "a" (1 # 2) (1 # 2) (1 # 2) (1 # 2)) + TANK_SIZE / 2)%Q /\
    Bullet.dx bullet = (Math_cos busyHost (ShootData.angle (ShootData.mk 0)) * BULLET_SPEED)%Q /\
    Bullet.dy bullet = (Math_sin busyHost (ShootData.angle (ShootData.mk 0)) * BULLET_SPEED)%Q /\
    Bullet.damage bullet
      = (if Effects.damage Effects.cleared >? Date_now busyHost (clockReads loneShooter)
         then 50 else 25) /\
    outbox w' = outbox loneShooter /\
    powerUps (store w') = powerUps (store loneShooter).
Proof.
  assert (H1 : JsMap.get "a" (players (store loneShooter))
               = Some (newPlayerOnConnect "a" (1 # 2) (1 # 2) (1 # 2) (1 # 2)))
    by (vm_compute; reflexivity).
  assert (H2 : shootCooldown Effects.cleared (Date_now busyHost (clockReads loneShooter))
               <= Date_now busyHost (clockReads loneShooter) - 0)
    by (vm_compute; discriminate).
  split; [exact H1 |]. split; [exact H2 |].
  exact (shot_after_cooldown_fires busyHost loneShooter "a" (ShootData.mk 0)
           (newPlayerOnConnect "a" (1 # 2) (1 # 2) (1 # 2) (1 # 2)) Effects.cleared 0
           H1 eq_refl eq_refl H2).
Defined.

Lemma health_in_range_with_maxHealth_witness :
  In ("a", snd (hd ("", opponent)
                  (players (store (final (serve killRun steadyHost initialWorld))))))
     (players (store (final (serve killRun steadyHost initialWorld)))) /\
  (exists h,
     Player.health
       (snd (hd ("", opponent)
               (players (store (final (serve killRun steadyHost initialWorld)))))) = Num h /\
     0 < h) /\
  (forall m,
     Player.maxHealth
       (snd (hd ("", opponent)
               (players (store (final (serve killRun steadyHost initialWorld)))))) = Num m ->
     healthInRange
       (snd (hd ("", opponent)
               (players (store (final (serve killRun steadyHost initialWorld)))))) = true).
Proof.
  assert (H : In ("a", snd (hd ("", opponent)
                              (players (store (final (serve killRun steadyHost initialWorld))))))
                 (players (store (final (serve killRun steadyHost initialWorld)))))
    by (vm_compute; left; reflexivity).
  split; [exact H |].
  exact (health_in_range_with_maxHealth steadyHost killRun _ _ H).
Defined.

Lemma broadcast_health_positive_witness :
  In (nth 12 (outbox (final (serve killRun steadyHost initialWorld))) (IoEmit (playerJoined 0)))
     (outbox (final (serve killRun steadyHost initialWorld))) /\
  broadcastPlayers
    (nth 12 (outbox (final (serve killRun steadyHost initialWorld))) (IoEmit (playerJoined 0)))
    = Some (JsMap.values (players (store (final (serve killRun steadyHost initialWorld))))) /\
  In (snd (hd ("", opponent)
             (players (store (final (serve killRun steadyHost initialWorld))))))
     (JsMap.values (players (store (final (serve killRun steadyHost initialWorld))))) /\
  exists h,
    Player.health
      (snd (hd ("", opponent)
              (players (store (final (serve killRun steadyHost initialWorld)))))) = Num h /\
    0 < h.
Proof.
  assert (H1 : In (nth 12 (outbox (final (serve killRun steadyHost initialWorld)))
                      (IoEmit (playerJoined 0)))
                  (outbox (final (serve killRun steadyHost initialWorld))))
    by (apply nth_In; vm_compute; lia).
  assert (H2 : broadcastPlayers
                 (nth 12 (outbox (final (serve killRun steadyHost initialWorld)))
                      (IoEmit (playerJoined 0)))
               = Some (JsMap.values
                         (players (store (final (serve killRun steadyHost initialWorld))))))
    by (vm_compute; reflexivity).
  assert (H3 : In (snd (hd ("", opponent)
                          (players (store (final (serve killRun steadyHost initialWorld))))))
                  (JsMap.values
                     (players (store (final (serve killRun steadyHost initialWorld))))))
    by (vm_compute; left; reflexivity).
  split; [exact H1 |]. split; [exact H2 |]. split; [exact H3 |].
  exact (broadcast_health_positive steadyHost killRun _ _ _ H1 H2 H3).
Defined.

(** ** How far a move goes *)

(** X23.  A [playerMove] of a player that has its [powerUps] object, read
    off the clock at [now], completes and leaves the player at
    [x + dx * TANK_SPEED * m] and [y + dy * TANK_SPEED * m], each clamped to
    the arena, where [m] is 2 while the speed effect runs ([speed > now]) and
    1 otherwise; a power-up picked up on the way does not move the player.
    When the target lies inside the arena the player stands exactly there. *)
Theorem move_steps_by_speed env w socketId data player eff :
  JsMap.get socketId (players (store w)) = Some player ->
  Player.powerUps player = Some eff ->
  exists w' player',
    playerMove socketId data env w = Done tt w' /\
    JsMap.get socketId (players (store w')) = Some player' /\
    Player.x player' =
      clampX (Player.x player + MoveData.dx data * TANK_SPEED *
              (if Effects.speed eff >? Date_now env (clockReads w) then 2 else 1))%Q /\
    Player.y player' =
      clampY (Player.y player + MoveData.dy data * TANK_SPEED *
              (if Effects.speed eff >? Date_now env (clockReads w) then 2 else 1))%Q /\
    (forall tx : Q,
       (tx == Player.x player + MoveData.dx data * TANK_SPEED *
              (if Effects.speed eff >? Date_now env (clockReads w) then 2 else 1))%Q ->
       (0 <= tx /\ tx <= GAME_WIDTH - TANK_SIZE)%Q ->
       (Player.x player' == tx)%Q).
Proof.
  intros Hget Heff. unfold playerMove.
  unfold bind at 1. unfold getPlayer at 1. unfold bind at 1.
  unfold getStore at 1. unfold ret at 1. rewrite Hget, Heff.
  unfold bind at 1. unfold dateNow at 1.
  unfold bind at 1. unfold mutatePlayer at 1. unfold modifyStore at 1.
  unfold bind at 1. unfold getStore at 1.
  cbv zeta. cbn [store listeners outbox clockReads randomDraws].
  set (now := Date_now env (clockReads w)).
  set (px := clampX (Player.x player + MoveData.dx data * TANK_SPEED *
                     (if Effects.speed eff >? now then 2 else 1))%Q).
  set (py := clampY (Player.y player + MoveData.dy data * TANK_SPEED *
                     (if Effects.speed eff >? now then 2 else 1))%Q).
  match goal with
  | |- exists _ _, collectPowerUp _ ?pl ?l env ?w1 = _ /\ _ =>
      assert (Hat : standsAt socketId px py w1);
      [| destruct (collectPowerUp_standsAt env socketId px py pl eff l Heff w1 Hat)
           as [w' [Hrun [p' [Hp' [Hx Hy]]]]] ]
  end.
  - eexists. cbn [store players with_players].
    rewrite JsMap_get_update_same, Hget. split; [reflexivity |]. split; reflexivity.
  - exists w', p'. split; [exact Hrun |]. split; [exact Hp' |].
    split; [exact Hx |]. split; [exact Hy |].
    intros tx Htx [H0 H1]. rewrite Hx. subst px. unfold clampX. rewrite <- Htx.
    rewrite (Q.min_r _ _ H1). apply Q.max_r. exact H0.
Qed.

Lemma move_steps_by_speed_witness :
  JsMap.get "a" (players (store pickUpWorld)) = Some boostedPlayer /\
  exists w' player',
    playerMove "a" (MoveData.mk 1 (-1) 0) busyHost pickUpWorld = Done tt w' /\
    JsMap.get "a" (players (store w')) = Some player' /\
    Player.x player' =
      clampX (Player.x boostedPlayer + MoveData.dx (MoveData.mk 1 (-1) 0) * TANK_SPEED *
              (if Effects.speed (Effects.mk 1700000009000 0 0 0)
                  >? Date_now busyHost (clockReads pickUpWorld) then 2 else 1))%Q /\
    Player.y player' =
      clampY (Player.y boostedPlayer + MoveData.dy (MoveData.mk 1 (-1) 0) * TANK_SPEED *
              (if Effects.speed (Effects.mk 1700000009000 0 0 0)
                  >? Date_now busyHost (clockReads pickUpWorld) then 2 else 1))%Q /\
    (forall tx : Q,
       (tx == Player.x boostedPlayer + MoveData.dx (MoveData.mk 1 (-1) 0) * TANK_SPEED *
              (if Effects.speed (Effects.mk 1700000009000 0 0 0)
                  >? Date_now busyHost (clockReads pickUpWorld) then 2 else 1))%Q ->
       (0 <= tx /\ tx <= GAME_WIDTH - TANK_SIZE)%Q ->
       (Player.x player' == tx)%Q).
Proof.
  assert (H : JsMap.get "a" (players (store pickUpWorld)) = Some boostedPlayer)
    by reflexivity.
  split; [exact H |].
  exact (move_steps_by_speed busyHost pickUpWorld "a" (MoveData.mk 1 (-1) 0)
           boostedPlayer (Effects.mk 1700000009000 0 0 0) H eq_refl).
Defined.

(** ** Ids and damages *)

Lemma JsMap_update_Forall_entry {V} (P : string * V -> Prop) k (f : V -> V) (m : JsMap.t V) :
  (forall e, P e -> P (fst e, f (snd e))) ->
  Forall P m -> Forall P (JsMap.update k f m).
Proof.
  intros Hf Hm. unfold JsMap.update. rewrite Forall_map.
  eapply Forall_impl; [| exact Hm]. intros e He.
  destruct (JsMap.keyIs k e); [apply Hf; exact He | exact He].
Qed.

Ltac keyed_write :=
  let s := fresh "s" in
  let Hp := fresh "Hp" in
  let Hb := fresh "Hb" in
  let Hu := fresh "Hu" in
  let He := fresh "He" in
  intros s [Hp [Hb [Hu He]]];
  unfold keyedById;
  cbn [with_players with_bullets with_spectators with_powerUps with_explosions
       with_leaderboard players bullets powerUps explosions];
  (split; [| split; [| split]]);
  first
    [ assumption
    | apply JsMap_set_Forall; [reflexivity | assumption]
    | apply Forall_filter_keep; assumption
    | apply JsMap_update_Forall_entry; [intros ? ?; assumption | assumption] ].

Ltac keyed_writes :=
  idtac;
  lazymatch goal with
  | |- keeps _ (emit _) => apply keeps_emit_notLost
  | |- keeps _ (modifyStore _) => apply keeps_modifyStore_notLost; keyed_write
  | |- keeps _ (mutatePlayer _ _) =>
      unfold mutatePlayer; apply keeps_modifyStore_notLost; keyed_write
  end.

Lemma react_keyed ev : keeps (notLost keyedById) (react ev).
Proof.
  destruct ev; cbn [react];
    unfold whenListening, onConnection, playerMove, collectPowerUp, applyPowerUp, setEffect,
      playerShoot, onDisconnect,
      gameLoop, spawnPowerUp, updateBullet, hitPlayers, onBulletHit, playerDied,
      createExplosion, updateLeaderboard;
    keeps_steps (notLost_refl keyedById) (notLost_trans keyedById)
                (notLost_store keyedById) keyed_writes.
Qed.

(** X24.  However many events the server has handled, and whether or not a
    handler threw on the way, every player, bullet, power-up and explosion is
    stored under the key that its own [id] field names. *)
Theorem entities_are_stored_under_their_ids env evs :
  Forall (fun e => Player.id (snd e) = fst e)
         (players (store (final (serve evs env initialWorld)))) /\
  Forall (fun e => Bullet.id (snd e) = fst e)
         (bullets (store (final (serve evs env initialWorld)))) /\
  Forall (fun e => PowerUp.id (snd e) = fst e)
         (powerUps (store (final (serve evs env initialWorld)))) /\
  Forall (fun e => Explosion.id (snd e) = fst e)
         (explosions (store (final (serve evs env initialWorld)))).
Proof.
  apply (serve_keeps (notLost keyedById) evs (notLost_refl _) (notLost_trans _)
           react_keyed env initialWorld).
  repeat split; constructor.
Qed.

Lemma damage_set s k b :
  Bullet.damage b = 25 \/ Bullet.damage b = 50 ->
  knownDamage s -> knownDamage (with_bullets (JsMap.set k b) s).
Proof.
  intros Hb H. unfold knownDamage, with_bullets. cbn [bullets].
  apply JsMap_set_Forall; [exact Hb | exact H].
Qed.

Lemma damage_filter s g : knownDamage s -> knownDamage (with_bullets (filter g) s).
Proof. unfold knownDamage, with_bullets. cbn [bullets]. apply Forall_filter_keep. Qed.

Lemma damage_advance s k :
  knownDamage s -> knownDamage (with_bullets (JsMap.update k advance) s).
Proof.
  unfold knownDamage, with_bullets. cbn [bullets]. intros H.
  apply (JsMap_update_Forall (fun b => Bullet.damage b = 25 \/ Bullet.damage b = 50));
    [| exact H].
  intros e _ _ He. exact He.
Qed.

Ltac damage_write :=
  intros ? ?;
  first
    [ assumption
    | apply damage_filter; assumption
    | apply damage_advance; assumption
    | apply damage_set;
      [ cbn [Bullet.damage];
        match goal with
        | |- (if ?c then _ else _) = _ \/ _ => destruct c; [right | left]; reflexivity
        end
      | assumption ] ].

Ltac damage_writes :=
  idtac;
  lazymatch goal with
  | |- keeps _ (emit _) => apply keeps_emit_notLost
  | |- keeps _ (modifyStore _) => apply keeps_modifyStore_notLost; damage_write
  | |- keeps _ (mutatePlayer _ _) =>
      unfold mutatePlayer; apply keeps_modifyStore_notLost; damage_write
  end.

Lemma react_damage ev : keeps (notLost knownDamage) (react ev).
Proof.
  destruct ev; cbn [react];
    unfold whenListening, onConnection, playerMove, collectPowerUp, applyPowerUp, setEffect,
      playerShoot, onDisconnect,
      gameLoop, spawnPowerUp, updateBullet, hitPlayers, onBulletHit, playerDied,
      createExplosion, updateLeaderboard;
    keeps_steps (notLost_refl knownDamage) (notLost_trans knownDamage)
                (notLost_store knownDamage) damage_writes.
Qed.

(** X25.  However many events the server has handled, every bullet in the
    store has damage 25 or 50, so the fallback of [bullet.damage || 25] is
    never taken: the damage of a hit is the bullet's own [damage]. *)
Theorem bullets_carry_25_or_50 env evs :
  Forall (fun e =>
            (Bullet.damage (snd e) = 25 \/ Bullet.damage (snd e) = 50) /\
            bulletDamage (snd e) = Bullet.damage (snd e))
         (bullets (store (final (serve evs env initialWorld)))).
Proof.
  assert (H : knownDamage (store (final (serve evs env initialWorld)))).
  { apply (serve_keeps (notLost knownDamage) evs (notLost_refl _) (notLost_trans _)
             react_damage env initialWorld).
    constructor. }
  eapply Forall_impl; [| exact H]. intros e He. split; [exact He |].
  unfold bulletDamage. destruct He as [-> | ->]; reflexivity.
Qed.

(** ** Ids *)

Lemma fraction36_length n : forall r, (String.length (fraction36 n r) <= n)%nat.
Proof.
  induction n as [| n IH]; intros r; cbn [fraction36]; [apply Nat.le_refl |].
  destruct (Qeq_bool r 0); cbn [String.length]; [apply Nat.le_0_l |].
  apply le_n_S, IH.
Qed.

(** X26.  [generateId] always completes, consumes one draw, leaves the
    stores and the outbox alone, and returns a text of nine characters at
    most, which is empty when the draw is 0. *)
Theorem generateId_is_short env w :
  exists id w',
    generateId env w = Done id w' /\
    (String.length id <= 9)%nat /\
    ((Math_random env (randomDraws w) == 0)%Q -> id = "") /\
    store w' = store w /\ outbox w' = outbox w /\
    randomDraws w' = S (randomDraws w).
Proof.
  unfold generateId. run_steps. eexists. eexists. split; [reflexivity |].
  split; [apply fraction36_length |].
  split; [| repeat split].
  intros H0. cbn [fraction36]. apply Qeq_bool_iff in H0. rewrite H0. reflexivity.
Qed.

(** ** The spawn step *)

Lemma floor_of_scaled_draw (r : Q) :
  (0 <= r /\ r < 1)%Q -> 0 <= Qfloor (r * 5) < 5.
Proof.
  intros [H0 H1]. split.
  - change 0 with (Qfloor 0). apply Qfloor_resp_le. lra.
  - apply Z.lt_nge. intros Hge.
    assert (H5 : (5 <= r * 5)%Q).
    { eapply Qle_trans; [| apply Qfloor_le].
      change 5%Q with (inject_Z 5). rewrite <- Zle_Qle. exact Hge. }
    lra.
Qed.

(** X27.  [spawnPowerUp] always completes.  When its first draw is below
    [POWER_UP_SPAWN_RATE] and fewer than five power-ups are alive, it stores
    exactly one power-up under the id it generates, stamped with the clock
    reading it takes, and leaves the power-ups under other ids alone; on a
    host whose draws are in [0, 1) the kind is the entry of
    [POWER_UP_TYPES] that the second draw indexes, never [undefined], and the
    power-up lies in the field.  Otherwise it consumes that one draw and
    changes nothing else. *)
Theorem spawnPowerUp_spawns_one :
  (forall env w,
     Qltb (Math_random env (randomDraws w)) POWER_UP_SPAWN_RATE = true ->
     (JsMap.size (powerUps (store w)) < 5)%nat ->
     exists w' powerUp,
       spawnPowerUp env w = Done tt w' /\
       JsMap.get (PowerUp.id powerUp) (powerUps (store w')) = Some powerUp /\
       (forall k, k <> PowerUp.id powerUp ->
          JsMap.get k (powerUps (store w')) = JsMap.get k (powerUps (store w))) /\
       PowerUp.spawnTime powerUp = Date_now env (clockReads w) /\
       (drawsInUnit env ->
        nth_error PowerUpType.values
          (Z.to_nat (Qfloor (Math_random env (S (randomDraws w)) * 5)))
          = Some (PowerUp.kind powerUp) /\
        inField powerUp) /\
       players (store w') = players (store w) /\
       bullets (store w') = bullets (store w) /\
       outbox w' = outbox w) /\
  (forall env w,
     Qltb (Math_random env (randomDraws w)) POWER_UP_SPAWN_RATE = false \/
     (5 <= JsMap.size (powerUps (store w)))%nat ->
     spawnPowerUp env w =
       Done tt (mkWorld (store w) (listeners w) (outbox w) (clockReads w)
                        (S (randomDraws w)))).
Proof.
  split.
  - intros env w Hrate Hroom. unfold spawnPowerUp. run_steps.
    rewrite Hrate. apply Nat.ltb_lt in Hroom. rewrite Hroom. cbn [andb]. run_steps.
    eexists. eexists. split; [reflexivity |].
    cbn [store powerUps players bullets outbox PowerUp.id PowerUp.spawnTime PowerUp.kind].
    split; [apply JsMap_get_set_same |].
    split.
    { intros k Hk. apply JsMap_get_set_other. apply String.eqb_neq.
      intros Heq. apply Hk. symmetry. exact Heq. }
    split; [reflexivity |].
    split; [| repeat split].
    intros Hdraws. split.
    + pose proof (floor_of_scaled_draw _ (Hdraws (S (randomDraws w)))) as Hidx.
      cbn [PowerUpType.values List.length Z.of_nat Pos.of_succ_nat Pos.succ inject_Z].
      change (inject_Z 5) with 5%Q.
      set (i := Qfloor (Math_random env (S (randomDraws w)) * 5)) in *.
      assert (Hi : i = 0 \/ i = 1 \/ i = 2 \/ i = 3 \/ i = 4) by lia.
      destruct Hi as [-> | [-> | [-> | [-> | ->]]]]; reflexivity.
    + unfold inField. cbn [PowerUp.x PowerUp.y].
      split; apply scaled_draw; first [apply Hdraws | discriminate].
  - intros env w Hno. unfold spawnPowerUp. run_steps.
    destruct Hno as [Hrate | Hfull].
    + rewrite Hrate. reflexivity.
    + apply Nat.ltb_ge in Hfull. rewrite Hfull, andb_false_r. reflexivity.
Qed.

Lemma spawnPowerUp_spawns_one_witness :
  (Qltb (Math_random luckyHost (randomDraws initialWorld)) POWER_UP_SPAWN_RATE = true /\
   (JsMap.size (powerUps (store initialWorld)) < 5)%nat /\
   drawsInUnit luckyHost /\
   exists w' powerUp,
     spawnPowerUp luckyHost initialWorld = Done tt w' /\
     JsMap.get (PowerUp.id powerUp) (powerUps (store w')) = Some powerUp /\
     (forall k, k <> PowerUp.id powerUp ->
        JsMap.get k (powerUps (store w')) = JsMap.get k (powerUps (store initialWorld))) /\
     PowerUp.spawnTime powerUp = Date_now luckyHost (clockReads initialWorld) /\
     (drawsInUnit luckyHost ->
      nth_error PowerUpType.values
        (Z.to_nat (Qfloor (Math_random luckyHost (S (randomDraws initialWorld)) * 5)))
        = Some (PowerUp.kind powerUp) /\
      inField powerUp) /\
     players (store w') = players (store initialWorld) /\
     bullets (store w') = bullets (store initialWorld) /\
     outbox w' = outbox initialWorld) /\
  ((Qltb (Math_random steadyHost (randomDraws initialWorld)) POWER_UP_SPAWN_RATE = false \/
    (5 <= JsMap.size (powerUps (store initialWorld)))%nat) /\
   spawnPowerUp steadyHost initialWorld =
     Done tt (mkWorld (store initialWorld) (listeners initialWorld) (outbox initialWorld)
                      (clockReads initialWorld) (S (randomDraws initialWorld)))).
Proof.
  assert (H1 : Qltb (Math_random luckyHost (randomDraws initialWorld)) POWER_UP_SPAWN_RATE
               = true) by reflexivity.
  assert (H2 : (JsMap.size (powerUps (store initialWorld)) < 5)%nat) by (cbn; lia).
  assert (H3 : drawsInUnit luckyHost)
    by (intros n; split; [discriminate | reflexivity]).
  assert (H4 : Qltb (Math_random steadyHost (randomDraws initialWorld)) POWER_UP_SPAWN_RATE
               = false \/
               (5 <= JsMap.size (powerUps (store initialWorld)))%nat)
    by (left; reflexivity).
  split.
  - split; [exact H1 |]. split; [exact H2 |]. split; [exact H3 |].
    exact (proj1 spawnPowerUp_spawns_one luckyHost initialWorld H1 H2).
  - split; [exact H4 |].
    exact (proj2 spawnPowerUp_spawns_one steadyHost initialWorld H4).
Defined.
